(** * split_csv: a shallow embedding of [csv_splitter.hpp] and [main_split_csv.cpp]

    The program reads a CSV stream in windows of [BUFFER_SIZE] bytes and writes
    every column to a file of its own.  This development embeds the column
    sink ([flush_buffer], [add_buffer_to_column], [add_chars_to_column]), the
    restartable state machine of [split_csv] and the driver [main], and settles
    the properties stated about them.

    Conventions of the embedding.
    - [size_t] values are numbers of type [N]; where the source adds or
      subtracts them the wrap-around modulo 2^64 is written out.
    - A pointer into a buffer is its offset (an [N]) from the start of the
      allocation; the allocation is a [list byte].  An access outside the
      allocation is undefined behaviour in C++ and is the outcome [Fault].
    - [assert] is active (the Makefile never defines NDEBUG): a failed
      assertion is the outcome [Abort].
    - [write] on a column file is taken to write the whole buffer, which is
      what [flush_buffer] asserts.
    - The loops of the source have no bound; the embedding runs them on a
      fuel that is computed from the data, and [OutOfFuel] is the outcome of a
      loop that did not finish within it. *)

From Stdlib Require Import String Ascii Bool Arith NArith Lia List.
From Stdlib.Strings Require Import Byte.
From Stdlib Require DecimalString DecimalPos DecimalN.
Import ListNotations.
Open Scope N_scope.

(* ================================================================= *)
(** ** Outcomes *)

Inductive Result (A : Type) : Type :=
| Ok (a : A)          (* the computation went on *)
| Exit (code : N)     (* [exit(code)] was called *)
| Abort               (* an assertion failed *)
| Fault               (* access outside an allocation *)
| OutOfFuel.          (* artefact of the embedding *)

Arguments Ok {A} a.
Arguments Exit {A} code.
Arguments Abort {A}.
Arguments Fault {A}.
Arguments OutOfFuel {A}.

Definition bind {A B : Type} (r : Result A) (k : A -> Result B) : Result B :=
  match r with
  | Ok a => k a
  | Exit c => Exit c
  | Abort => Abort
  | Fault => Fault
  | OutOfFuel => OutOfFuel
  end.

Notation "x <- e ;; k" := (bind e (fun x => k))
  (at level 61, e at next level, right associativity).
Notation "' p <- e ;; k" := (bind e (fun p => k))
  (at level 61, p pattern, e at next level, right associativity).

(** [assert(b)] followed by the rest of the block. *)
Definition assert {A : Type} (b : bool) (k : Result A) : Result A :=
  if b then k else Abort.

(* ================================================================= *)
(** ** Machine integers and raw memory *)

Definition SIZE_MOD : N := 2 ^ 64.

Definition size_add (a b : N) : N := (a + b) mod SIZE_MOD.
Definition size_sub (a b : N) : N := (a + SIZE_MOD - b mod SIZE_MOD) mod SIZE_MOD.

(** [std::distance(p, q)] converted to [size_t]. *)
Definition distance (p q : N) : N := size_sub q p.

Definition len (l : list byte) : N := N.of_nat (length l).
Definition take (n : N) (l : list byte) : list byte := firstn (N.to_nat n) l.
Definition drop (n : N) (l : list byte) : list byte := skipn (N.to_nat n) l.

(** [memcpy(dst + off, src, n)]. *)
Definition memcpy (dst : list byte) (off : N) (src : list byte) (n : N)
  : Result (list byte) :=
  if (n <=? len src) && (off + n <=? len dst)
  then Ok (take off dst ++ take n src ++ drop (off + n) dst)
  else Fault.

(** [memset(dst + off, chr, n)]. *)
Definition memset (dst : list byte) (off : N) (chr : byte) (n : N)
  : Result (list byte) :=
  if off + n <=? len dst
  then Ok (take off dst ++ repeat chr (N.to_nat n) ++ drop (off + n) dst)
  else Fault.

(** [*(buf + off)]. *)
Definition load (buf : list byte) (off : N) : Result byte :=
  match nth_error buf (N.to_nat off) with
  | Some b => Ok b
  | None => Fault
  end.

(** [*(buf + off) = b]. *)
Definition store (buf : list byte) (off : N) (b : byte) : Result (list byte) :=
  if off <? len buf
  then Ok (take off buf ++ b :: drop (off + 1) buf)
  else Fault.

(** [rawmemchr(buf + off, c) - buf]: the first occurrence of [c] at or after
    [off]; running off the allocation is a [Fault]. *)
Fixpoint find_byte (c : byte) (l : list byte) : option N :=
  match l with
  | [] => None
  | b :: l' => if Byte.eqb b c then Some 0
               else match find_byte c l' with
                    | Some i => Some (N.succ i)
                    | None => None
                    end
  end.

Definition rawmemchr (buf : list byte) (off : N) (c : byte) : Result N :=
  if off <=? len buf
  then match find_byte c (drop off buf) with
       | Some i => Ok (off + i)
       | None => Fault
       end
  else Fault.

Definition LF : byte := x0a.      (* line feed, the record separator *)
Definition COMMA : byte := x2c.   (* comma, the field separator *)
Definition DQUOTE : byte := x22.  (* double quote *)

(* ================================================================= *)
(** ** The column sink *)

(** The file behind [output_fd].  Every column owns its descriptor, so the
    bytes written through it are kept with the column. *)
Record Sink : Type := {
  path : string;
  written : list byte
}.

Record ColumnInfo : Type := {
  output_fd : Sink;
  buffer : list byte;
  buffer_size : N;
  buffer_position : N;
  on_heap : bool
}.

Definition set_position (column : ColumnInfo) (p : N) : ColumnInfo :=
  {| output_fd := output_fd column; buffer := buffer column;
     buffer_size := buffer_size column; buffer_position := p;
     on_heap := on_heap column |}.

Definition set_buffer (column : ColumnInfo) (b : list byte) : ColumnInfo :=
  {| output_fd := output_fd column; buffer := b;
     buffer_size := buffer_size column;
     buffer_position := buffer_position column;
     on_heap := on_heap column |}.

(** [write(fd, buf, n)] *)
Definition write (fd : Sink) (buf : list byte) (n : N) : Sink :=
  {| path := path fd; written := written fd ++ take n buf |}.

Definition flush_buffer (column : ColumnInfo) : ColumnInfo :=
  let remaining_count := buffer_position column in
  {| output_fd := write (output_fd column) (buffer column) remaining_count;
     buffer := buffer column;
     buffer_size := buffer_size column;
     buffer_position := 0;
     on_heap := on_heap column |}.

(** The [while] loop of [add_buffer_to_column]. *)
Fixpoint add_buffer_loop (fuel : nat) (column : ColumnInfo)
  (from_buffer : list byte) (copy_size remaining_buffer : N)
  : Result (ColumnInfo * list byte * N) :=
  if remaining_buffer <=? copy_size then
    match fuel with
    | O => OutOfFuel
    | S fuel' =>
        b <- memcpy (buffer column) (buffer_position column)
                    from_buffer remaining_buffer ;;
        let column := set_buffer column b in
        let column :=
          set_position column
            (size_add (buffer_position column) remaining_buffer) in
        let column := flush_buffer column in
        let copy_size := copy_size - remaining_buffer in
        let from_buffer := drop remaining_buffer from_buffer in
        add_buffer_loop fuel' column from_buffer copy_size (buffer_size column)
    end
  else Ok (column, from_buffer, copy_size).

Definition add_buffer_to_column (column : ColumnInfo)
  (from_buffer : list byte) (copy_size : N) : Result ColumnInfo :=
  let remaining_buffer :=
    size_sub (buffer_size column) (buffer_position column) in
  '(column, from_buffer, copy_size) <-
     add_buffer_loop (S (S (length from_buffer)))
                     column from_buffer copy_size remaining_buffer ;;
  if negb (copy_size =? 0) then
    b <- memcpy (buffer column) (buffer_position column)
                from_buffer copy_size ;;
    Ok (set_position (set_buffer column b)
          (size_add (buffer_position column) copy_size))
  else Ok column.

(** The [while] loop of [add_chars_to_column]. *)
Fixpoint add_chars_loop (fuel : nat) (column : ColumnInfo) (copy_size : N)
  : Result (ColumnInfo * N) :=
  if buffer_size column <=? copy_size then
    match fuel with
    | O => OutOfFuel
    | S fuel' =>
        let column := flush_buffer column in
        add_chars_loop fuel' column (copy_size - buffer_size column)
    end
  else Ok (column, copy_size).

Definition add_chars_to_column (column : ColumnInfo) (chr : byte)
  (copy_size : N) : Result ColumnInfo :=
  if size_add (buffer_position column) copy_size <=? buffer_size column then
    b <- memset (buffer column) (buffer_position column) chr copy_size ;;
    Ok (set_position (set_buffer column b)
          (size_add (buffer_position column) copy_size))
  else
    let column :=
      if negb (buffer_position column =? 0) then flush_buffer column
      else column in
    if buffer_size column <=? copy_size then
      b <- memset (buffer column) 0 chr (buffer_size column) ;;
      let column := set_buffer column b in
      (* [flush_buffer] writes [buffer_position] bytes, and the position is
         not moved by the [memset] above *)
      '(column, copy_size) <-
         add_chars_loop (S (N.to_nat (copy_size / buffer_size column)))
                        column copy_size ;;
      Ok (set_position column copy_size)
    else
      b <- memset (buffer column) 0 chr copy_size ;;
      Ok (set_position (set_buffer column b) copy_size).

(* ================================================================= *)
(** ** The state machine of [split_csv] *)

Inductive CSVState : Type :=
| OnRowInitial
| OnColumnInitial
| InSimpleColumn
| InQuotedStringColumn
| InQuotedStringColumnOnQuote.

Definition CSVState_eqb (a b : CSVState) : bool :=
  match a, b with
  | OnRowInitial, OnRowInitial
  | OnColumnInitial, OnColumnInitial
  | InSimpleColumn, InSimpleColumn
  | InQuotedStringColumn, InQuotedStringColumn
  | InQuotedStringColumnOnQuote, InQuotedStringColumnOnQuote => true
  | _, _ => false
  end.

(** What one [read] may deliver: some bytes (the call returns at most the
    number of bytes asked for, the rest stays in the stream) or an error.
    A stream that is used up makes [read] return 0. *)
Inductive ReadEvent : Type :=
| Data (bytes : list byte)
| ReadError.

(** The variables of [split_csv]. *)
Record Machine : Type := {
  input_buffer : list byte;
  NEWLINE_SENTINEL : N;
  COMMA_SENTINEL : N;
  DQUOTE_SENTINEL : N;
  next_newline : N;
  column_infos : list ColumnInfo;
  current_row : N;
  current_column : N;
  current_state : CSVState;
  heap_blocks : N   (* blocks from [malloc] that are not yet freed *)
}.

Definition set_input_buffer (m : Machine) (b : list byte) : Machine :=
  {| input_buffer := b;
     NEWLINE_SENTINEL := NEWLINE_SENTINEL m;
     COMMA_SENTINEL := COMMA_SENTINEL m;
     DQUOTE_SENTINEL := DQUOTE_SENTINEL m;
     next_newline := next_newline m;
     column_infos := column_infos m;
     current_row := current_row m;
     current_column := current_column m;
     current_state := current_state m;
     heap_blocks := heap_blocks m |}.

Definition set_sentinels (m : Machine) (n : N) : Machine :=
  {| input_buffer := input_buffer m;
     NEWLINE_SENTINEL := n;
     COMMA_SENTINEL := n + 1;
     DQUOTE_SENTINEL := n + 2;
     next_newline := next_newline m;
     column_infos := column_infos m;
     current_row := current_row m;
     current_column := current_column m;
     current_state := current_state m;
     heap_blocks := heap_blocks m |}.

Definition set_next_newline (m : Machine) (p : N) : Machine :=
  {| input_buffer := input_buffer m;
     NEWLINE_SENTINEL := NEWLINE_SENTINEL m;
     COMMA_SENTINEL := COMMA_SENTINEL m;
     DQUOTE_SENTINEL := DQUOTE_SENTINEL m;
     next_newline := p;
     column_infos := column_infos m;
     current_row := current_row m;
     current_column := current_column m;
     current_state := current_state m;
     heap_blocks := heap_blocks m |}.

Definition set_column_infos (m : Machine) (cs : list ColumnInfo) : Machine :=
  {| input_buffer := input_buffer m;
     NEWLINE_SENTINEL := NEWLINE_SENTINEL m;
     COMMA_SENTINEL := COMMA_SENTINEL m;
     DQUOTE_SENTINEL := DQUOTE_SENTINEL m;
     next_newline := next_newline m;
     column_infos := cs;
     current_row := current_row m;
     current_column := current_column m;
     current_state := current_state m;
     heap_blocks := heap_blocks m |}.

Definition set_current_row (m : Machine) (r : N) : Machine :=
  {| input_buffer := input_buffer m;
     NEWLINE_SENTINEL := NEWLINE_SENTINEL m;
     COMMA_SENTINEL := COMMA_SENTINEL m;
     DQUOTE_SENTINEL := DQUOTE_SENTINEL m;
     next_newline := next_newline m;
     column_infos := column_infos m;
     current_row := r;
     current_column := current_column m;
     current_state := current_state m;
     heap_blocks := heap_blocks m |}.

Definition set_current_column (m : Machine) (c : N) : Machine :=
  {| input_buffer := input_buffer m;
     NEWLINE_SENTINEL := NEWLINE_SENTINEL m;
     COMMA_SENTINEL := COMMA_SENTINEL m;
     DQUOTE_SENTINEL := DQUOTE_SENTINEL m;
     next_newline := next_newline m;
     column_infos := column_infos m;
     current_row := current_row m;
     current_column := c;
     current_state := current_state m;
     heap_blocks := heap_blocks m |}.

Definition set_current_state (m : Machine) (s : CSVState) : Machine :=
  {| input_buffer := input_buffer m;
     NEWLINE_SENTINEL := NEWLINE_SENTINEL m;
     COMMA_SENTINEL := COMMA_SENTINEL m;
     DQUOTE_SENTINEL := DQUOTE_SENTINEL m;
     next_newline := next_newline m;
     column_infos := column_infos m;
     current_row := current_row m;
     current_column := current_column m;
     current_state := s;
     heap_blocks := heap_blocks m |}.

Definition set_heap_blocks (m : Machine) (n : N) : Machine :=
  {| input_buffer := input_buffer m;
     NEWLINE_SENTINEL := NEWLINE_SENTINEL m;
     COMMA_SENTINEL := COMMA_SENTINEL m;
     DQUOTE_SENTINEL := DQUOTE_SENTINEL m;
     next_newline := next_newline m;
     column_infos := column_infos m;
     current_row := current_row m;
     current_column := current_column m;
     current_state := current_state m;
     heap_blocks := n |}.

(** Where control goes after one pass through the [switch]. *)
Inductive Jump : Type :=
| state_begin (previous_ptr : N)
| read_chunk.

(** [column_infos.size()] *)
Definition size (cs : list ColumnInfo) : N := N.of_nat (length cs).

(** [f(column_infos[i])] for an [f] that takes the column by reference;
    [operator[]] outside the vector is undefined. *)
Definition on_column (m : Machine) (i : N)
  (f : ColumnInfo -> Result ColumnInfo) : Result Machine :=
  match nth_error (column_infos m) (N.to_nat i) with
  | Some column =>
      column' <- f column ;;
      Ok (set_column_infos m
            (firstn (N.to_nat i) (column_infos m) ++
             column' :: skipn (S (N.to_nat i)) (column_infos m)))
  | None => Fault
  end.

(** [f(column_infos[current_column++])] *)
Definition on_column_incr (m : Machine)
  (f : ColumnInfo -> Result ColumnInfo) : Result Machine :=
  m <- on_column m (current_column m) f ;;
  Ok (set_current_column m (size_add (current_column m) 1)).

(** [next_newline = rawmemchr(from, LF); if (next_newline != NEWLINE_SENTINEL)
    *next_newline = COMMA;] *)
Definition find_next_newline (m : Machine) (from : N) : Result Machine :=
  p <- rawmemchr (input_buffer m) from LF ;;
  let m := set_next_newline m p in
  if negb (p =? NEWLINE_SENTINEL m) then
    b <- store (input_buffer m) p COMMA ;;
    Ok (set_input_buffer m b)
  else Ok m.

(** [printf]-style [%03zu]: decimal, padded with zeros to three digits. *)
Definition sprintf_03zu (id : N) : string :=
  let digits := DecimalString.NilZero.string_of_uint (N.to_uint id) in
  let pad := (3 - String.length digits)%nat in
  String.append (string_of_list_ascii (repeat "0"%char pad)) digits.

(** [should_use_heap]: [rlim_cur] is what [getrlimit] reported, [None] when
    the call failed.  [required_stack] is a [static] of the function, set by
    its first call. *)
Definition should_use_heap (rlim_cur : option N) (required_stack : N)
  : bool :=
  match rlim_cur with
  | Some cur =>
      let available_stack := ((9 * cur) mod SIZE_MOD) / 10 in
      available_stack <? required_stack
  | None => true
  end.

Section Splitter.

(** The size of the input window and of every column buffer. *)
Variable BUFFER_SIZE : N.

(** The surroundings of the process: the stack limit, which output paths
    can be opened for writing, and the bytes found in memory that was
    just allocated. *)
Variable rlim_cur : option N.
Variable can_create : string -> bool.
Variable junk : N -> byte.

(** [ALLOCATE_BUFFER]: [sz] bytes from [malloc] or [alloca], not
    initialised. *)
Fixpoint fresh_bytes (n : nat) (at_offset : N) : list byte :=
  match n with
  | O => []
  | S n' => junk at_offset :: fresh_bytes n' (N.succ at_offset)
  end.

Definition ALLOCATE_BUFFER (sz : N) : list byte :=
  fresh_bytes (N.to_nat sz) 0.

(** The first call of [should_use_heap] is the one for the input buffer. *)
Definition required_stack : N := size_add BUFFER_SIZE 10.

Definition CREATE_COLUMN_INFO (fname : string) (id : N)
  : Result ColumnInfo :=
  let id_buffer := sprintf_03zu id in
  let p := String.append fname (String.append id_buffer ".csv") in
  if can_create p then
    Ok {| output_fd := {| path := p; written := [] |};
          buffer := ALLOCATE_BUFFER BUFFER_SIZE;
          buffer_size := BUFFER_SIZE;
          buffer_position := 0;
          on_heap := should_use_heap rlim_cur required_stack |}
  else Exit 1.

Definition CHECK_AND_CREATE_COLUMN (name : string) (m : Machine)
  : Result Machine :=
  if current_column m =? size (column_infos m) then
    (* the vector is resized first: [column_infos.size()] counts the new
       column *)
    let new_size := size_add (size (column_infos m)) 1 in
    info <- CREATE_COLUMN_INFO name new_size ;;
    let m := set_heap_blocks m
               (heap_blocks m + (if on_heap info then 1 else 0)) in
    info <- add_chars_to_column info LF (current_row m) ;;
    Ok (set_column_infos m (column_infos m ++ [info]))
  else Ok m.

(** The padding loop of [OnRowInitial]. *)
Fixpoint pad_row (fuel : nat) (m : Machine) : Result Machine :=
  if negb (current_column m =? size (column_infos m)) then
    match fuel with
    | O => OutOfFuel
    | S fuel' =>
        m <- on_column_incr m (fun c => add_chars_to_column c LF 1) ;;
        pad_row fuel' m
    end
  else Ok m.

(** [add_buffer_to_column(column_infos[current_column], previous_ptr,
    copy_size)] *)
Definition copy_field (m : Machine) (previous_ptr copy_size : N)
  : Result Machine :=
  on_column m (current_column m)
    (fun c => add_buffer_to_column c (drop previous_ptr (input_buffer m))
                                   copy_size).

Definition end_field (m : Machine) : Result Machine :=
  on_column_incr m (fun c => add_chars_to_column c LF 1).

(** [case OnColumnInitial] *)
Definition on_column_initial (name : string) (m : Machine)
  (previous_ptr : N) : Result (Machine * Jump) :=
  b <- load (input_buffer m) previous_ptr ;;
  if Byte.eqb b DQUOTE then
    m <- CHECK_AND_CREATE_COLUMN name m ;;
    m <- on_column m (current_column m)
           (fun c => add_chars_to_column c DQUOTE 1) ;;
    Ok (set_current_state m InQuotedStringColumn,
        state_begin (previous_ptr + 1))
  else if Byte.eqb b COMMA then
    m <- CHECK_AND_CREATE_COLUMN name m ;;
    if previous_ptr =? next_newline m then
      Ok (set_current_state m OnRowInitial, state_begin (previous_ptr + 1))
    else
      m <- end_field m ;;
      Ok (set_current_state m OnColumnInitial,
          state_begin (previous_ptr + 1))
  else if Byte.eqb b LF then
    assert false (Ok (m, state_begin previous_ptr))
  else
    m <- CHECK_AND_CREATE_COLUMN name m ;;
    Ok (set_current_state m InSimpleColumn, state_begin previous_ptr).

(** [case OnRowInitial], which falls through to [OnColumnInitial] *)
Definition on_row_initial (name : string) (m : Machine) (previous_ptr : N)
  : Result (Machine * Jump) :=
  m <- pad_row (S (length (column_infos m))) m ;;
  let m := set_current_column m 0 in
  let m := set_current_row m (size_add (current_row m) 1) in
  m <- find_next_newline m previous_ptr ;;
  on_column_initial name m previous_ptr.

(** [case InSimpleColumn] *)
Definition in_simple_column (m : Machine) (previous_ptr : N)
  : Result (Machine * Jump) :=
  next_column <- rawmemchr (input_buffer m) previous_ptr COMMA ;;
  if next_column =? COMMA_SENTINEL m then
    let copy_size := distance previous_ptr BUFFER_SIZE in
    m <- copy_field m previous_ptr copy_size ;;
    Ok (set_current_state m InSimpleColumn, read_chunk)
  else if next_column =? next_newline m then
    let copy_size := distance previous_ptr next_column in
    m <- copy_field m previous_ptr copy_size ;;
    m <- end_field m ;;
    Ok (set_current_state m OnRowInitial, state_begin (next_column + 1))
  else
    let copy_size := distance previous_ptr next_column in
    m <- copy_field m previous_ptr copy_size ;;
    m <- end_field m ;;
    Ok (set_current_state m OnColumnInitial, state_begin (next_column + 1)).

(** [case InQuotedStringColumnOnQuote]: the assertion comes first, the
    statements behind it are never reached. *)
Definition in_quoted_on_quote (m : Machine) (previous_ptr : N)
  : Result (Machine * Jump) :=
  assert false
    (b <- load (input_buffer m) previous_ptr ;;
     if Byte.eqb b DQUOTE then
       let m := set_current_state m InQuotedStringColumn in
       m <- on_column m (current_column m)
              (fun c => add_chars_to_column c DQUOTE 1) ;;
       Ok (m, state_begin (previous_ptr + 1))
     else if Byte.eqb b COMMA then
       let m := set_current_state m OnColumnInitial in
       m <- end_field m ;;
       Ok (m, state_begin (previous_ptr + 1))
     else
       assert false (Ok (m, state_begin previous_ptr))).

(** [if (next_ptr > next_newline) ...]: the scan for the quote went past
    the record separator that was turned into a field separator; it is
    turned back, and the next one behind the quote is looked for. *)
Definition scanned_past_newline (m : Machine) (next_ptr : N)
  : Result Machine :=
  if next_newline m <? next_ptr then
    b <- store (input_buffer m) (next_newline m) LF ;;
    let m := set_input_buffer m b in
    if next_ptr <? BUFFER_SIZE then
      find_next_newline m next_ptr
    else Ok m
  else Ok m.

(** [case InQuotedStringColumn]: the inner [while(true)], entered with
    [last_read]. *)
Fixpoint in_quoted_loop (fuel : nat) (m : Machine)
  (previous_ptr last_read : N) : Result (Machine * Jump) :=
  match fuel with
  | O => OutOfFuel
  | S fuel' =>
      next_ptr <- rawmemchr (input_buffer m) last_read DQUOTE ;;
      m <- scanned_past_newline m next_ptr ;;
      if next_ptr =? DQUOTE_SENTINEL m then
        let copy_size := distance previous_ptr BUFFER_SIZE in
        m <- copy_field m previous_ptr copy_size ;;
        Ok (set_current_state m InQuotedStringColumn, read_chunk)
      else if next_ptr =? size_sub BUFFER_SIZE 1 then
        let copy_size := distance previous_ptr BUFFER_SIZE in
        m <- copy_field m previous_ptr copy_size ;;
        Ok (set_current_state m InQuotedStringColumnOnQuote, read_chunk)
      else
        b <- load (input_buffer m) (next_ptr + 1) ;;
        if Byte.eqb b DQUOTE then
          in_quoted_loop fuel' m previous_ptr (next_ptr + 2)
        else if Byte.eqb b COMMA then
          let copy_size := distance previous_ptr (next_ptr + 1) in
          m <- copy_field m previous_ptr copy_size ;;
          m <- end_field m ;;
          let previous_ptr := next_ptr + 2 in
          if next_ptr + 1 =? next_newline m then
            m <- find_next_newline m (next_newline m + 1) ;;
            Ok (set_current_state m OnRowInitial, state_begin previous_ptr)
          else
            Ok (set_current_state m OnColumnInitial,
                state_begin previous_ptr)
        else
          let copy_size := distance previous_ptr (next_ptr + 1) in
          m <- copy_field m previous_ptr copy_size ;;
          Ok (set_current_state m InSimpleColumn,
              state_begin (next_ptr + 1))
  end.

Definition in_quoted_string_column (m : Machine) (previous_ptr : N)
  : Result (Machine * Jump) :=
  in_quoted_loop (S (length (input_buffer m))) m previous_ptr previous_ptr.

(** The [switch] on [current_state]. *)
Definition dispatch (name : string) (m : Machine) (previous_ptr : N)
  : Result (Machine * Jump) :=
  match current_state m with
  | OnRowInitial => on_row_initial name m previous_ptr
  | OnColumnInitial => on_column_initial name m previous_ptr
  | InSimpleColumn => in_simple_column m previous_ptr
  | InQuotedStringColumnOnQuote => in_quoted_on_quote m previous_ptr
  | InQuotedStringColumn => in_quoted_string_column m previous_ptr
  end.

(** The inner [while(true)]: from [state_begin] until [goto read_chunk]. *)
Fixpoint run_states (fuel : nat) (name : string) (m : Machine)
  (previous_ptr : N) : Result Machine :=
  if previous_ptr =? NEWLINE_SENTINEL m then Ok m
  else
    match fuel with
    | O => OutOfFuel
    | S fuel' =>
        '(m, j) <- dispatch name m previous_ptr ;;
        match j with
        | state_begin previous_ptr => run_states fuel' name m previous_ptr
        | read_chunk => Ok m
        end
    end.

(** [read(input_fd, input_buffer, BUFFER_SIZE)]: the bytes delivered and
    what is left of the stream; [None] is the return value -1. *)
Definition read (input : list ReadEvent) (count : N)
  : option (list byte * list ReadEvent) :=
  match input with
  | [] => Some ([], [])
  | ReadError :: _ => None
  | Data bytes :: rest =>
      if len bytes <=? count then Some (bytes, rest)
      else Some (take count bytes, Data (drop count bytes) :: rest)
  end.

(** A chunk of [bytes_total] > 0 bytes has been read into the buffer. *)
Definition process_chunk (name : string) (m : Machine) (bytes_total : N)
  : Result Machine :=
  m <- (if negb (bytes_total =? BUFFER_SIZE) then
          b <- store (input_buffer m) bytes_total LF ;;
          b <- store b (bytes_total + 1) COMMA ;;
          b <- store b (bytes_total + 2) DQUOTE ;;
          Ok (set_sentinels (set_input_buffer m b) bytes_total)
        else Ok m) ;;
  let previous_ptr := 0 in
  m <- (if negb (CSVState_eqb (current_state m) OnRowInitial) then
          find_next_newline m previous_ptr
        else Ok m) ;;
  run_states (S (2 * length (input_buffer m))) name m previous_ptr.

(** [read] returned 0: every column is flushed and its buffer is freed
    if it came from [malloc], then the input buffer is freed likewise. *)
Definition end_of_input (input_buffer_on_heap : bool) (m : Machine)
  : Machine :=
  let freed :=
    N.of_nat (length (filter on_heap (column_infos m)))
    + (if input_buffer_on_heap then 1 else 0) in
  set_heap_blocks
    (set_column_infos m (map flush_buffer (column_infos m)))
    (heap_blocks m - freed).

(** The outer [while(true)]. *)
Fixpoint read_loop (fuel : nat) (input_buffer_on_heap : bool)
  (name : string) (input : list ReadEvent)
  (m : Machine) : Result Machine :=
  match fuel with
  | O => OutOfFuel
  | S fuel' =>
      match read input BUFFER_SIZE with
      | None => Exit 1
      | Some (chunk, input) =>
          let bytes_total := len chunk in
          if bytes_total =? 0 then
            Ok (end_of_input input_buffer_on_heap m)
          else
            b <- memcpy (input_buffer m) 0 chunk bytes_total ;;
            m <- process_chunk name (set_input_buffer m b) bytes_total ;;
            read_loop fuel' input_buffer_on_heap name input m
      end
  end.

Definition stream_fuel (input : list ReadEvent) : nat :=
  fold_right (fun e n => match e with
                         | Data bytes => S (length bytes + n)%nat
                         | ReadError => S n
                         end) 1%nat input.

Definition split_csv (input : list ReadEvent) (name : string)
  : Result Machine :=
  let input_buffer_on_heap := should_use_heap rlim_cur required_stack in
  let input_buffer := ALLOCATE_BUFFER (size_add BUFFER_SIZE 10) in
  b <- store input_buffer BUFFER_SIZE LF ;;
  b <- store b (BUFFER_SIZE + 1) COMMA ;;
  b <- store b (BUFFER_SIZE + 2) DQUOTE ;;
  let m := {| input_buffer := b;
              NEWLINE_SENTINEL := BUFFER_SIZE;
              COMMA_SENTINEL := BUFFER_SIZE + 1;
              DQUOTE_SENTINEL := BUFFER_SIZE + 2;
              (* not initialised in the source; the first chunk assigns it
                 before it is used, since the first state is not
                 [OnRowInitial] *)
              next_newline := 0;
              column_infos := [];
              current_row := 0;
              current_column := 0;
              current_state := OnColumnInitial;
              heap_blocks := if input_buffer_on_heap then 1 else 0 |} in
  read_loop (stream_fuel input) input_buffer_on_heap name input m.

End Splitter.


(* ================================================================= *)
(** ** The driver *)

(** The value the source gives the window size.  The section above takes the
    size as a variable so that runs at different capacities can be compared;
    the program itself always runs at this one. *)
Definition BUFFER_SIZE : N := 16 * 1024.

(** The text of [print_help]. *)
Definition help : string :=
"split_csv - A tool for splitting csv into column files.

Syntax:
    ./split_csv [OPTIONS] <input_filename>

Decomposes a CSV consisting of several columns into a several files each 
containing a single column. The files themselves are in CSV format. Refer to
RFC 4180 for details on the format this program expects. Other formats may
result in unusual or incorrect behaviour. This program may be useful for
performing analysis on individual columns of a CSV file. Non-rectangular CSVs
are handled by outputting blank lines to the missing rows. The column files 
have the XXX.csv suffix.

Options:
    --help               Prints this message and exit before processing.
    --prefix=<name>      A prefix for the name of all the output files. The 
                         number of the column and '.csv' will be appended to 
                         give the complete filename. By default this is empty.
                         The program will fail if the prefix points to a 
                         non-existent directory.
Arguments:
    <input_filename>     The name of the input filename. Input can be read from
                         stdin by specifying -.
    <output_prefix>      
                         
Example usage:
  # Read a CSV file from stdin and save the output to the current directory 
    with the col prefix.
  ./split_csv --prefix=col -

  # Read a CSV file from stdin and save the output to the output_directory with
    the col prefix.
  ./split_csv --prefix=output_directory/col -
".

(** What a run of the program did. *)
Record Process : Type := {
  stdout : list string;              (* what was printed, in order *)
  opened : list string;              (* paths opened for reading *)
  split : option (Result Machine);   (* the call of [split_csv], if made *)
  status : Result N                  (* [Ok c]: [main] returned [c] *)
}.

(** The option loop of [main]: [Some prefix] when the loop runs to its end,
    [None] when it meets [--help]. *)
Fixpoint process_arguments (args : list string) (prefix : string)
  : option string :=
  match args with
  | [] => Some prefix
  | arg :: args' =>
      if String.eqb arg "--help" then None
      else if String.eqb (substring 0 9 arg) "--prefix=" then
        process_arguments args'
          (substring 9 (String.length arg - 9) arg)
      else process_arguments args' prefix
  end.

Section Main.

Variable rlim_cur : option N.
Variable can_create : string -> bool.
Variable junk : N -> byte.

(** What standard input delivers, and what a path opened for reading
    delivers ([None]: the path cannot be opened). *)
Variable stdin : list ReadEvent.
Variable open_input : string -> option (list ReadEvent).

(** The status of the process after [split_csv] came back: [main] then
    runs off its end, which is a return of 0. *)
Definition after_split (r : Result Machine) : Result N :=
  _ <- r ;; Ok 0.

Definition run_split (opened : list string) (input : list ReadEvent)
  (argv : list string) : Process :=
  (* arguments 1 .. argc - 2 *)
  let options := removelast (tl argv) in
  match process_arguments options "" with
  | None =>
      {| stdout := [help]; opened := opened; split := None;
         status := Ok 0 |}
  | Some prefix =>
      let r := split_csv BUFFER_SIZE rlim_cur can_create junk input prefix in
      {| stdout := []; opened := opened; split := Some r;
         status := after_split r |}
  end.

Definition main (argv : list string) : Process :=
  let argc := length argv in
  if Nat.eqb argc 1 then
    {| stdout := [help]; opened := []; split := None; status := Ok 1 |}
  else
    match nth_error argv (argc - 1) with
    | None =>
        (* [argv[argc - 1]] with [argc = 0] *)
        {| stdout := []; opened := []; split := None; status := Fault |}
    | Some input_filename =>
        if String.eqb input_filename "-" then
          run_split [] stdin argv
        else
          match open_input input_filename with
          | None =>
              {| stdout := []; opened := [input_filename]; split := None;
                 status := Exit 1 |}
          | Some input =>
              (* [posix_fadvise] is a hint to the system and changes
                 nothing that is read *)
              run_split [input_filename] input argv
          end
    end.

End Main.

(* ================================================================= *)
(** ** What a run leaves in the column files *)

(** Name and content of every column file after a run that came back. *)
Definition outputs (r : Result Machine) : Result (list (string * list byte)) :=
  m <- r ;;
  Ok (map (fun c => (path (output_fd c), written (output_fd c)))
          (column_infos m)).

(** Everything that went to a column: what was written to its file, then
    what still waits in its buffer. *)
Definition column_output (column : ColumnInfo) : list byte :=
  written (output_fd column) ++ take (buffer_position column) (buffer column).

(** The state every column is in between two calls of the sink. *)
Definition column_wf (column : ColumnInfo) : Prop :=
  len (buffer column) = buffer_size column /\
  buffer_position column <= buffer_size column /\
  0 < buffer_size column /\
  buffer_size column < SIZE_MOD.

(** Surroundings used to run the program on given inputs: every output path
    can be created, fresh memory holds zero bytes. *)
Definition any_path : string -> bool := fun _ => true.
Definition no_junk : N -> byte := fun _ => x00.

Definition bytes (s : string) : list byte := list_byte_of_string s.

(* ================================================================= *)
(** ** The format, as the specification words it *)

(** The doubled-quote escaping rule: a quoted field is its value with every
    double quote doubled, between two double quotes. *)
Definition escape (value : list byte) : list byte :=
  flat_map (fun b => if Byte.eqb b DQUOTE then [DQUOTE; DQUOTE] else [b])
           value.

Definition quote_field (value : list byte) : list byte :=
  DQUOTE :: escape value ++ [DQUOTE].

(** Decoding what follows the opening quote, up to the closing quote, which
    has to be the last byte. *)
Fixpoint unescape (body : list byte) : option (list byte) :=
  match body with
  | [] => None
  | b :: rest =>
      if Byte.eqb b DQUOTE then
        match rest with
        | [] => Some []
        | b' :: rest' =>
            if Byte.eqb b' DQUOTE
            then option_map (cons DQUOTE) (unescape rest')
            else None
        end
      else option_map (cons b) (unescape rest)
  end.

(** Decoding one field of a column file. *)
Definition decode_field (field : list byte) : option (list byte) :=
  match field with
  | b :: body => if Byte.eqb b DQUOTE then unescape body else Some field
  | [] => Some []
  end.

(** The number of fields of every record of a stream: field separators and
    record separators count outside quotes only; a last record needs no
    record separator. *)
Fixpoint field_counts (in_quotes pending : bool) (seen : nat)
  (stream : list byte) : list nat :=
  match stream with
  | [] => if pending then [S seen] else []
  | b :: rest =>
      if Byte.eqb b DQUOTE then field_counts (negb in_quotes) true seen rest
      else if in_quotes then field_counts true true seen rest
      else if Byte.eqb b COMMA then field_counts false true (S seen) rest
      else if Byte.eqb b LF then S seen :: field_counts false false 0 rest
      else field_counts false true seen rest
  end.

Definition fields_per_row (stream : list byte) : list nat :=
  field_counts false false 0 stream.

Definition max_fields (stream : list byte) : nat :=
  fold_right Nat.max 0%nat (fields_per_row stream).

(** The lines of a column file: the runs of bytes that a record separator
    ends (outside quotes). *)
Fixpoint lines_from (in_quotes : bool) (line : list byte)
  (content : list byte) : list (list byte) :=
  match content with
  | [] => []
  | b :: rest =>
      if Byte.eqb b DQUOTE then
        lines_from (negb in_quotes) (line ++ [b]) rest
      else if in_quotes then lines_from true (line ++ [b]) rest
      else if Byte.eqb b LF then line :: lines_from false [] rest
      else lines_from false (line ++ [b]) rest
  end.

Definition lines (content : list byte) : list (list byte) :=
  lines_from false [] content.

(* ================================================================= *)
(** ** Inputs the properties are looked at on *)

(** A column as [CREATE_COLUMN_INFO] makes it, before anything is added. *)
Definition fresh_column (junk : N -> byte) (p : string) : ColumnInfo :=
  {| output_fd := {| path := p; written := [] |};
     buffer := ALLOCATE_BUFFER junk BUFFER_SIZE;
     buffer_size := BUFFER_SIZE;
     buffer_position := 0;
     on_heap := false |}.

(** Three records; the first one ends with a quoted field. *)
Definition quoted_then_two_rows : list byte :=
  quote_field (bytes "a") ++ [LF] ++ bytes "b" ++ [LF] ++ bytes "c" ++ [LF].

(** A quoted field whose escaped quote pair lies across the end of the
    first window: the first quote of the pair is byte [BUFFER_SIZE - 1]. *)
Definition pair_across_windows : list byte :=
  quote_field (repeat "a"%byte (N.to_nat (BUFFER_SIZE - 2))
               ++ [DQUOTE] ++ bytes "b") ++ [LF].

(** Two records, the second one shorter. *)
Definition ragged_rows : list byte :=
  bytes "a,b" ++ [LF] ++ bytes "c" ++ [LF].

(** How many of the [copy_size] bytes asked for reach the column. *)
Definition fill_kept (column : ColumnInfo) (copy_size : N) : N :=
  if buffer_position column + copy_size <=? buffer_size column then copy_size
  else if buffer_size column <=? copy_size
       then copy_size mod buffer_size column
       else copy_size.

(** The machine as the first window of 3 bytes, a quote, [a] and a quote,
    leaves it, with the next window, a quote, [b] and a quote, read in. *)
Definition resumed_on_quote : Machine :=
  {| input_buffer := quote_field (bytes "b") ++ [LF; COMMA; DQUOTE]
                     ++ repeat x00 7;
     NEWLINE_SENTINEL := 3;
     COMMA_SENTINEL := 4;
     DQUOTE_SENTINEL := 5;
     next_newline := 3;
     column_infos :=
       [{| output_fd := {| path := "001.csv";
                           written := quote_field (bytes "a") |};
           buffer := quote_field (bytes "a");
           buffer_size := 3;
           buffer_position := 0;
           on_heap := true |}];
     current_row := 0;
     current_column := 0;
     current_state := InQuotedStringColumnOnQuote;
     heap_blocks := 2 |}.


(** The path of the column that is created when [i] columns exist. *)
Definition column_path (name : string) (i : nat) : string :=
  String.append name
    (String.append (sprintf_03zu (size_add (N.of_nat i) 1)) ".csv").

Definition column_paths (cs : list ColumnInfo) : list string :=
  map (fun c => path (output_fd c)) cs.

(** Every column of the vector has the path of its position. *)
Definition paths_ok (name : string) (cs : list ColumnInfo) : Prop :=
  column_paths cs = map (column_path name) (seq 0 (length cs)).

(** A finished run at a window of 8 bytes, for the stream [ragged_rows] and
    the prefix [out_]: the machine it leaves and its second column. *)
Definition ragged_machine : Machine :=
  Eval vm_compute in
    match split_csv 8 None any_path no_junk [Data ragged_rows] "out_" with
    | Ok m => m
    | _ => resumed_on_quote
    end.

Definition ragged_second_column : ColumnInfo :=
  Eval vm_compute in
    match nth_error (column_infos ragged_machine) 1 with
    | Some column => column
    | None => {| output_fd := {| path := ""; written := [] |};
                 buffer := []; buffer_size := 0; buffer_position := 0;
                 on_heap := false |}
    end.

(** The buffer with the byte at one offset replaced: what [store] leaves. *)
Definition set_byte (l : list byte) (i : N) (b : byte) : list byte :=
  take i l ++ b :: drop (i + 1) l.

(** [byte_at l i b]: the byte at offset [i] of [l] is [b]. *)
Definition byte_at (l : list byte) (i : N) (b : byte) : Prop :=
  nth_error l (N.to_nat i) = Some b.

(** [first_from c l p q]: [q] is the first offset at or behind [p] where
    [l] holds [c]. *)
Definition first_from (c : byte) (l : list byte) (p q : N) : Prop :=
  p <= q /\ byte_at l q c /\
  forall k, p <= k -> k < q -> ~ byte_at l k c.

(** The machine during one chunk of [n] bytes that is shorter than the
    window: the sentinels stand behind the chunk. *)
Definition machine_at (n : N) (buf : list byte) (nn : N)
  (cols : list ColumnInfo) (row col : N) (st : CSVState) (heap : N)
  : Machine :=
  {| input_buffer := buf;
     NEWLINE_SENTINEL := n;
     COMMA_SENTINEL := n + 1;
     DQUOTE_SENTINEL := n + 2;
     next_newline := nn;
     column_infos := cols;
     current_row := row;
     current_column := col;
     current_state := st;
     heap_blocks := heap |}.

(** The input buffer when the record that holds one quoted field has been
    read and the sentinels have been put behind it. *)
Definition record_buffer (value tail : list byte) : list byte :=
  (quote_field value ++ [LF]) ++ LF :: COMMA :: DQUOTE :: tail.

(* ================================================================= *)
(** ** Further notions the properties are stated with *)

(** A column with a buffer of four bytes, three of them pending. *)
Definition small_column : ColumnInfo :=
  {| output_fd := {| path := "001.csv"; written := bytes "x" |};
     buffer := bytes "abc" ++ [x00];
     buffer_size := 4;
     buffer_position := 3;
     on_heap := false |}.

(** Reading the number of a column file back from its digits. *)
Definition read_id (digits : string) : option N :=
  option_map N.of_uint (DecimalString.NilZero.uint_of_string digits).

(** A record made of one quoted field that is as long as the window: the
    closing quote is the last byte of the first window, the record
    separator the only byte of the second. *)
Definition closing_quote_at_window_end : list byte :=
  quote_field (repeat "a"%byte (N.to_nat (BUFFER_SIZE - 2))) ++ [LF].

(** One call of the sink on a column, which came back. *)
Definition sink_step (column column' : ColumnInfo) : Prop :=
  (exists chr copy_size,
      add_chars_to_column column chr copy_size = Ok column') \/
  (exists from_buffer copy_size,
      add_buffer_to_column column from_buffer copy_size = Ok column').


(** The columns [now] are the columns [before] after more calls of the
    sink and more creations: every column of [before] is still at its
    position, under its path, and what has gone to it since stands behind
    what had gone to it. *)
Definition grown (before now : list ColumnInfo) : Prop :=
  Forall column_wf now /\
  forall (i : nat) (c : ColumnInfo),
    nth_error before i = Some c ->
    exists c' later,
      nth_error now i = Some c' /\
      path (output_fd c') = path (output_fd c) /\
      column_output c' = column_output c ++ later.

(** A machine in the middle of a field, with a window of four bytes and one
    column that has three bytes pending, and the machine the run leaves
    when one more chunk comes, which ends the field and the record. *)
Definition pending_machine : Machine :=
  {| input_buffer := repeat x00 4 ++ [LF; COMMA; DQUOTE] ++ repeat x00 7;
     NEWLINE_SENTINEL := 4;
     COMMA_SENTINEL := 5;
     DQUOTE_SENTINEL := 6;
     next_newline := 4;
     column_infos := [small_column];
     current_row := 0;
     current_column := 0;
     current_state := InSimpleColumn;
     heap_blocks := 0 |}.

Definition pending_machine_end : Machine :=
  Eval vm_compute in
    match read_loop 4 None any_path no_junk 3 false ""
            [Data (bytes "de" ++ [LF])] pending_machine with
    | Ok m => m
    | _ => pending_machine
    end.

(* ================================================================= *)
(** ** Streams of plain fields *)



















(* ================================================================= *)
(** ** The machine on plain bytes, one byte at a time *)












(* ================================================================= *)
(** * Properties *)

(* ================================================================= *)
(** ** Lists as memory *)

Lemma len_app (l1 l2 : list byte) : len (l1 ++ l2) = len l1 + len l2.
Proof. unfold len. rewrite length_app. lia. Qed.

Lemma len_take (n : N) (l : list byte) : n <= len l -> len (take n l) = n.
Proof. unfold len, take. intros H. rewrite length_firstn. lia. Qed.

Lemma len_drop (n : N) (l : list byte) : len (drop n l) = len l - n.
Proof. unfold len, drop. rewrite length_skipn. lia. Qed.

Lemma len_repeat (c : byte) (n : N) : len (repeat c (N.to_nat n)) = n.
Proof. unfold len. rewrite repeat_length. lia. Qed.


Lemma take_0 (l : list byte) : take 0 l = [].
Proof. reflexivity. Qed.

Lemma take_app_len (l1 l2 : list byte) (n : N) :
  n = len l1 -> take n (l1 ++ l2) = l1.
Proof.
  intros ->. unfold take, len. rewrite Nat2N.id.
  rewrite firstn_app, Nat.sub_diag, firstn_all. simpl. apply app_nil_r.
Qed.

Lemma take_app_more (l1 l2 : list byte) (n k : N) :
  n = len l1 + k -> take n (l1 ++ l2) = l1 ++ take k l2.
Proof.
  intros ->. unfold take, len.
  rewrite firstn_app.
  replace (N.to_nat (N.of_nat (length l1) + k) - length l1)%nat
    with (N.to_nat k) by lia.
  rewrite firstn_all2 by lia. reflexivity.
Qed.

Lemma take_all (l : list byte) (n : N) : len l <= n -> take n l = l.
Proof. unfold take, len. intros H. apply firstn_all2. lia. Qed.

Lemma take_repeat_app (chr : byte) (n k : N) (rest : list byte) :
  k <= n ->
  take k (repeat chr (N.to_nat n) ++ rest) = repeat chr (N.to_nat k).
Proof.
  intros H.
  replace (N.to_nat n) with (N.to_nat k + N.to_nat (n - k))%nat by lia.
  rewrite repeat_app, <- app_assoc.
  apply take_app_len. symmetry. apply len_repeat.
Qed.

Lemma size_add_small (a b : N) : a + b < SIZE_MOD -> size_add a b = a + b.
Proof. intros H. unfold size_add. apply N.mod_small. exact H. Qed.

Lemma size_sub_small (a b : N) :
  b <= a -> a < SIZE_MOD -> size_sub a b = a - b.
Proof.
  intros Hba Ha. unfold size_sub.
  rewrite (N.mod_small b) by lia.
  replace (a + SIZE_MOD - b) with ((a - b) + 1 * SIZE_MOD) by lia.
  rewrite N.Div0.mod_add. apply N.mod_small. lia.
Qed.

Lemma memset_fits (dst : list byte) (off : N) (chr : byte) (n : N) :
  off + n <= len dst ->
  memset dst off chr n =
    Ok (take off dst ++ repeat chr (N.to_nat n) ++ drop (off + n) dst).
Proof.
  intros H. unfold memset.
  destruct (N.leb_spec (off + n) (len dst)); [reflexivity | lia].
Qed.

Lemma len_memset (dst : list byte) (off : N) (chr : byte) (n : N) :
  off + n <= len dst ->
  len (take off dst ++ repeat chr (N.to_nat n) ++ drop (off + n) dst)
  = len dst.
Proof.
  intros H. rewrite !len_app, len_take, len_repeat, len_drop by lia. lia.
Qed.

(* ================================================================= *)
(** ** The column sink: what [add_chars_to_column] appends *)

Lemma flush_buffer_output (column : ColumnInfo) :
  column_output (flush_buffer column) = column_output column.
Proof.
  unfold column_output, flush_buffer, write. simpl.
  rewrite take_0. apply app_nil_r.
Qed.

Lemma flush_buffer_at_0 (column : ColumnInfo) :
  buffer_position column = 0 -> flush_buffer column = column.
Proof.
  destruct column as [[p w] b s pos h]. simpl. intros ->.
  unfold flush_buffer, write. simpl. rewrite take_0, app_nil_r. reflexivity.
Qed.

Lemma flush_buffer_wf (column : ColumnInfo) :
  column_wf column -> column_wf (flush_buffer column).
Proof.
  unfold column_wf, flush_buffer.
  cbn [buffer buffer_size buffer_position]. intros (H1 & H2 & H3 & H4).
  split; [assumption|]. split; [lia|]. split; assumption.
Qed.

(** With the position at 0 the loop of [add_chars_to_column] writes nothing:
    it only reduces [copy_size] modulo the buffer size. *)
Lemma add_chars_loop_at_0 (fuel : nat) (column : ColumnInfo) (copy_size : N) :
  buffer_position column = 0 ->
  0 < buffer_size column ->
  (N.to_nat (copy_size / buffer_size column) < fuel)%nat ->
  add_chars_loop fuel column copy_size
  = Ok (column, copy_size mod buffer_size column).
Proof.
  intros Hpos Hsize. revert copy_size.
  induction fuel as [|fuel IH]; intros copy_size Hfuel.
  - exfalso. exact (Nat.nlt_0_r _ Hfuel).
  - simpl. destruct (N.leb_spec (buffer_size column) copy_size) as [Hle|Hlt].
    + rewrite (flush_buffer_at_0 column Hpos).
      assert (Hsplit : copy_size
                = (copy_size - buffer_size column) + 1 * buffer_size column)
        by lia.
      assert (Hdiv : copy_size / buffer_size column
                = (copy_size - buffer_size column) / buffer_size column + 1).
      { rewrite Hsplit at 1. apply N.div_add. lia. }
      assert (Hmod : copy_size mod buffer_size column
                = (copy_size - buffer_size column) mod buffer_size column).
      { rewrite Hsplit at 1. apply N.Div0.mod_add. }
      rewrite Hmod. apply IH.
      rewrite Hdiv in Hfuel.
      set (q := (copy_size - buffer_size column) / buffer_size column) in *.
      clearbody q. lia.
    + rewrite N.mod_small by lia. reflexivity.
Qed.

(** [add_chars_to_column] in full: the call comes back, and the column grows
    by [fill_kept] copies of the byte.  When the fill does not fit behind the
    pending bytes and is at least one buffer long, only the remainder modulo
    the buffer size is kept. *)
Lemma add_chars_to_column_keeps (column : ColumnInfo) (chr : byte)
  (copy_size : N) :
  column_wf column ->
  buffer_position column + copy_size < SIZE_MOD ->
  exists column',
    add_chars_to_column column chr copy_size = Ok column' /\
    column_output column' =
      column_output column
      ++ repeat chr (N.to_nat (fill_kept column copy_size)) /\
    column_wf column' /\
    path (output_fd column') = path (output_fd column) /\
    buffer_size column' = buffer_size column.
Proof.
  intros (Hlen & Hpos & Hsize & Hmax) Hsum.
  unfold add_chars_to_column, fill_kept.
  rewrite size_add_small by exact Hsum.
  destruct (N.leb_spec (buffer_position column + copy_size)
                       (buffer_size column)) as [Hfit|Hbig].
  - rewrite memset_fits by lia. cbn [bind].
    eexists. split; [reflexivity|].
    split; [|split].
    + unfold column_output.
      cbn [buffer buffer_position output_fd set_position set_buffer].
      rewrite (app_assoc (take _ _)).
      rewrite (take_app_len (take _ _ ++ repeat _ _)).
      * apply app_assoc.
      * rewrite len_app, len_take, len_repeat by lia. reflexivity.
    + unfold column_wf.
      cbn [buffer buffer_position buffer_size set_position set_buffer].
      rewrite len_memset by lia.
      split; [assumption|]. split; [lia|]. split; assumption.
    + split; reflexivity.
  - set (column1 := if negb (buffer_position column =? 0)
                    then flush_buffer column else column).
    assert (H1 : buffer_position column1 = 0 /\
                 buffer column1 = buffer column /\
                 buffer_size column1 = buffer_size column /\
                 column_output column1 = column_output column /\
                 path (output_fd column1) = path (output_fd column) /\
                 take 0 (buffer column1) = []).
    { subst column1.
      destruct (N.eqb_spec (buffer_position column) 0) as [E|E];
        cbn [negb].
      - repeat split; auto.
      - repeat split; auto using flush_buffer_output. }
    destruct H1 as (P1 & B1 & S1 & O1 & F1 & _).
    rewrite S1, B1.
    destruct (N.leb_spec (buffer_size column) copy_size) as [Hle|Hlt].
    + rewrite memset_fits by lia. cbn [bind].
      rewrite add_chars_loop_at_0;
        [ | exact P1 | cbn [buffer_size set_buffer]; lia
          | cbn [buffer_size set_buffer]; lia ].
      cbn [bind buffer_size set_buffer].
      eexists. split; [reflexivity|].
      assert (Hm : copy_size mod buffer_size column1 < buffer_size column1)
        by (apply N.mod_lt; lia).
      rewrite S1 in *.
      split; [|split].
      * rewrite <- O1. unfold column_output.
        cbn [buffer buffer_position output_fd set_position set_buffer].
        rewrite P1, !take_0, app_nil_r.
        cbn [app]. rewrite take_repeat_app by lia. reflexivity.
      * unfold column_wf.
        cbn [buffer buffer_position buffer_size set_position set_buffer].
        rewrite S1, len_memset by lia.
        split; [assumption|]. split; [lia|]. split; assumption.
      * split; [exact F1|].
        cbn [buffer_size set_position set_buffer]. exact S1.
    + rewrite memset_fits by lia. cbn [bind].
      eexists. split; [reflexivity|].
      split; [|split].
      * rewrite <- O1. unfold column_output.
        cbn [buffer buffer_position output_fd set_position set_buffer].
        rewrite P1, !take_0, app_nil_r.
        cbn [app]. rewrite take_repeat_app by lia. reflexivity.
      * unfold column_wf.
        cbn [buffer buffer_position buffer_size set_position set_buffer].
        rewrite S1, len_memset by lia.
        split; [assumption|]. split; [lia|]. split; assumption.
      * split; [exact F1|].
        cbn [buffer_size set_position set_buffer]. exact S1.
Qed.

Lemma length_fresh_bytes (junk : N -> byte) (n : nat) (at_offset : N) :
  length (fresh_bytes junk n at_offset) = n.
Proof.
  revert at_offset. induction n as [|n IH]; intros at_offset;
    cbn [fresh_bytes length]; [reflexivity|].
  rewrite IH. reflexivity.
Qed.

Lemma len_ALLOCATE_BUFFER (junk : N -> byte) (sz : N) :
  len (ALLOCATE_BUFFER junk sz) = sz.
Proof.
  unfold len, ALLOCATE_BUFFER. rewrite length_fresh_bytes. apply N2Nat.id.
Qed.

Lemma fresh_column_wf (junk : N -> byte) (p : string) :
  column_wf (fresh_column junk p).
Proof.
  unfold column_wf. cbn [fresh_column buffer buffer_size buffer_position].
  rewrite len_ALLOCATE_BUFFER. unfold BUFFER_SIZE, SIZE_MOD.
  split; [reflexivity|]. split; [lia|]. split; reflexivity.
Qed.

(** C2 (the code departs from it): a fill that does not fit behind the
    pending bytes and is at least one buffer long is not appended in full.
    On a column just created, which is how [CHECK_AND_CREATE_COLUMN] calls
    it, a fill of [BUFFER_SIZE + 1] record separators leaves a single one. *)
Theorem add_chars_to_column_loses_fill :
  forall (junk : N -> byte) (p : string),
  exists column',
    add_chars_to_column (fresh_column junk p) LF (BUFFER_SIZE + 1)
      = Ok column' /\
    column_output column' = [LF] /\
    column_output column' <> repeat LF (N.to_nat (BUFFER_SIZE + 1)).
Proof.
  intros junk p.
  destruct (add_chars_to_column_keeps (fresh_column junk p) LF
              (BUFFER_SIZE + 1) (fresh_column_wf junk p))
    as (column' & Hrun & Hout & _).
  { vm_compute. reflexivity. }
  exists column'. split; [exact Hrun|].
  assert (Hone : column_output column' = [LF]).
  { rewrite Hout. reflexivity. }
  split; [exact Hone|].
  rewrite Hone. intros E. apply (f_equal (@length byte)) in E.
  rewrite repeat_length in E. unfold BUFFER_SIZE in E.
  cbn [length] in E. lia.
Qed.

(* ================================================================= *)
(** ** Runs of the program on given streams *)

(** C4 (the code departs from it): the padding of a short record is done by
    [OnRowInitial], and that case is only entered when more bytes follow.
    For the stream of two records [a,b] and [c] the input ends behind the
    second record separator, so the second column is never padded: its file
    has one line for two records. *)
Theorem last_row_not_padded :
  forall (rlim_cur : option N) (junk : N -> byte),
    outputs (split_csv BUFFER_SIZE rlim_cur any_path junk
               [Data ragged_rows] "")
    = Ok [("001.csv"%string, bytes "a" ++ [LF] ++ bytes "c" ++ [LF]);
          ("002.csv"%string, bytes "b" ++ [LF])] /\
    fields_per_row ragged_rows = [2; 1]%nat /\
    length (lines (bytes "b" ++ [LF])) = 1%nat.
Proof.
  intros rlim_cur junk. split; [|split]; vm_compute; reflexivity.
Qed.

(** C5 (the code departs from it): behind a record that ends with a quoted
    field the position of the next record separator is computed twice, so
    the two records that follow are taken for one.  No record of
    [quoted_then_two_rows] has more than one field, and two column files
    are created. *)
Theorem extra_column_after_quoted_row :
  forall (rlim_cur : option N) (junk : N -> byte),
    outputs (split_csv BUFFER_SIZE rlim_cur any_path junk
               [Data quoted_then_two_rows] "")
    = Ok [("001.csv"%string, quote_field (bytes "a") ++ [LF]
                             ++ bytes "b" ++ [LF]);
          ("002.csv"%string, [LF] ++ bytes "c" ++ [LF])] /\
    max_fields quoted_then_two_rows = 1%nat.
Proof.
  intros rlim_cur junk. split; vm_compute; reflexivity.
Qed.

(** C1 (the code departs from it): the same stream gives different column
    files when it reaches the machine in different chunks.  Delivered whole
    in one window of [BUFFER_SIZE] bytes, [quoted_then_two_rows] gives two
    files; delivered by two calls of [read], its first record and then the
    rest, it gives one; read in windows of 4 bytes, so that the first window
    again ends behind the first record, it gives one. *)
Theorem read_boundaries_change_output :
  forall (rlim_cur : option N) (junk : N -> byte),
    outputs (split_csv BUFFER_SIZE rlim_cur any_path junk
               [Data quoted_then_two_rows] "")
    = Ok [("001.csv"%string, quote_field (bytes "a") ++ [LF]
                             ++ bytes "b" ++ [LF]);
          ("002.csv"%string, [LF] ++ bytes "c" ++ [LF])] /\
    outputs (split_csv BUFFER_SIZE rlim_cur any_path junk
               [Data (quote_field (bytes "a") ++ [LF]);
                Data (bytes "b" ++ [LF] ++ bytes "c" ++ [LF])] "")
    = Ok [("001.csv"%string, quoted_then_two_rows)] /\
    outputs (split_csv 4 rlim_cur any_path junk
               [Data quoted_then_two_rows] "")
    = Ok [("001.csv"%string, quoted_then_two_rows)] /\
    quote_field (bytes "a") ++ [LF] ++ bytes "b" ++ [LF] ++ bytes "c" ++ [LF]
    = quoted_then_two_rows.
Proof.
  intros rlim_cur junk. split; [|split; [|split]]; vm_compute; reflexivity.
Qed.

(** The same at the level of the window size: with a window of 3 bytes the
    first quote of the escaped pair is the last byte of the first window and
    the run stops on the assertion; with a window of 100 bytes the stream is
    split into its one column. *)
Lemma window_size_changes_outcome :
  let stream := quote_field (bytes "a" ++ [DQUOTE] ++ bytes "b") ++ [LF] in
  outputs (split_csv 3 None any_path no_junk [Data stream] "") = Abort /\
  outputs (split_csv 100 None any_path no_junk [Data stream] "")
  = Ok [("001.csv"%string, stream)].
Proof. split; vm_compute; reflexivity. Qed.

(** C3 (the code departs from it): the case [InQuotedStringColumnOnQuote]
    starts with an assertion that always fails, in front of the statements
    that do what the property says.  [pair_across_windows] is a quoted field
    whose escaped quote pair lies across the end of the first window.  After
    the first window the machine is in [InQuotedStringColumnOnQuote], the
    next window starts with the second quote of the pair, and the run does
    not go on in [InQuotedStringColumn] with a quote added to the field: it
    stops on the assertion. *)
Lemma resume_on_quote_aborts_on_pair :
  (exists m,
      split_csv BUFFER_SIZE None any_path no_junk
        [Data (take BUFFER_SIZE pair_across_windows)] "" = Ok m /\
      current_state m = InQuotedStringColumnOnQuote) /\
  nth_error pair_across_windows (N.to_nat BUFFER_SIZE) = Some DQUOTE /\
  split_csv BUFFER_SIZE None any_path no_junk [Data pair_across_windows] ""
  = Abort.
Proof.
  split; [|split].
  - eexists. split; [vm_compute; reflexivity|]. reflexivity.
  - vm_compute. reflexivity.
  - vm_compute. reflexivity.
Qed.

(** C7 (the code departs from it): in the last chunk, which is shorter than
    the window, the copy of an unfinished field still runs up to
    [BUFFER_SIZE].  For the stream [ab] the column receives the two bytes,
    the three sentinels and the bytes that lay in the buffer behind
    them. *)
Theorem short_chunk_copies_past_valid_bytes :
  forall (rlim_cur : option N) (junk : N -> byte),
    outputs (split_csv BUFFER_SIZE rlim_cur any_path junk
               [Data (bytes "ab")] "")
    = Ok [("001.csv"%string,
           bytes "ab" ++ [LF; COMMA; DQUOTE]
           ++ fresh_bytes junk (N.to_nat (BUFFER_SIZE - 5)) 5)].
Proof.
  intros rlim_cur junk. vm_compute. reflexivity.
Qed.

(** C8, as stated, fails: the first column of a run with an empty prefix is
    written to [001.csv], not to [000.csv]. *)
Lemma first_column_file_is_001 :
  outputs (split_csv BUFFER_SIZE None any_path no_junk
             [Data (bytes "a" ++ [LF])] "")
  = Ok [("001.csv"%string, bytes "a" ++ [LF])] /\
  "001.csv"%string <> "000.csv"%string.
Proof.
  split; [vm_compute; reflexivity | discriminate].
Qed.

(** C6 (the code departs from it): a quoted field is not always written to
    its column as it stands.  [closing_quote_at_window_end] is a file of
    one record made of one quoted field whose closing quote is the last
    byte of the first window: the run stops on the assertion at the head of
    the case [InQuotedStringColumnOnQuote] and no column file holds the
    field.  The field of the specification, coming from a pipe in two
    pieces of which the first ends inside the field, is not kept either:
    the copy of the unfinished field runs up to [BUFFER_SIZE], so the
    sentinels and the bytes that lay in the buffer behind them stand in the
    middle of the field in the column file. *)
Theorem quoted_field_not_preserved :
  (forall (rlim_cur : option N) (junk : N -> byte),
      outputs (split_csv BUFFER_SIZE rlim_cur any_path junk
                 [Data closing_quote_at_window_end] "") = Abort) /\
  nth_error closing_quote_at_window_end (N.to_nat (BUFFER_SIZE - 1))
  = Some DQUOTE /\
  len closing_quote_at_window_end = BUFFER_SIZE + 1 /\
  decode_field (removelast closing_quote_at_window_end)
  = Some (repeat "a"%byte (N.to_nat (BUFFER_SIZE - 2))) /\
  outputs (split_csv BUFFER_SIZE None any_path no_junk
             [Data ([DQUOTE] ++ bytes "a,b");
              Data ([DQUOTE; DQUOTE] ++ bytes "c" ++ [DQUOTE; LF])] "")
  = Ok [("001.csv"%string,
         [DQUOTE] ++ bytes "a,b" ++ [LF; COMMA; DQUOTE]
         ++ repeat x00 (N.to_nat (BUFFER_SIZE - 7))
         ++ [DQUOTE; DQUOTE] ++ bytes "c" ++ [DQUOTE; LF])] /\
  ([DQUOTE] ++ bytes "a,b") ++ [DQUOTE; DQUOTE] ++ bytes "c" ++ [DQUOTE]
  = quote_field (bytes "a,b" ++ [DQUOTE] ++ bytes "c").
Proof.
  split; [intros rlim_cur junk; vm_compute; reflexivity|].
  split; [vm_compute; reflexivity|].
  split; [vm_compute; reflexivity|].
  split; [vm_compute; reflexivity|].
  split; vm_compute; reflexivity.
Qed.

(** The field of the specification in a record of its own, in a file that
    holds nothing else: the record is copied to the column file as it
    stands, and the line decodes to the value. *)
Lemma quoted_field_example :
  forall (rlim_cur : option N) (junk : N -> byte),
    let value := bytes "a,b" ++ [DQUOTE] ++ bytes "c" in
    outputs (split_csv BUFFER_SIZE rlim_cur any_path junk
               [Data (quote_field value ++ [LF])] "")
    = Ok [("001.csv"%string, quote_field value ++ [LF])] /\
    quote_field value
    = [DQUOTE] ++ bytes "a,b" ++ [DQUOTE; DQUOTE] ++ bytes "c" ++ [DQUOTE] /\
    lines (quote_field value ++ [LF]) = [quote_field value] /\
    decode_field (quote_field value) = Some value.
Proof.
  intros rlim_cur junk. repeat split; vm_compute; reflexivity.
Qed.

(** C9 (the code departs from it): the last argument is always taken for the
    input path and is opened before the options are looked at, and the
    option loop stops before the last argument.  Called with [--help] alone
    the program does not print the usage text: it tries to open a file of
    that name. *)
Theorem help_alone_is_taken_for_input :
  forall (rlim_cur : option N) (junk : N -> byte) (stdin : list ReadEvent),
    (* no file is called --help *)
    main rlim_cur any_path junk stdin (fun _ => None)
         ["split_csv"; "--help"]%string
    = {| stdout := []; opened := ["--help"%string]; split := None;
         status := Exit 1 |} /\
    (* a file is called --help: it is split *)
    main rlim_cur any_path junk stdin
         (fun p => if String.eqb p "--help" then Some [Data ragged_rows]
                   else None)
         ["split_csv"; "--help"]%string
    = {| stdout := []; opened := ["--help"%string];
         split := Some (split_csv BUFFER_SIZE rlim_cur any_path junk
                          [Data ragged_rows] "");
         status := after_split
                     (split_csv BUFFER_SIZE rlim_cur any_path junk
                        [Data ragged_rows] "") |}.
Proof.
  intros rlim_cur junk stdin. split; reflexivity.
Qed.

(* ================================================================= *)
(** ** Resuming behind a quote *)

(** [resumed_on_quote] is what the run on a stream that starts with these
    two windows reaches. *)
Lemma resumed_on_quote_reached :
  exists m b,
    process_chunk 3 None any_path no_junk ""
      {| input_buffer := quote_field (bytes "a") ++ [LF; COMMA; DQUOTE]
                         ++ repeat x00 7;
         NEWLINE_SENTINEL := 3; COMMA_SENTINEL := 4; DQUOTE_SENTINEL := 5;
         next_newline := 0; column_infos := [];
         current_row := 0; current_column := 0;
         current_state := OnColumnInitial; heap_blocks := 1 |} 3 = Ok m /\
    memcpy (input_buffer m) 0 (quote_field (bytes "b")) 3 = Ok b /\
    set_input_buffer m b = resumed_on_quote.
Proof.
  eexists. eexists. split; [vm_compute; reflexivity|].
  split; vm_compute; reflexivity.
Qed.

(** The same for every machine: when it resumes in
    [InQuotedStringColumnOnQuote] and the new window holds a byte, the run
    stops on the assertion at the head of that case, whatever the byte is:
    a quote, a field separator or anything else. *)
Theorem resume_on_quote_aborts :
  forall (C : N) (rlim_cur : option N) (can_create : string -> bool)
         (junk : N -> byte) (fuel : nat) (name : string) (m : Machine)
         (previous_ptr : N),
    current_state m = InQuotedStringColumnOnQuote ->
    previous_ptr <> NEWLINE_SENTINEL m ->
    dispatch C rlim_cur can_create junk name m previous_ptr = Abort /\
    run_states C rlim_cur can_create junk (S fuel) name m previous_ptr
    = Abort.
Proof.
  intros C rlim_cur can_create junk fuel name m previous_ptr Hstate Hptr.
  assert (Hd : dispatch C rlim_cur can_create junk name m previous_ptr
               = Abort).
  { unfold dispatch. rewrite Hstate. reflexivity. }
  split; [exact Hd|].
  cbn [run_states].
  destruct (N.eqb_spec previous_ptr (NEWLINE_SENTINEL m)) as [E|_];
    [contradiction|].
  rewrite Hd. reflexivity.
Qed.

Lemma resume_on_quote_aborts_witness :
  current_state resumed_on_quote = InQuotedStringColumnOnQuote /\
  0 <> NEWLINE_SENTINEL resumed_on_quote /\
  load (input_buffer resumed_on_quote) 0 = Ok DQUOTE /\
  run_states 3 None any_path no_junk 1 "" resumed_on_quote 0 = Abort.
Proof.
  split; [reflexivity|]. split; [discriminate|]. split; [reflexivity|].
  apply (resume_on_quote_aborts 3 None any_path no_junk 0 ""
           resumed_on_quote 0); [reflexivity | discriminate].
Defined.

(* ================================================================= *)
(** ** Empty input *)

Lemma store_in_bounds (buf : list byte) (off : N) (b : byte) :
  off < len buf ->
  store buf off b = Ok (take off buf ++ b :: drop (off + 1) buf).
Proof.
  intros H. unfold store.
  destruct (N.ltb_spec off (len buf)); [reflexivity | lia].
Qed.

Lemma len_store (buf : list byte) (off : N) (b : byte) :
  off < len buf ->
  len (take off buf ++ b :: drop (off + 1) buf) = len buf.
Proof.
  intros H. rewrite len_app, len_take by lia.
  change (b :: drop (off + 1) buf) with ([b] ++ drop (off + 1) buf).
  rewrite len_app, len_drop. change (len [b]) with 1. lia.
Qed.

Lemma stream_fuel_pos (input : list ReadEvent) :
  exists fuel, stream_fuel input = S fuel.
Proof.
  destruct input as [|[chunk|] input]; cbn [stream_fuel fold_right];
    eexists; reflexivity.
Qed.

(** When the first [read] returns 0, [split_csv] comes back with no column
    and with nothing left on the heap. *)
Lemma split_csv_first_read_empty (C : N) (rlim_cur : option N)
  (can_create : string -> bool) (junk : N -> byte)
  (input rest : list ReadEvent) (name : string) :
  C + 10 < SIZE_MOD ->
  read input C = Some ([], rest) ->
  exists m,
    split_csv C rlim_cur can_create junk input name = Ok m /\
    column_infos m = [] /\
    heap_blocks m = 0.
Proof.
  intros HC Hread. unfold split_csv.
  rewrite size_add_small by exact HC.
  pose proof (len_ALLOCATE_BUFFER junk (C + 10)) as H0.
  revert H0. generalize (ALLOCATE_BUFFER junk (C + 10)). intros b0 H0.
  rewrite store_in_bounds by lia. cbn [bind].
  pose proof (len_store b0 C LF ltac:(lia)) as H1. rewrite H0 in H1.
  revert H1. generalize (take C b0 ++ LF :: drop (C + 1) b0). intros b1 H1.
  rewrite store_in_bounds by lia. cbn [bind].
  pose proof (len_store b1 (C + 1) COMMA ltac:(lia)) as H2.
  rewrite H1 in H2.
  revert H2.
  generalize (take (C + 1) b1 ++ COMMA :: drop (C + 1 + 1) b1).
  intros b2 H2.
  rewrite store_in_bounds by lia. cbn [bind].
  destruct (stream_fuel_pos input) as (fuel & ->).
  cbn [read_loop]. rewrite Hread.
  change (len [] =? 0) with true. cbv iota.
  eexists. split; [reflexivity|].
  unfold end_of_input.
  cbn [column_infos heap_blocks set_heap_blocks set_column_infos map filter
       length].
  split; [reflexivity|].
  destruct (should_use_heap rlim_cur (required_stack C)); reflexivity.
Qed.

(** C10: when the input can be opened, no option is [--help] and the first
    [read] returns 0, the program creates no column file, leaves nothing on
    the heap, prints nothing and returns 0. *)
Theorem empty_input_clean_exit :
  forall (rlim_cur : option N) (can_create : string -> bool)
         (junk : N -> byte) (stdin : list ReadEvent)
         (open_input : string -> option (list ReadEvent))
         (argv : list string) (input_filename prefix : string)
         (input rest : list ReadEvent),
    (1 < length argv)%nat ->
    nth_error argv (length argv - 1) = Some input_filename ->
    process_arguments (removelast (tl argv)) "" = Some prefix ->
    (if String.eqb input_filename "-" then Some stdin
     else open_input input_filename) = Some input ->
    read input BUFFER_SIZE = Some ([], rest) ->
    exists m,
      split (main rlim_cur can_create junk stdin open_input argv)
        = Some (Ok m) /\
      column_infos m = [] /\
      outputs (Ok m) = Ok [] /\
      heap_blocks m = 0 /\
      stdout (main rlim_cur can_create junk stdin open_input argv) = [] /\
      status (main rlim_cur can_create junk stdin open_input argv) = Ok 0.
Proof.
  intros rlim_cur can_create junk stdin open_input argv input_filename
         prefix input rest Hargc Hlast Hopts Hopen Hread.
  destruct (split_csv_first_read_empty BUFFER_SIZE rlim_cur can_create junk
              input rest prefix) as (m & Hrun & Hcols & Hheap).
  { vm_compute. reflexivity. }
  { exact Hread. }
  exists m. unfold main.
  destruct (Nat.eqb_spec (length argv) 1) as [E|_]; [lia|].
  rewrite Hlast.
  assert (Hsplit : run_split rlim_cur can_create junk
                     (if String.eqb input_filename "-" then []
                      else [input_filename]) input argv
                   = {| stdout := [];
                        opened := if String.eqb input_filename "-" then []
                                  else [input_filename];
                        split := Some (Ok m);
                        status := Ok 0 |}).
  { unfold run_split. rewrite Hopts, Hrun. reflexivity. }
  destruct (String.eqb input_filename "-").
  - injection Hopen as ->. rewrite Hsplit. cbn [split stdout status].
    unfold outputs. cbn [bind]. rewrite Hcols.
    repeat split; assumption || reflexivity.
  - rewrite Hopen, Hsplit. cbn [split stdout status].
    unfold outputs. cbn [bind]. rewrite Hcols.
    repeat split; assumption || reflexivity.
Qed.

Lemma empty_input_clean_exit_witness :
  exists m,
    split (main None any_path no_junk [] (fun _ => None)
             ["split_csv"; "--prefix=col"; "-"]%string)
      = Some (Ok m) /\
    column_infos m = [] /\
    outputs (Ok m) = Ok [] /\
    heap_blocks m = 0 /\
    stdout (main None any_path no_junk [] (fun _ => None)
              ["split_csv"; "--prefix=col"; "-"]%string) = [] /\
    status (main None any_path no_junk [] (fun _ => None)
              ["split_csv"; "--prefix=col"; "-"]%string) = Ok 0.
Proof.
  apply (empty_input_clean_exit None any_path no_junk [] (fun _ => None)
           ["split_csv"; "--prefix=col"; "-"]%string "-"%string
           "col"%string [] []).
  - cbn [length]. lia.
  - reflexivity.
  - reflexivity.
  - reflexivity.
  - reflexivity.
Defined.

(* ================================================================= *)
(** ** The names of the column files *)

(** Taking apart a hypothesis that says a sequence of steps came back. *)
Ltac came_back :=
  repeat match goal with
  | H : Ok _ = Ok _ |- _ => injection H as H; subst
  | H : (_, _) = (_, _) |- _ => injection H as H; subst
  | H : Exit _ = Ok _ |- _ => discriminate H
  | H : Abort = Ok _ |- _ => discriminate H
  | H : Fault = Ok _ |- _ => discriminate H
  | H : OutOfFuel = Ok _ |- _ => discriminate H
  | H : assert false _ = Ok _ |- _ => discriminate H
  | H : bind ?e _ = Ok _ |- _ =>
      let E := fresh "E" in
      destruct e eqn:E; cbn [bind] in H; try discriminate H
  | H : (if ?b then _ else _) = Ok _ |- _ =>
      let E := fresh "E" in destruct b eqn:E
  | H : (let '(_, _) := ?p in _) = Ok _ |- _ => destruct p
  | H : match ?j with state_begin _ => _ | read_chunk => _ end = Ok _ |- _ =>
      destruct j
  end.

Lemma add_chars_loop_path (fuel : nat) (column column' : ColumnInfo)
  (copy_size copy_size' : N) :
  add_chars_loop fuel column copy_size = Ok (column', copy_size') ->
  path (output_fd column') = path (output_fd column).
Proof.
  revert column copy_size.
  induction fuel as [|fuel IH]; intros column copy_size H;
    cbn [add_chars_loop] in H.
  - came_back. reflexivity.
  - destruct (buffer_size column <=? copy_size).
    + apply IH in H. exact H.
    + came_back. reflexivity.
Qed.

Lemma add_chars_to_column_path (column column' : ColumnInfo) (chr : byte)
  (copy_size : N) :
  add_chars_to_column column chr copy_size = Ok column' ->
  path (output_fd column') = path (output_fd column).
Proof.
  unfold add_chars_to_column. intros H.
  destruct (size_add (buffer_position column) copy_size
            <=? buffer_size column).
  - came_back. reflexivity.
  - set (column1 := if negb (buffer_position column =? 0)
                    then flush_buffer column else column) in *.
    assert (H1 : path (output_fd column1) = path (output_fd column))
      by (subst column1; destruct (negb _); reflexivity).
    clearbody column1.
    destruct (buffer_size column1 <=? copy_size); came_back.
    + apply add_chars_loop_path in E0. cbn in *. congruence.
    + cbn. exact H1.
Qed.

Lemma add_buffer_loop_path (fuel : nat) (column column' : ColumnInfo)
  (from_buffer from_buffer' : list byte)
  (copy_size copy_size' remaining_buffer : N) :
  add_buffer_loop fuel column from_buffer copy_size remaining_buffer
  = Ok (column', from_buffer', copy_size') ->
  path (output_fd column') = path (output_fd column).
Proof.
  revert column from_buffer copy_size remaining_buffer.
  induction fuel as [|fuel IH];
    intros column from_buffer copy_size remaining_buffer H;
    cbn [add_buffer_loop] in H.
  - came_back. reflexivity.
  - destruct (remaining_buffer <=? copy_size).
    + came_back. apply IH in H. exact H.
    + came_back. reflexivity.
Qed.

Lemma add_buffer_to_column_path (column column' : ColumnInfo)
  (from_buffer : list byte) (copy_size : N) :
  add_buffer_to_column column from_buffer copy_size = Ok column' ->
  path (output_fd column') = path (output_fd column).
Proof.
  unfold add_buffer_to_column. intros H. came_back.
  - apply add_buffer_loop_path in E. cbn. exact E.
  - apply add_buffer_loop_path in E. exact E.
Qed.

Lemma nth_error_middle {A : Type} (l : list A) (i : nat) (a : A) :
  nth_error l i = Some a -> l = firstn i l ++ a :: skipn (S i) l.
Proof.
  revert i. induction l as [|x l IH]; intros [|i] H; cbn in *;
    try discriminate.
  - injection H as ->. reflexivity.
  - f_equal. apply IH. exact H.
Qed.

Lemma paths_ok_same (name : string) (cs cs' : list ColumnInfo) :
  column_paths cs' = column_paths cs -> paths_ok name cs -> paths_ok name cs'.
Proof.
  unfold paths_ok. intros E H. rewrite E, H.
  apply (f_equal (@length string)) in E. unfold column_paths in E.
  rewrite !length_map in E. rewrite E. reflexivity.
Qed.

Lemma paths_ok_snoc (name : string) (cs : list ColumnInfo) (c : ColumnInfo) :
  path (output_fd c) = column_path name (length cs) ->
  paths_ok name cs -> paths_ok name (cs ++ [c]).
Proof.
  unfold paths_ok, column_paths. intros E H.
  rewrite map_app, length_app, Nat.add_1_r, seq_S, map_app, H.
  cbn [map Nat.add]. rewrite E. reflexivity.
Qed.

Lemma on_column_paths (m m' : Machine) (i : N)
  (f : ColumnInfo -> Result ColumnInfo) :
  (forall c c', f c = Ok c' -> path (output_fd c') = path (output_fd c)) ->
  on_column m i f = Ok m' ->
  column_paths (column_infos m') = column_paths (column_infos m).
Proof.
  unfold on_column. intros Hf H.
  destruct (nth_error (column_infos m) (N.to_nat i)) as [c|] eqn:Hnth;
    [|discriminate].
  came_back. cbn [column_infos set_column_infos].
  rewrite (nth_error_middle _ _ _ Hnth) at 3.
  unfold column_paths. rewrite !map_app. cbn [map].
  rewrite (Hf _ _ E). reflexivity.
Qed.

Section Paths.

Variable C : N.
Variable rlim_cur : option N.
Variable can_create : string -> bool.
Variable junk : N -> byte.
Variable name : string.

Let Inv (m : Machine) : Prop := paths_ok name (column_infos m).

Ltac setters :=
  unfold Inv in *;
  cbn [column_infos set_current_state set_current_row set_current_column
       set_input_buffer set_next_newline set_sentinels set_heap_blocks]
    in *.

Lemma on_column_incr_paths (m m' : Machine) (chr : byte) (n : N) :
  on_column_incr m (fun c => add_chars_to_column c chr n) = Ok m' ->
  Inv m -> Inv m'.
Proof.
  unfold on_column_incr. intros H I. came_back. setters.
  eapply paths_ok_same; [|exact I].
  eapply on_column_paths; [|eassumption].
  intros c c'. apply add_chars_to_column_path.
Qed.

Lemma end_field_paths (m m' : Machine) :
  end_field m = Ok m' -> Inv m -> Inv m'.
Proof. apply on_column_incr_paths. Qed.

Lemma add_chars_on_column_paths (m m' : Machine) (chr : byte) (n : N) :
  on_column m (current_column m) (fun c => add_chars_to_column c chr n)
  = Ok m' ->
  Inv m -> Inv m'.
Proof.
  intros H I. setters.
  eapply paths_ok_same; [|exact I].
  eapply on_column_paths; [|exact H].
  intros c c'. apply add_chars_to_column_path.
Qed.

Lemma copy_field_paths (m m' : Machine) (previous_ptr copy_size : N) :
  copy_field m previous_ptr copy_size = Ok m' -> Inv m -> Inv m'.
Proof.
  unfold copy_field. intros H I. setters.
  eapply paths_ok_same; [|exact I].
  eapply on_column_paths; [|exact H].
  intros c c'. apply add_buffer_to_column_path.
Qed.

Lemma find_next_newline_paths (m m' : Machine) (from : N) :
  find_next_newline m from = Ok m' -> Inv m -> Inv m'.
Proof.
  unfold find_next_newline. intros H I. came_back; setters; exact I.
Qed.

Lemma CHECK_AND_CREATE_COLUMN_paths (m m' : Machine) :
  CHECK_AND_CREATE_COLUMN C rlim_cur can_create junk name m = Ok m' ->
  Inv m -> Inv m'.
Proof.
  unfold CHECK_AND_CREATE_COLUMN. intros H I. came_back; setters.
  - cbn [column_infos set_column_infos].
    apply paths_ok_snoc; [|exact I].
    match goal with
    | E : add_chars_to_column _ _ _ = Ok _ |- _ =>
        apply add_chars_to_column_path in E; rewrite E
    end.
    match goal with
    | E : CREATE_COLUMN_INFO _ _ _ _ _ _ = Ok _ |- _ =>
        unfold CREATE_COLUMN_INFO in E
    end.
    came_back. reflexivity.
  - exact I.
Qed.

Lemma pad_row_paths (fuel : nat) (m m' : Machine) :
  pad_row fuel m = Ok m' -> Inv m -> Inv m'.
Proof.
  revert m. induction fuel as [|fuel IH]; intros m H I;
    cbn [pad_row] in H.
  - came_back. exact I.
  - destruct (negb (current_column m =? size (column_infos m))).
    + came_back. eapply IH; [eassumption|].
      eapply on_column_incr_paths; eassumption.
    + came_back. exact I.
Qed.

(** One step back along the calls that brought the machine here. *)
Ltac paths_step :=
  setters;
  first
    [ eassumption
    | eapply end_field_paths; [eassumption|]
    | eapply add_chars_on_column_paths; [eassumption|]
    | eapply copy_field_paths; [eassumption|]
    | eapply find_next_newline_paths; [eassumption|]
    | eapply CHECK_AND_CREATE_COLUMN_paths; [eassumption|]
    | eapply pad_row_paths; [eassumption|] ].

Ltac paths := repeat paths_step.

Lemma on_column_initial_paths (m m' : Machine) (p : N) (j : Jump) :
  on_column_initial C rlim_cur can_create junk name m p = Ok (m', j) ->
  Inv m -> Inv m'.
Proof.
  unfold on_column_initial. intros H I. came_back; paths.
Qed.

Lemma on_row_initial_paths (m m' : Machine) (p : N) (j : Jump) :
  on_row_initial C rlim_cur can_create junk name m p = Ok (m', j) ->
  Inv m -> Inv m'.
Proof.
  unfold on_row_initial. intros H I. came_back.
  eapply on_column_initial_paths; [eassumption|]. paths.
Qed.

Lemma in_simple_column_paths (m m' : Machine) (p : N) (j : Jump) :
  in_simple_column C m p = Ok (m', j) -> Inv m -> Inv m'.
Proof.
  unfold in_simple_column. intros H I. came_back; paths.
Qed.

Lemma in_quoted_loop_paths (fuel : nat) (m m' : Machine)
  (p last_read : N) (j : Jump) :
  in_quoted_loop C fuel m p last_read = Ok (m', j) -> Inv m -> Inv m'.
Proof.
  revert m last_read. induction fuel as [|fuel IH];
    intros m last_read H I; cbn [in_quoted_loop] in H.
  - discriminate.
  - destruct (rawmemchr (input_buffer m) last_read DQUOTE)
      as [next_ptr| | | |]; cbn [bind] in H; try discriminate.
    match type of H with
    | bind ?e _ = _ => destruct e as [m1| | | |] eqn:E1;
                       cbn [bind] in H; try discriminate
    end.
    assert (I1 : Inv m1).
    { unfold scanned_past_newline in E1.
      destruct (next_newline m <? next_ptr); came_back; paths. }
    clear E1.
    destruct (next_ptr =? DQUOTE_SENTINEL m1).
    { came_back. paths. }
    destruct (next_ptr =? size_sub C 1).
    { came_back. paths. }
    destruct (load (input_buffer m1) (next_ptr + 1)) as [b| | | |];
      cbn [bind] in H; try discriminate.
    destruct (Byte.eqb b DQUOTE).
    { eapply IH; eassumption. }
    destruct (Byte.eqb b COMMA).
    { came_back; paths. }
    came_back. paths.
Qed.

Lemma dispatch_paths (m m' : Machine) (p : N) (j : Jump) :
  dispatch C rlim_cur can_create junk name m p = Ok (m', j) ->
  Inv m -> Inv m'.
Proof.
  unfold dispatch. intros H I. destruct (current_state m).
  - eapply on_row_initial_paths; eassumption.
  - eapply on_column_initial_paths; eassumption.
  - eapply in_simple_column_paths; eassumption.
  - eapply in_quoted_loop_paths; eassumption.
  - discriminate.
Qed.

Lemma run_states_paths (fuel : nat) (m m' : Machine) (p : N) :
  run_states C rlim_cur can_create junk fuel name m p = Ok m' ->
  Inv m -> Inv m'.
Proof.
  revert m p. induction fuel as [|fuel IH]; intros m p H I;
    cbn [run_states] in H.
  - came_back. exact I.
  - destruct (p =? NEWLINE_SENTINEL m); [came_back; exact I|].
    destruct (dispatch C rlim_cur can_create junk name m p)
      as [[m1 j]| | | |] eqn:E; cbn [bind] in H; try discriminate.
    apply dispatch_paths in E; [|exact I].
    destruct j.
    + eapply IH; eassumption.
    + came_back. exact E.
Qed.

Lemma process_chunk_paths (m m' : Machine) (bytes_total : N) :
  process_chunk C rlim_cur can_create junk name m bytes_total = Ok m' ->
  Inv m -> Inv m'.
Proof.
  unfold process_chunk. intros H I.
  match type of H with
  | bind ?e _ = _ => destruct e as [m1| | | |] eqn:E1;
                     cbn [bind] in H; try discriminate
  end.
  assert (I1 : Inv m1).
  { destruct (negb (bytes_total =? C)); came_back; paths. }
  match type of H with
  | bind ?e _ = _ => destruct e as [m2| | | |] eqn:E2;
                     cbn [bind] in H; try discriminate
  end.
  assert (I2 : Inv m2).
  { destruct (negb (CSVState_eqb (current_state m1) OnRowInitial));
      came_back; paths. }
  eapply run_states_paths; eassumption.
Qed.

Lemma read_loop_paths (fuel : nat) (on_heap : bool)
  (input : list ReadEvent) (m m' : Machine) :
  read_loop C rlim_cur can_create junk fuel on_heap name input m = Ok m' ->
  Inv m -> Inv m'.
Proof.
  revert input m. induction fuel as [|fuel IH]; intros input m H I;
    cbn [read_loop] in H; [discriminate|].
  destruct (read input C) as [[chunk input']|]; [|discriminate].
  destruct (len chunk =? 0).
  - came_back. unfold Inv, end_of_input.
    cbn [column_infos set_heap_blocks set_column_infos].
    eapply paths_ok_same; [|exact I].
    unfold column_paths. rewrite map_map. reflexivity.
  - came_back. eapply IH; [eassumption|].
    eapply process_chunk_paths; [eassumption|]. paths.
Qed.

End Paths.

(** C8 (amended): when a run comes back, the file of the column with
    0-based discovery index [i] is named by the prefix, then [i + 1] in
    decimal, padded with zeros to three digits, then [.csv].  The first
    column is numbered 1. *)
Theorem column_file_names :
  forall (C : N) (rlim_cur : option N) (can_create : string -> bool)
         (junk : N -> byte) (input : list ReadEvent) (name : string)
         (m : Machine) (i : nat) (column : ColumnInfo),
    split_csv C rlim_cur can_create junk input name = Ok m ->
    nth_error (column_infos m) i = Some column ->
    path (output_fd column)
    = String.append name
        (String.append (sprintf_03zu (size_add (N.of_nat i) 1)) ".csv").
Proof.
  intros C rlim_cur can_create junk input name m i column Hrun Hnth.
  unfold split_csv in Hrun. came_back.
  apply read_loop_paths with (name := name) in Hrun.
  - cbv zeta in Hrun. unfold paths_ok, column_paths in Hrun.
    apply (f_equal (fun l => nth_error l i)) in Hrun.
    rewrite nth_error_map, Hnth in Hrun. cbn [option_map] in Hrun.
    rewrite nth_error_map in Hrun.
    assert (Hi : (i < length (column_infos m))%nat)
      by (apply nth_error_Some; congruence).
    rewrite nth_error_seq in Hrun.
    destruct (Nat.ltb_spec i (length (column_infos m))); [|lia].
    cbn [option_map Nat.add] in Hrun. injection Hrun as ->. reflexivity.
  - reflexivity.
Qed.

Lemma column_file_names_witness :
  split_csv 8 None any_path no_junk [Data ragged_rows] "out_"
  = Ok ragged_machine /\
  nth_error (column_infos ragged_machine) 1 = Some ragged_second_column /\
  path (output_fd ragged_second_column) = "out_002.csv"%string.
Proof.
  split; [vm_compute; reflexivity|]. split; [reflexivity|].
  apply (column_file_names 8 None any_path no_junk [Data ragged_rows]
           "out_" ragged_machine 1 ragged_second_column).
  - vm_compute. reflexivity.
  - reflexivity.
Defined.

Lemma length_append (s1 s2 : string) :
  String.length (String.append s1 s2)
  = (String.length s1 + String.length s2)%nat.
Proof.
  induction s1 as [|a s1 IH]; cbn [String.append String.length Nat.add];
    [reflexivity|].
  rewrite IH. reflexivity.
Qed.

Lemma length_string_of_list_ascii (l : list ascii) :
  String.length (string_of_list_ascii l) = length l.
Proof.
  induction l as [|a l IH]; cbn [string_of_list_ascii String.length length];
    [reflexivity|].
  rewrite IH. reflexivity.
Qed.

(** [%03zu] gives at least three characters, and pads with zeros only. *)
Lemma sprintf_03zu_length (id : N) :
  (3 <= String.length (sprintf_03zu id))%nat.
Proof.
  unfold sprintf_03zu.
  rewrite length_append, length_string_of_list_ascii, repeat_length.
  lia.
Qed.

Lemma sprintf_03zu_examples :
  sprintf_03zu 1 = "001"%string /\
  sprintf_03zu 42 = "042"%string /\
  sprintf_03zu 999 = "999"%string /\
  sprintf_03zu 1000 = "1000"%string.
Proof. repeat split. Qed.

(* ================================================================= *)
(** ** Searching and patching a buffer *)

Lemma byte_at_len (l : list byte) (i : N) (b : byte) :
  byte_at l i b -> i < len l.
Proof.
  unfold byte_at, len. intros H.
  assert (N.to_nat i < length l)%nat by (apply nth_error_Some; congruence).
  lia.
Qed.

Lemma byte_at_app_l (l1 l2 : list byte) (i : N) (b : byte) :
  byte_at l1 i b -> byte_at (l1 ++ l2) i b.
Proof.
  unfold byte_at. intros H. rewrite nth_error_app1; [exact H|].
  apply nth_error_Some. congruence.
Qed.

Lemma byte_at_app_r (l1 l2 : list byte) (i : N) (b : byte) :
  byte_at l2 i b -> byte_at (l1 ++ l2) (len l1 + i) b.
Proof.
  unfold byte_at, len. intros H.
  rewrite nth_error_app2 by lia.
  replace (N.to_nat (N.of_nat (length l1) + i) - length l1)%nat
    with (N.to_nat i) by lia.
  exact H.
Qed.

Lemma byte_at_app_inv (l1 l2 : list byte) (i : N) (b : byte) :
  byte_at (l1 ++ l2) i b ->
  (i < len l1 /\ byte_at l1 i b) \/
  (len l1 <= i /\ byte_at l2 (i - len l1) b).
Proof.
  unfold byte_at, len. intros H.
  destruct (Nat.lt_ge_cases (N.to_nat i) (length l1)) as [Hlt|Hge].
  - left. rewrite nth_error_app1 in H by exact Hlt. split; [lia|exact H].
  - right. rewrite nth_error_app2 in H by exact Hge. split; [lia|].
    replace (N.to_nat (i - N.of_nat (length l1)))
      with (N.to_nat i - length l1)%nat by lia.
    exact H.
Qed.

Lemma byte_at_head (b x : byte) (l : list byte) :
  byte_at (x :: l) 0 b <-> x = b.
Proof.
  unfold byte_at. cbn. split; [intros [= ->]; reflexivity | intros ->; reflexivity].
Qed.

Lemma byte_at_cons (b x : byte) (l : list byte) (i : N) :
  0 < i -> (byte_at (x :: l) i b <-> byte_at l (i - 1) b).
Proof.
  unfold byte_at. intros H.
  replace (N.to_nat i) with (S (N.to_nat (i - 1))) by lia. cbn. tauto.
Qed.

Lemma byte_at_unique (l : list byte) (i : N) (b b' : byte) :
  byte_at l i b -> byte_at l i b' -> b = b'.
Proof. unfold byte_at. congruence. Qed.

Lemma load_byte_at (l : list byte) (i : N) (b : byte) :
  byte_at l i b -> load l i = Ok b.
Proof. unfold byte_at, load. intros ->. reflexivity. Qed.

Lemma len_set_byte (l : list byte) (i : N) (b : byte) :
  i < len l -> len (set_byte l i b) = len l.
Proof. apply len_store. Qed.

Lemma store_set_byte (l : list byte) (i : N) (b : byte) :
  i < len l -> store l i b = Ok (set_byte l i b).
Proof. apply store_in_bounds. Qed.

Lemma byte_at_set_byte_same (l : list byte) (i : N) (b : byte) :
  i < len l -> byte_at (set_byte l i b) i b.
Proof.
  intros H. unfold set_byte.
  replace i with (len (take i l) + 0) at 3
    by (rewrite len_take by lia; lia).
  apply byte_at_app_r. reflexivity.
Qed.

Lemma byte_at_set_byte_other (l : list byte) (i k : N) (b x : byte) :
  i < len l -> k <> i ->
  (byte_at (set_byte l i b) k x <-> byte_at l k x).
Proof.
  intros Hi Hk. unfold set_byte, byte_at, take, drop. unfold len in Hi.
  destruct (N.lt_ge_cases k i) as [Hlt|Hge].
  - rewrite nth_error_app1 by (rewrite length_firstn; lia).
    rewrite nth_error_firstn.
    destruct (Nat.ltb_spec (N.to_nat k) (N.to_nat i)); [tauto|lia].
  - rewrite nth_error_app2 by (rewrite length_firstn; lia).
    rewrite length_firstn.
    replace (N.to_nat k - Nat.min (N.to_nat i) (length l))%nat
      with (S (N.to_nat k - N.to_nat i - 1)) by lia.
    cbn [nth_error]. rewrite nth_error_skipn.
    replace (N.to_nat (i + 1) + (N.to_nat k - N.to_nat i - 1))%nat
      with (N.to_nat k) by lia.
    tauto.
Qed.

Lemma set_byte_restore (l : list byte) (i : N) (b x : byte) :
  byte_at l i x -> set_byte (set_byte l i b) i x = l.
Proof.
  intros H. pose proof (byte_at_len _ _ _ H) as Hi.
  unfold byte_at in H.
  unfold set_byte at 1.
  assert (E1 : take i (set_byte l i b) = take i l).
  { unfold set_byte. apply take_app_len. rewrite len_take by lia.
    reflexivity. }
  assert (E2 : drop (i + 1) (set_byte l i b) = drop (i + 1) l).
  { unfold set_byte, drop, take.
    rewrite skipn_app, length_firstn.
    rewrite skipn_all2 by (rewrite length_firstn; lia).
    unfold len in Hi.
    replace (N.to_nat (i + 1) - Nat.min (N.to_nat i) (length l))%nat
      with 1%nat by lia.
    reflexivity. }
  rewrite E1, E2. unfold take, drop.
  replace (N.to_nat (i + 1)) with (S (N.to_nat i)) by lia.
  symmetry. apply nth_error_middle. exact H.
Qed.

Lemma find_byte_first (c : byte) (l : list byte) (i : N) :
  first_from c l 0 i -> find_byte c l = Some i.
Proof.
  revert i. induction l as [|x l IH]; intros i (_ & Hat & Hmin).
  - unfold byte_at in Hat. destruct (N.to_nat i); discriminate.
  - cbn [find_byte]. destruct (Byte.eqb x c) eqn:E.
    + apply Byte.byte_dec_bl in E. subst x.
      destruct (N.eq_dec i 0) as [->|Hi]; [reflexivity|].
      exfalso. apply (Hmin 0); [lia|lia|]. apply byte_at_head. reflexivity.
    + assert (Hi : 0 < i).
      { destruct (N.eq_dec i 0) as [->|Hi]; [|lia].
        apply byte_at_head in Hat. subst x.
        rewrite (Byte.byte_dec_lb eq_refl) in E. discriminate. }
      rewrite (IH (i - 1)).
      * f_equal. lia.
      * split; [lia|]. split; [apply byte_at_cons in Hat; assumption|].
        intros k _ Hk Hc. apply (Hmin (k + 1)); [lia|lia|].
        apply byte_at_cons; [lia|].
        replace (k + 1 - 1) with k by lia. exact Hc.
Qed.

Lemma byte_at_drop (l : list byte) (p k : N) (b : byte) :
  byte_at (drop p l) k b <-> byte_at l (p + k) b.
Proof.
  unfold byte_at, drop. rewrite nth_error_skipn.
  replace (N.to_nat p + N.to_nat k)%nat with (N.to_nat (p + k)) by lia.
  tauto.
Qed.

(** [rawmemchr] finds the first occurrence. *)
Lemma rawmemchr_first (c : byte) (buf : list byte) (p q : N) :
  first_from c buf p q -> rawmemchr buf p c = Ok q.
Proof.
  intros (Hpq & Hat & Hmin).
  pose proof (byte_at_len _ _ _ Hat) as Hq.
  unfold rawmemchr.
  destruct (N.leb_spec p (len buf)); [|lia].
  rewrite (find_byte_first c (drop p buf) (q - p)).
  - f_equal. lia.
  - split; [lia|]. split.
    + apply byte_at_drop. replace (p + (q - p)) with q by lia. exact Hat.
    + intros k _ Hk Hc. apply byte_at_drop in Hc.
      apply (Hmin (p + k)); [lia|lia|exact Hc].
Qed.

(** An occurrence behind [p] makes the search from [p] succeed. *)
Lemma first_from_exists (c : byte) (l : list byte) (p q : N) :
  p <= q -> byte_at l q c ->
  exists q', first_from c l p q' /\ q' <= q.
Proof.
  intros Hpq Hat.
  remember (N.to_nat (q - p)) as d eqn:Hd.
  revert p q Hpq Hat Hd.
  induction d as [d IH] using lt_wf_ind. intros p q Hpq Hat Hd.
  destruct (N.eq_dec p q) as [->|Hne].
  - exists q. split; [|lia]. split; [lia|]. split; [exact Hat|].
    intros k H1 H2. lia.
  - destruct (nth_error l (N.to_nat p)) as [x|] eqn:Hx.
    + destruct (Byte.eqb x c) eqn:E.
      * apply Byte.byte_dec_bl in E. subst x.
        exists p. split; [|lia]. split; [lia|]. split; [exact Hx|].
        intros k H1 H2. lia.
      * destruct (IH (N.to_nat (q - (p + 1))) ltac:(lia) (p + 1) q
                    ltac:(lia) Hat eq_refl) as (q' & (H1 & H2 & H3) & H4).
        exists q'. split; [|exact H4]. split; [lia|]. split; [exact H2|].
        intros k Hk1 Hk2.
        destruct (N.eq_dec k p) as [->|Hkp].
        -- unfold byte_at. rewrite Hx. intros [= ->].
           rewrite (Byte.byte_dec_lb eq_refl) in E. discriminate.
        -- apply H3; lia.
    + exfalso. apply byte_at_len in Hat.
      apply nth_error_None in Hx. unfold len in Hat. lia.
Qed.

(** Replacing a byte that is not [c] by another that is not [c] does not
    move the first occurrence of [c]. *)
Lemma first_from_set_byte (c : byte) (l : list byte) (i p q : N)
  (b x : byte) :
  byte_at l i x -> x <> c -> b <> c ->
  first_from c l p q -> first_from c (set_byte l i b) p q.
Proof.
  intros Hi Hx Hb (Hpq & Hat & Hmin).
  assert (Hqi : q <> i).
  { intros ->. apply Hx. eapply byte_at_unique; eassumption. }
  pose proof (byte_at_len _ _ _ Hi) as Hlen.
  split; [exact Hpq|]. split.
  - apply byte_at_set_byte_other; assumption.
  - intros k Hk1 Hk2 Hc.
    destruct (N.eq_dec k i) as [->|Hki].
    + apply Hb. eapply byte_at_unique; [|exact Hc].
      apply byte_at_set_byte_same. exact Hlen.
    + apply byte_at_set_byte_other in Hc; [|exact Hlen|exact Hki].
      exact (Hmin k Hk1 Hk2 Hc).
Qed.

Lemma first_from_app (c : byte) (pre u post : list byte) :
  (forall b, In b u -> b <> c) ->
  first_from c (pre ++ u ++ c :: post) (len pre) (len pre + len u).
Proof.
  intros Hu. split; [lia|]. split.
  - apply byte_at_app_r.
    replace (len u) with (len u + 0) by lia.
    apply byte_at_app_r. reflexivity.
  - intros k Hk1 Hk2 Hc.
    apply byte_at_app_inv in Hc. destruct Hc as [[Hlt _]|[_ Hc]]; [lia|].
    apply byte_at_app_inv in Hc. destruct Hc as [[_ Hc]|[Hge _]]; [|lia].
    apply (Hu c); [|reflexivity].
    eapply nth_error_In. exact Hc.
Qed.

(* ================================================================= *)
(** ** The column sink: what [add_buffer_to_column] appends *)

Lemma firstn_plus {A : Type} (n m : nat) (l : list A) :
  firstn (n + m) l = firstn n l ++ firstn m (skipn n l).
Proof.
  revert l. induction n as [|n IH]; intros l; [reflexivity|].
  destruct l as [|x l]; cbn [Nat.add firstn skipn app].
  - rewrite firstn_nil. reflexivity.
  - rewrite IH. reflexivity.
Qed.

Lemma take_add (a b : N) (l : list byte) :
  take (a + b) l = take a l ++ take b (drop a l).
Proof.
  unfold take, drop.
  replace (N.to_nat (a + b)) with (N.to_nat a + N.to_nat b)%nat by lia.
  apply firstn_plus.
Qed.

Lemma drop_add (a b : N) (l : list byte) :
  drop (a + b) l = drop b (drop a l).
Proof.
  unfold drop. rewrite skipn_skipn. f_equal. lia.
Qed.

Lemma memcpy_fits (dst : list byte) (off : N) (src : list byte) (n : N) :
  n <= len src -> off + n <= len dst ->
  memcpy dst off src n
  = Ok (take off dst ++ take n src ++ drop (off + n) dst).
Proof.
  intros H1 H2. unfold memcpy.
  destruct (N.leb_spec n (len src)); [|lia].
  destruct (N.leb_spec (off + n) (len dst)); [|lia].
  reflexivity.
Qed.

Lemma len_memcpy (dst : list byte) (off : N) (src : list byte) (n : N) :
  n <= len src -> off + n <= len dst ->
  len (take off dst ++ take n src ++ drop (off + n) dst) = len dst.
Proof.
  intros H1 H2. rewrite !len_app, !len_take, len_drop by lia. lia.
Qed.

(** The loop of [add_buffer_to_column] once the buffer is empty: every
    pass writes one buffer of the source to the file. *)
Lemma add_buffer_loop_at_0 (fuel : nat) (column : ColumnInfo)
  (from_buffer : list byte) (copy_size : N) :
  column_wf column ->
  buffer_position column = 0 ->
  copy_size <= len from_buffer ->
  (N.to_nat (copy_size / buffer_size column) < fuel)%nat ->
  exists column',
    add_buffer_loop fuel column from_buffer copy_size (buffer_size column)
    = Ok (column',
          drop (copy_size - copy_size mod buffer_size column) from_buffer,
          copy_size mod buffer_size column) /\
    column_wf column' /\
    buffer_position column' = 0 /\
    buffer_size column' = buffer_size column /\
    path (output_fd column') = path (output_fd column) /\
    written (output_fd column')
    = written (output_fd column)
      ++ take (copy_size - copy_size mod buffer_size column) from_buffer.
Proof.
  revert column from_buffer copy_size.
  induction fuel as [|fuel IH];
    intros column from_buffer copy_size Hwf Hpos Hsrc Hfuel.
  - exfalso. exact (Nat.nlt_0_r _ Hfuel).
  - destruct Hwf as (Hlen & Hle & Hsize & Hmax).
    cbn [add_buffer_loop].
    destruct (N.leb_spec (buffer_size column) copy_size) as [Hbig|Hsmall].
    + rewrite Hpos.
      rewrite memcpy_fits by lia. cbn [bind].
      set (column1 :=
             flush_buffer
               (set_position
                  (set_buffer column
                     (take 0 (buffer column)
                      ++ take (buffer_size column) from_buffer
                      ++ drop (0 + buffer_size column) (buffer column)))
                  (size_add
                     (buffer_position
                        (set_buffer column
                           (take 0 (buffer column)
                            ++ take (buffer_size column) from_buffer
                            ++ drop (0 + buffer_size column)
                                 (buffer column))))
                     (buffer_size column)))).
      assert (Hs1 : buffer_size column1 = buffer_size column)
        by reflexivity.
      assert (Hp1 : buffer_position column1 = 0) by reflexivity.
      assert (Hw1 : written (output_fd column1)
                    = written (output_fd column)
                      ++ take (buffer_size column) from_buffer).
      { subst column1. unfold flush_buffer, write.
        cbn [written output_fd buffer buffer_position set_position
             set_buffer path].
        rewrite Hpos. rewrite size_add_small by lia.
        rewrite take_0. cbn [app N.add].
        f_equal. apply take_app_len. rewrite len_take by lia. reflexivity. }
      assert (Hwf1 : column_wf column1).
      { subst column1. unfold column_wf, flush_buffer.
        cbn [buffer buffer_size buffer_position set_position set_buffer].
        rewrite len_memcpy by lia.
        split; [assumption|]. split; [lia|]. split; assumption. }
      assert (Hpath1 : path (output_fd column1) = path (output_fd column))
        by reflexivity.
      clearbody column1.
      assert (Hsplit : copy_size
                = (copy_size - buffer_size column) + 1 * buffer_size column)
        by lia.
      assert (Hdiv : copy_size / buffer_size column
                = (copy_size - buffer_size column) / buffer_size column + 1).
      { rewrite Hsplit at 1. apply N.div_add. lia. }
      assert (Hmod : copy_size mod buffer_size column
                = (copy_size - buffer_size column) mod buffer_size column).
      { rewrite Hsplit at 1. apply N.Div0.mod_add. }
      assert (Hm : (copy_size - buffer_size column) mod buffer_size column
                   <= copy_size - buffer_size column)
        by (apply N.Div0.mod_le).
      destruct (IH column1 (drop (buffer_size column) from_buffer)
                  (copy_size - buffer_size column) Hwf1 Hp1) as
        (column' & Hrun & Hwf' & Hp' & Hs' & Hpath' & Hw').
      { rewrite len_drop. lia. }
      { rewrite Hs1. rewrite Hdiv in Hfuel.
        set (q := (copy_size - buffer_size column) / buffer_size column)
          in *.
        clearbody q. lia. }
      rewrite Hs1 in *.
      exists column'. rewrite Hrun.
      set (rest := (copy_size - buffer_size column) mod buffer_size column)
        in *.
      assert (Hsum : buffer_size column + (copy_size - buffer_size column - rest)
                     = copy_size - rest) by lia.
      split.
      { rewrite <- drop_add, Hmod, Hsum. reflexivity. }
      split; [exact Hwf'|]. split; [exact Hp'|].
      split; [congruence|]. split; [congruence|].
      rewrite Hw', Hw1, <- app_assoc, <- take_add, Hmod, Hsum.
      reflexivity.
    + exists column. rewrite N.mod_small by lia.
      replace (copy_size - copy_size) with 0 by lia.
      split; [reflexivity|].
      split; [repeat split; assumption|].
      split; [exact Hpos|]. split; [reflexivity|]. split; [reflexivity|].
      rewrite take_0, app_nil_r. reflexivity.
Qed.

(** [add_buffer_to_column] in full: when the source holds [copy_size]
    bytes, the call comes back and the column grows by exactly these. *)
Lemma add_buffer_to_column_appends (column : ColumnInfo)
  (from_buffer : list byte) (copy_size : N) :
  column_wf column ->
  copy_size <= len from_buffer ->
  exists column',
    add_buffer_to_column column from_buffer copy_size = Ok column' /\
    column_output column'
    = column_output column ++ take copy_size from_buffer /\
    column_wf column' /\
    path (output_fd column') = path (output_fd column) /\
    buffer_size column' = buffer_size column.
Proof.
  intros Hwf Hsrc. pose proof Hwf as (Hlen & Hle & Hsize & Hmax).
  unfold add_buffer_to_column.
  rewrite size_sub_small by lia.
  set (remaining := buffer_size column - buffer_position column).
  assert (Hfuel : forall n : N, n <= len from_buffer ->
            (N.to_nat (n / buffer_size column)
             < S (length from_buffer))%nat).
  { intros n Hn.
    assert (n / buffer_size column <= n).
    { apply N.Div0.div_le_upper_bound.
      destruct (buffer_size column); [lia|nia]. }
    unfold len in Hn. lia. }
  remember (S (length from_buffer)) as fuel eqn:Hf.
  destruct (N.leb_spec remaining copy_size) as [Hbig|Hsmall].
  - (* the first pass fills the buffer and writes it *)
    cbn [add_buffer_loop].
    destruct (N.leb_spec remaining copy_size); [|lia].
    rewrite memcpy_fits by (subst remaining; lia). cbn [bind].
    set (column1 :=
           flush_buffer
             (set_position
                (set_buffer column
                   (take (buffer_position column) (buffer column)
                    ++ take remaining from_buffer
                    ++ drop (buffer_position column + remaining)
                         (buffer column)))
                (size_add
                   (buffer_position
                      (set_buffer column
                         (take (buffer_position column) (buffer column)
                          ++ take remaining from_buffer
                          ++ drop (buffer_position column + remaining)
                               (buffer column))))
                   remaining))).
    assert (Hs1 : buffer_size column1 = buffer_size column) by reflexivity.
    assert (Hp1 : buffer_position column1 = 0) by reflexivity.
    assert (Hw1 : written (output_fd column1)
                  = column_output column ++ take remaining from_buffer).
    { subst column1. unfold flush_buffer, write, column_output.
      cbn [written output_fd buffer buffer_position set_position
           set_buffer path].
      rewrite size_add_small by (subst remaining; lia).
      rewrite <- app_assoc. f_equal.
      rewrite app_assoc. apply take_app_len.
      rewrite len_app, !len_take by (subst remaining; lia).
      reflexivity. }
    assert (Hwf1 : column_wf column1).
    { subst column1. unfold column_wf, flush_buffer.
      cbn [buffer buffer_size buffer_position set_position set_buffer].
      rewrite len_memcpy by (subst remaining; lia).
      split; [assumption|]. split; [lia|]. split; assumption. }
    assert (Hpath1 : path (output_fd column1) = path (output_fd column))
      by reflexivity.
    clearbody column1.
    destruct (add_buffer_loop_at_0 fuel column1
                (drop remaining from_buffer) (copy_size - remaining)
                Hwf1 Hp1) as
      (column' & Hrun & Hwf' & Hp' & Hs' & Hpath' & Hw').
    { rewrite len_drop. lia. }
    { rewrite Hs1. apply Hfuel. lia. }
    rewrite Hs1 in *. rewrite Hrun. cbn [bind].
    set (rest := (copy_size - remaining) mod buffer_size column) in *.
    assert (Hrest : rest < buffer_size column)
      by (apply N.mod_lt; lia).
    assert (Hrest' : rest <= copy_size - remaining)
      by (apply N.Div0.mod_le).
    destruct Hwf' as (Hlen' & Hle' & Hsize' & Hmax').
    destruct (N.eqb_spec rest 0) as [E|E]; cbn [negb].
    + exists column'. split; [reflexivity|].
      split; [|split; [repeat split; assumption | split; congruence]].
      unfold column_output at 1. rewrite Hp', take_0, app_nil_r, Hw', Hw1.
      rewrite <- app_assoc. f_equal.
      rewrite E, N.sub_0_r, <- take_add. f_equal. lia.
    + rewrite memcpy_fits.
      2:{ rewrite !len_drop. lia. }
      2:{ rewrite Hp'. lia. }
      cbn [bind]. eexists. split; [reflexivity|].
      split; [|split].
      * unfold column_output at 1.
        cbn [written output_fd buffer buffer_position set_position
             set_buffer].
        rewrite Hp', take_0. cbn [app N.add].
        rewrite size_add_small by lia. cbn [N.add].
        rewrite take_app_len
          by (rewrite len_take; [reflexivity | rewrite !len_drop; lia]).
        rewrite Hw', Hw1, <- !app_assoc. f_equal.
        rewrite <- !take_add. f_equal. lia.
      * unfold column_wf.
        cbn [buffer buffer_size buffer_position set_position set_buffer].
        rewrite Hp', len_memcpy; [| rewrite !len_drop; lia | lia].
        rewrite size_add_small by lia.
        split; [assumption|]. split; [lia|]. split; assumption.
      * cbn [path output_fd buffer_size set_position set_buffer].
        split; congruence.
  - (* everything fits behind the pending bytes *)
    cbn [add_buffer_loop].
    destruct (N.leb_spec remaining copy_size); [lia|]. cbn [bind].
    destruct (N.eqb_spec copy_size 0) as [E|E]; cbn [negb].
    + exists column. split; [reflexivity|].
      split; [|split; [exact Hwf | split; reflexivity]].
      rewrite E, take_0, app_nil_r. reflexivity.
    + rewrite memcpy_fits by (subst remaining; lia). cbn [bind].
      eexists. split; [reflexivity|].
      split; [|split].
      * unfold column_output.
        cbn [written output_fd buffer buffer_position set_position
             set_buffer].
        rewrite size_add_small by (subst remaining; lia).
        rewrite <- app_assoc. f_equal.
        rewrite app_assoc. apply take_app_len.
        rewrite len_app, !len_take by (subst remaining; lia).
        reflexivity.
      * unfold column_wf.
        cbn [buffer buffer_size buffer_position set_position set_buffer].
        rewrite len_memcpy by (subst remaining; lia).
        rewrite size_add_small by (subst remaining; lia).
        split; [assumption|]. split; [subst remaining; lia|].
        split; assumption.
      * split; reflexivity.
Qed.

(* ================================================================= *)
(** ** Steps of the machine on a known buffer *)

(** Reading the fields of a machine that is given by its fields. *)
Ltac fields :=
  cbn [machine_at input_buffer NEWLINE_SENTINEL COMMA_SENTINEL
       DQUOTE_SENTINEL next_newline column_infos current_row
       current_column current_state heap_blocks
       set_input_buffer set_sentinels set_next_newline set_column_infos
       set_current_row set_current_column set_current_state
       set_heap_blocks bind negb].

Lemma add_chars_to_column_one (column : ColumnInfo) (chr : byte) :
  column_wf column -> 1 < buffer_size column ->
  buffer_size column + 1 < SIZE_MOD ->
  exists column',
    add_chars_to_column column chr 1 = Ok column' /\
    column_output column' = column_output column ++ [chr] /\
    column_wf column' /\
    path (output_fd column') = path (output_fd column) /\
    buffer_size column' = buffer_size column.
Proof.
  intros Hwf Hsize Hmax'. pose proof Hwf as (Hlen & Hle & Hpos & Hmax).
  destruct (add_chars_to_column_keeps column chr 1 Hwf) as
    (column' & Hrun & Hout & Hrest); [lia|].
  exists column'. split; [exact Hrun|].
  assert (Hkept : fill_kept column 1 = 1).
  { unfold fill_kept.
    destruct (buffer_position column + 1 <=? buffer_size column);
      [reflexivity|].
    destruct (N.leb_spec (buffer_size column) 1); [lia|reflexivity]. }
  rewrite Hkept in Hout. split; [exact Hout | exact Hrest].
Qed.

Lemma add_chars_to_column_none (column : ColumnInfo) (chr : byte) :
  column_wf column ->
  exists column',
    add_chars_to_column column chr 0 = Ok column' /\
    column_output column' = column_output column /\
    column_wf column' /\
    path (output_fd column') = path (output_fd column) /\
    buffer_size column' = buffer_size column.
Proof.
  intros Hwf. pose proof Hwf as (Hlen & Hle & Hpos & Hmax).
  destruct (add_chars_to_column_keeps column chr 0 Hwf) as
    (column' & Hrun & Hout & Hrest); [lia|].
  exists column'. split; [exact Hrun|].
  assert (Hkept : fill_kept column 0 = 0).
  { unfold fill_kept. rewrite N.add_0_r.
    destruct (N.leb_spec (buffer_position column) (buffer_size column));
      [reflexivity|lia]. }
  rewrite Hkept in Hout. cbn [N.to_nat repeat] in Hout.
  rewrite app_nil_r in Hout. split; [exact Hout | exact Hrest].
Qed.

Lemma find_next_newline_at (n : N) (buf : list byte) (nn p q : N)
  (cols : list ColumnInfo) (row col : N) (st : CSVState) (heap : N) :
  first_from LF buf p q -> q <> n ->
  find_next_newline (machine_at n buf nn cols row col st heap) p
  = Ok (machine_at n (set_byte buf q COMMA) q cols row col st heap).
Proof.
  intros Hq Hne. unfold find_next_newline. fields.
  rewrite (rawmemchr_first _ _ _ _ Hq). fields.
  destruct (N.eqb_spec q n) as [E|_]; [contradiction|]. fields.
  destruct Hq as (_ & Hat & _).
  rewrite store_set_byte by (eapply byte_at_len; exact Hat).
  reflexivity.
Qed.

Lemma find_next_newline_sentinel (n : N) (buf : list byte) (nn p : N)
  (cols : list ColumnInfo) (row col : N) (st : CSVState) (heap : N) :
  first_from LF buf p n ->
  find_next_newline (machine_at n buf nn cols row col st heap) p
  = Ok (machine_at n buf n cols row col st heap).
Proof.
  intros Hq. unfold find_next_newline. fields.
  rewrite (rawmemchr_first _ _ _ _ Hq). fields.
  rewrite N.eqb_refl. reflexivity.
Qed.

Lemma copy_field_at (n : N) (buf : list byte) (nn : N)
  (column : ColumnInfo) (row : N) (st : CSVState) (heap : N)
  (previous_ptr copy_size : N) :
  column_wf column ->
  copy_size <= len (drop previous_ptr buf) ->
  exists column',
    copy_field (machine_at n buf nn [column] row 0 st heap)
               previous_ptr copy_size
    = Ok (machine_at n buf nn [column'] row 0 st heap) /\
    column_output column'
    = column_output column ++ take copy_size (drop previous_ptr buf) /\
    column_wf column' /\
    path (output_fd column') = path (output_fd column) /\
    buffer_size column' = buffer_size column.
Proof.
  intros Hwf Hsrc.
  destruct (add_buffer_to_column_appends column (drop previous_ptr buf)
              copy_size Hwf Hsrc) as (column' & Hrun & Hrest).
  exists column'. unfold copy_field, on_column. fields.
  cbn [N.to_nat nth_error]. rewrite Hrun. fields.
  split; [reflexivity | exact Hrest].
Qed.

Lemma add_char_at (n : N) (buf : list byte) (nn : N)
  (column : ColumnInfo) (row : N) (st : CSVState) (heap : N) (chr : byte) :
  column_wf column -> 1 < buffer_size column ->
  buffer_size column + 1 < SIZE_MOD ->
  exists column',
    on_column (machine_at n buf nn [column] row 0 st heap) 0
      (fun c => add_chars_to_column c chr 1)
    = Ok (machine_at n buf nn [column'] row 0 st heap) /\
    column_output column' = column_output column ++ [chr] /\
    column_wf column' /\
    path (output_fd column') = path (output_fd column) /\
    buffer_size column' = buffer_size column.
Proof.
  intros Hwf Hsize Hmax.
  destruct (add_chars_to_column_one column chr Hwf Hsize Hmax)
    as (column' & Hrun & Hrest).
  exists column'. unfold on_column. fields.
  cbn [N.to_nat nth_error]. rewrite Hrun. fields.
  split; [reflexivity | exact Hrest].
Qed.

Lemma end_field_at (n : N) (buf : list byte) (nn : N)
  (column : ColumnInfo) (row : N) (st : CSVState) (heap : N) :
  column_wf column -> 1 < buffer_size column ->
  buffer_size column + 1 < SIZE_MOD ->
  exists column',
    end_field (machine_at n buf nn [column] row 0 st heap)
    = Ok (machine_at n buf nn [column'] row 1 st heap) /\
    column_output column' = column_output column ++ [LF] /\
    column_wf column' /\
    path (output_fd column') = path (output_fd column) /\
    buffer_size column' = buffer_size column.
Proof.
  intros Hwf Hsize Hmax.
  destruct (add_char_at n buf nn column row st heap LF Hwf Hsize Hmax)
    as (column' & Hrun & Hrest).
  exists column'. unfold end_field, on_column_incr.
  change (current_column (machine_at n buf nn [column] row 0 st heap))
    with 0.
  rewrite Hrun. fields.
  split; [reflexivity | exact Hrest].
Qed.

Lemma take_set_byte_before (l : list byte) (i k : N) (b : byte) :
  k <= i -> i < len l -> take k (set_byte l i b) = take k l.
Proof.
  intros Hk Hi. unfold set_byte, take.
  rewrite firstn_app, length_firstn. unfold len in Hi.
  replace (N.to_nat k - Nat.min (N.to_nat i) (length l))%nat with 0%nat
    by lia.
  rewrite firstn_firstn, firstn_O, app_nil_r.
  f_equal. lia.
Qed.

Lemma take_drop_set_byte_behind (l : list byte) (i p k : N) (b : byte) :
  p + k <= i -> i < len l ->
  take k (drop p (set_byte l i b)) = take k (drop p l).
Proof.
  intros Hk Hi. unfold take, drop.
  rewrite !firstn_skipn_comm.
  f_equal.
  replace (N.to_nat p + N.to_nat k)%nat with (N.to_nat (p + k)) by lia.
  apply take_set_byte_before; assumption.
Qed.

(* ================================================================= *)
(** ** One record with one quoted field *)

Lemma len_cons (x : byte) (l : list byte) : len (x :: l) = 1 + len l.
Proof. unfold len. cbn [length]. lia. Qed.

Lemma len_nil : len [] = 0.
Proof. reflexivity. Qed.

Lemma escape_app (v1 v2 : list byte) :
  escape (v1 ++ v2) = escape v1 ++ escape v2.
Proof. unfold escape. apply flat_map_app. Qed.

Lemma escape_plain (u : list byte) :
  (forall b, In b u -> b <> DQUOTE) -> escape u = u.
Proof.
  induction u as [|x u IH]; intros H; [reflexivity|].
  unfold escape in *. cbn [flat_map].
  destruct (Byte.eqb x DQUOTE) eqn:E.
  - apply Byte.byte_dec_bl in E. exfalso. apply (H x); [left; reflexivity|].
    exact E.
  - cbn [app]. f_equal. apply IH. intros b Hb. apply H. right. exact Hb.
Qed.

Lemma escape_quote : escape [DQUOTE] = [DQUOTE; DQUOTE].
Proof. reflexivity. Qed.

(** A value is free of quotes, or it splits at its first quote. *)
Lemma first_quote_split (v : list byte) :
  (forall b, In b v -> b <> DQUOTE) \/
  exists u v', v = u ++ DQUOTE :: v' /\ (forall b, In b u -> b <> DQUOTE).
Proof.
  induction v as [|x v IH].
  - left. intros b [].
  - destruct (Byte.eqb x DQUOTE) eqn:E.
    + apply Byte.byte_dec_bl in E. subst x.
      right. exists [], v. split; [reflexivity|]. intros b [].
    + apply Byte.eqb_false in E.
      destruct IH as [Hfree | (u & v' & -> & Hu)].
      * left. intros b [<-|Hb]; [exact E | apply Hfree; exact Hb].
      * right. exists (x :: u), v'. split; [reflexivity|].
        intros b [<-|Hb]; [exact E | apply Hu; exact Hb].
Qed.

Lemma first_from_unique (c : byte) (l : list byte) (p q q' : N) :
  first_from c l p q -> first_from c l p q' -> q = q'.
Proof.
  intros (H1 & H2 & H3) (H1' & H2' & H3').
  destruct (N.lt_trichotomy q q') as [H|[H|H]]; [|exact H|].
  - exfalso. exact (H3' q H1 H H2).
  - exfalso. exact (H3 q' H1' H H2').
Qed.

Lemma first_from_later (c : byte) (l : list byte) (p p' q : N) :
  first_from c l p q -> p <= p' -> p' <= q -> first_from c l p' q.
Proof.
  intros (H1 & H2 & H3) Hp Hq. split; [exact Hq|]. split; [exact H2|].
  intros k Hk1 Hk2. apply H3; lia.
Qed.

Lemma first_from_here (c : byte) (l : list byte) (p : N) :
  byte_at l p c -> first_from c l p p.
Proof.
  intros H. split; [lia|]. split; [exact H|]. intros k H1 H2. lia.
Qed.

Lemma scanned_past_newline_at (C n : N) (B : list byte)
  (nn last_read next_ptr nn' : N) (cols : list ColumnInfo) (row col : N)
  (st : CSVState) (heap : N) :
  byte_at B nn LF ->
  next_ptr < C ->
  last_read <= next_ptr ->
  (nn < last_read \/ first_from LF B last_read nn) ->
  first_from LF B next_ptr nn' ->
  nn' <> n ->
  scanned_past_newline C
    (machine_at n (set_byte B nn COMMA) nn cols row col st heap) next_ptr
  = Ok (machine_at n (set_byte B nn' COMMA) nn' cols row col st heap).
Proof.
  intros Hnn Hptr Hlast J Hnn' Hne.
  pose proof (byte_at_len _ _ _ Hnn) as Hlen.
  unfold scanned_past_newline. fields.
  destruct (N.ltb_spec nn next_ptr) as [Hlt|Hge].
  - rewrite store_set_byte by (rewrite len_set_byte; assumption).
    rewrite (set_byte_restore _ _ _ _ Hnn). fields.
    destruct (N.ltb_spec next_ptr C); [|lia].
    apply (find_next_newline_at n B nn next_ptr nn'); assumption.
  - destruct J as [J|J]; [lia|].
    assert (E : nn = nn').
    { eapply first_from_unique; [|exact Hnn'].
      eapply first_from_later; [exact J| |]; lia. }
    subst nn'. reflexivity.
Qed.

Section QuotedRecord.

Variable value tail : list byte.

(** The buffer, the offset of the closing quote, and the length of the
    record, which is the offset of the first sentinel. *)
Let B : list byte := record_buffer value tail.
Let cq : N := 1 + len (escape value).
Let n : N := cq + 2.

Lemma record_buffer_split (v1 v2 : list byte) :
  value = v1 ++ v2 ->
  B = (DQUOTE :: escape v1)
      ++ escape v2 ++ DQUOTE :: LF :: LF :: COMMA :: DQUOTE :: tail.
Proof.
  intros ->. unfold B, record_buffer, quote_field.
  rewrite escape_app. cbn [app]. f_equal.
  rewrite <- !app_assoc. reflexivity.
Qed.

Lemma len_quoted_prefix (v1 : list byte) :
  len (DQUOTE :: escape v1) = 1 + len (escape v1).
Proof. apply len_cons. Qed.

Lemma record_buffer_end :
  B = (DQUOTE :: escape value)
      ++ DQUOTE :: LF :: LF :: COMMA :: DQUOTE :: tail.
Proof.
  rewrite (record_buffer_split value []) by (symmetry; apply app_nil_r).
  reflexivity.
Qed.

Lemma closing_quote_at : byte_at B cq DQUOTE.
Proof.
  rewrite record_buffer_end. unfold cq.
  rewrite <- len_quoted_prefix.
  replace (len (DQUOTE :: escape value))
    with (len (DQUOTE :: escape value) + 0) by lia.
  apply byte_at_app_r. reflexivity.
Qed.

Lemma record_separator_at : byte_at B (cq + 1) LF.
Proof.
  rewrite record_buffer_end. unfold cq.
  rewrite <- len_quoted_prefix.
  apply byte_at_app_r. reflexivity.
Qed.

Lemma newline_sentinel_at : byte_at B n LF.
Proof.
  rewrite record_buffer_end. unfold n, cq.
  rewrite <- len_quoted_prefix.
  apply byte_at_app_r. reflexivity.
Qed.

Lemma opening_quote_at : byte_at B 0 DQUOTE.
Proof. reflexivity. Qed.

(** The next quote behind the part [v1] of the value that has been
    scanned, when the rest has no quote: the closing quote. *)
Lemma next_quote_closing (v1 u : list byte) :
  value = v1 ++ u ->
  (forall b, In b u -> b <> DQUOTE) ->
  first_from DQUOTE B (1 + len (escape v1)) cq.
Proof.
  intros Hv Hu.
  assert (Hcq : cq = len (DQUOTE :: escape v1) + len u).
  { unfold cq. rewrite Hv, escape_app, (escape_plain u Hu), len_app, len_cons.
    lia. }
  rewrite Hcq, <- len_quoted_prefix.
  rewrite (record_buffer_split v1 u Hv), (escape_plain u Hu).
  apply first_from_app. exact Hu.
Qed.

(** The same when the rest holds a quote: the first quote of the pair that
    stands for it, and the second one right behind. *)
Lemma next_quote_pair (v1 u v3 : list byte) :
  value = v1 ++ u ++ DQUOTE :: v3 ->
  (forall b, In b u -> b <> DQUOTE) ->
  first_from DQUOTE B (1 + len (escape v1)) (1 + len (escape v1) + len u) /\
  byte_at B (1 + len (escape v1) + len u + 1) DQUOTE /\
  1 + len (escape v1) + len u + 2 = 1 + len (escape (v1 ++ u ++ [DQUOTE])) /\
  1 + len (escape v1) + len u + 2 <= cq.
Proof.
  intros Hv Hu.
  assert (HB : B = (DQUOTE :: escape v1)
                   ++ u ++ DQUOTE
                   :: (DQUOTE :: escape v3
                       ++ DQUOTE :: LF :: LF :: COMMA :: DQUOTE :: tail)).
  { rewrite (record_buffer_split v1 (u ++ DQUOTE :: v3) Hv).
    rewrite escape_app, (escape_plain u Hu).
    change (escape (DQUOTE :: v3)) with ([DQUOTE; DQUOTE] ++ escape v3).
    rewrite <- !app_assoc. reflexivity. }
  split; [|split; [|split]].
  - rewrite <- len_quoted_prefix, HB. apply first_from_app. exact Hu.
  - rewrite HB.
    rewrite <- len_quoted_prefix, <- N.add_assoc.
    apply byte_at_app_r.
    apply byte_at_app_r. reflexivity.
  - rewrite !escape_app, (escape_plain u Hu), escape_quote, !len_app.
    change (len [DQUOTE; DQUOTE]) with 2. lia.
  - unfold cq. rewrite Hv, !escape_app, (escape_plain u Hu), !len_app.
    change (escape (DQUOTE :: v3)) with (DQUOTE :: DQUOTE :: escape v3).
    rewrite !len_cons. lia.
Qed.

Lemma field_bytes : take cq (drop 1 B) = escape value ++ [DQUOTE].
Proof.
  assert (HB : B = DQUOTE :: (escape value ++ [DQUOTE])
                   ++ LF :: LF :: COMMA :: DQUOTE :: tail).
  { rewrite record_buffer_end. cbn [app]. rewrite <- app_assoc.
    reflexivity. }
  rewrite HB. change (drop 1 (DQUOTE :: ?l)) with l.
  apply take_app_len. unfold cq. rewrite len_app. change (len [DQUOTE]) with 1.
  lia.
Qed.

(** The window is longer than the record. *)
Variable C : N.
Hypothesis Hwindow : n < C.
Hypothesis Hsize : C + 10 < SIZE_MOD.

(** The last pass of the scan: no quote is left in the value, the next
    quote closes the field.  The column receives the escaped value and the
    closing quote, then the terminator, and the machine is at the end of
    the chunk in [OnRowInitial]. *)
Lemma in_quoted_loop_closing :
  forall (v1 v2 : list byte) (nn : N) (fuel : nat) (column : ColumnInfo)
         (row : N) (st : CSVState) (heap : N),
    value = v1 ++ v2 ->
    (forall b, In b v2 -> b <> DQUOTE) ->
    byte_at B nn LF -> nn < n ->
    (nn < 1 + len (escape v1) \/ first_from LF B (1 + len (escape v1)) nn) ->
    column_wf column -> 1 < buffer_size column ->
    buffer_size column + 1 < SIZE_MOD ->
    exists column',
      in_quoted_loop C (S fuel)
        (machine_at n (set_byte B nn COMMA) nn [column] row 0 st heap)
        1 (1 + len (escape v1))
      = Ok (machine_at n (set_byte B (cq + 1) COMMA) n [column'] row 1
              OnRowInitial heap,
            state_begin n) /\
      column_output column'
      = column_output column ++ escape value ++ [DQUOTE; LF] /\
      column_wf column' /\
      path (output_fd column') = path (output_fd column) /\
      buffer_size column' = buffer_size column.
Proof.
  intros v1 v2 nn fuel column row st heap Hv Hfree Hnn Hnn_lt J
         Hwf Hbig Hmax.
  cbn [in_quoted_loop]. fields.
  pose proof closing_quote_at as Hcq.
  pose proof record_separator_at as Hsep.
  pose proof newline_sentinel_at as Hsent.
  pose proof (byte_at_len _ _ _ Hsep) as Hlen.
  assert (Hquote_lf : DQUOTE <> LF) by discriminate.
  assert (Hlf_quote : LF <> DQUOTE) by discriminate.
  assert (Hcomma_quote : COMMA <> DQUOTE) by discriminate.
  pose proof (next_quote_closing v1 v2 Hv Hfree) as Hnext.
  assert (Hlast : 1 + len (escape v1) <= cq) by (destruct Hnext; lia).
  rewrite (rawmemchr_first _ _ _ _
             (first_from_set_byte _ _ _ _ _ _ _ Hnn Hlf_quote Hcomma_quote
                Hnext)).
  fields.
  assert (Hnn' : first_from LF B cq (cq + 1)).
  { split; [lia|]. split; [exact Hsep|].
    intros j Hj1 Hj2 Hj. replace j with cq in Hj by lia.
    apply Hquote_lf. eapply byte_at_unique; eassumption. }
  rewrite (scanned_past_newline_at C n B nn (1 + len (escape v1)) cq
             (cq + 1)) by (first [assumption | unfold n in *; lia]).
  fields.
  destruct (N.eqb_spec cq (n + 2)) as [E|_]; [unfold n in E; lia|].
  rewrite (size_sub_small C 1) by lia.
  destruct (N.eqb_spec cq (C - 1)) as [E|_]; [unfold n in *; lia|].
  rewrite (load_byte_at _ _ COMMA)
    by (apply byte_at_set_byte_same; exact Hlen).
  fields.
  change (Byte.eqb COMMA DQUOTE) with false.
  change (Byte.eqb COMMA COMMA) with true. cbv iota.
  unfold distance. rewrite (size_sub_small (cq + 1) 1)
    by (unfold n in *; lia).
  replace (cq + 1 - 1) with cq by lia.
  destruct (copy_field_at n (set_byte B (cq + 1) COMMA) (cq + 1) column
              row st heap 1 cq Hwf) as
    (column1 & Hrun1 & Hout1 & Hwf1 & Hpath1 & Hsize1).
  { rewrite len_drop, len_set_byte by exact Hlen. lia. }
  rewrite Hrun1. fields.
  destruct (end_field_at n (set_byte B (cq + 1) COMMA) (cq + 1) column1
              row st heap Hwf1) as
    (column2 & Hrun2 & Hout2 & Hwf2 & Hpath2 & Hsize2);
    [congruence | congruence |].
  rewrite Hrun2. fields.
  rewrite N.eqb_refl.
  rewrite (find_next_newline_sentinel n _ (cq + 1) (cq + 1 + 1)).
  2:{ replace (cq + 1 + 1) with n by (unfold n; lia).
      apply first_from_here.
      apply byte_at_set_byte_other;
        [exact Hlen | unfold n; lia | exact Hsent]. }
  fields.
  exists column2.
  split.
  { unfold set_current_state. fields. reflexivity. }
  split; [| split; [exact Hwf2 | split; congruence ]].
  rewrite Hout2, Hout1, <- app_assoc. f_equal.
  rewrite take_drop_set_byte_behind by (first [lia | exact Hlen]).
  rewrite field_bytes, <- app_assoc. reflexivity.
Qed.

(** The whole scan, from behind the part [v1] of the value that has been
    passed: every escaped pair costs one pass. *)
Lemma in_quoted_loop_to_end (k : nat) :
  forall (v2 v1 : list byte) (nn : N) (fuel : nat) (column : ColumnInfo)
         (row : N) (st : CSVState) (heap : N),
    (length v2 <= k)%nat -> (k < fuel)%nat ->
    value = v1 ++ v2 ->
    byte_at B nn LF -> nn < n ->
    (nn < 1 + len (escape v1) \/ first_from LF B (1 + len (escape v1)) nn) ->
    column_wf column -> 1 < buffer_size column ->
    buffer_size column + 1 < SIZE_MOD ->
    exists column',
      in_quoted_loop C fuel
        (machine_at n (set_byte B nn COMMA) nn [column] row 0 st heap)
        1 (1 + len (escape v1))
      = Ok (machine_at n (set_byte B (cq + 1) COMMA) n [column'] row 1
              OnRowInitial heap,
            state_begin n) /\
      column_output column'
      = column_output column ++ escape value ++ [DQUOTE; LF] /\
      column_wf column' /\
      path (output_fd column') = path (output_fd column) /\
      buffer_size column' = buffer_size column.
Proof.
  induction k as [|k IH];
    intros v2 v1 nn fuel column row st heap Hk Hfuel Hv Hnn Hnn_lt J
           Hwf Hbig Hmax;
    (destruct fuel as [|fuel]; [lia|]).
  - apply (in_quoted_loop_closing v1 v2); try assumption.
    destruct v2; [intros b []|cbn [length] in Hk; lia].
  - destruct (first_quote_split v2) as [Hfree | (u & v3 & Hv2 & Hu)].
    + apply (in_quoted_loop_closing v1 v2); assumption.
    + subst v2.
      destruct (next_quote_pair v1 u v3 Hv Hu) as
        (Hnext & Hsecond & Hlast & Hbound).
      set (next_ptr := 1 + len (escape v1) + len u) in *.
      pose proof record_separator_at as Hsep.
      assert (Hquote_lf : DQUOTE <> LF) by discriminate.
      assert (Hlf_quote : LF <> DQUOTE) by discriminate.
      assert (Hcomma_quote : COMMA <> DQUOTE) by discriminate.
      (* the record separator behind the first quote of the pair *)
      destruct (first_from_exists LF B next_ptr (cq + 1)) as
        (nn' & Hnn' & Hnn'_le); [lia | exact Hsep |].
      assert (Hfirst : byte_at B next_ptr DQUOTE) by (apply Hnext).
      assert (Hnn'_at : byte_at B nn' LF) by (apply Hnn').
      assert (Hnn'_far : next_ptr + 2 <= nn').
      { destruct Hnn' as (Hge & _ & _).
        destruct (N.eq_dec nn' next_ptr) as [E|E1].
        { exfalso. apply Hquote_lf. rewrite E in Hnn'_at.
          exact (byte_at_unique _ _ _ _ Hfirst Hnn'_at). }
        destruct (N.eq_dec nn' (next_ptr + 1)) as [E|E2].
        { exfalso. apply Hquote_lf. rewrite E in Hnn'_at.
          exact (byte_at_unique _ _ _ _ Hsecond Hnn'_at). }
        lia. }
      cbn [in_quoted_loop]. fields.
      rewrite (rawmemchr_first _ _ _ _
                 (first_from_set_byte _ _ _ _ _ _ _ Hnn Hlf_quote
                    Hcomma_quote Hnext)).
      fields.
      rewrite (scanned_past_newline_at C n B nn (1 + len (escape v1))
                 next_ptr nn')
        by (first [assumption | unfold n, next_ptr in *; lia]).
      fields.
      destruct (N.eqb_spec next_ptr (n + 2)) as [E|_];
        [unfold n in E; lia|].
      rewrite (size_sub_small C 1) by lia.
      destruct (N.eqb_spec next_ptr (C - 1)) as [E|_];
        [unfold n in *; lia|].
      rewrite (load_byte_at _ _ DQUOTE).
      2:{ apply byte_at_set_byte_other;
            [eapply byte_at_len; exact Hnn'_at | lia | exact Hsecond]. }
      fields.
      change (Byte.eqb DQUOTE DQUOTE) with true. cbv iota.
      rewrite Hlast.
      apply (IH v3 (v1 ++ u ++ [DQUOTE])).
      * rewrite length_app in Hk. cbn [length] in Hk. lia.
      * lia.
      * rewrite Hv, <- !app_assoc. reflexivity.
      * exact Hnn'_at.
      * unfold n. lia.
      * right. rewrite <- Hlast.
        eapply first_from_later; [exact Hnn' | lia | exact Hnn'_far].
      * exact Hwf.
      * exact Hbig.
      * exact Hmax.
Qed.

End QuotedRecord.

Lemma set_byte_app (pre post : list byte) (x b : byte) (i : N) :
  i = len pre -> set_byte (pre ++ x :: post) i b = pre ++ b :: post.
Proof.
  intros ->. unfold set_byte.
  rewrite take_app_len by reflexivity. f_equal. f_equal.
  unfold drop, len.
  replace (N.to_nat (N.of_nat (length pre) + 1)) with (length pre + 1)%nat
    by lia.
  rewrite skipn_app, skipn_all2 by lia.
  replace (length pre + 1 - length pre)%nat with 1%nat by lia.
  reflexivity.
Qed.

(** The three sentinels behind a chunk shorter than the window. *)
Lemma store_sentinels {A : Type} (chunk : list byte) (x0 x1 x2 : byte)
  (tail : list byte) (n : N) (k : list byte -> Result A) :
  n = len chunk ->
  (b <- store (chunk ++ x0 :: x1 :: x2 :: tail) n LF ;;
   b <- store b (n + 1) COMMA ;;
   b <- store b (n + 2) DQUOTE ;;
   k b)
  = k (chunk ++ LF :: COMMA :: DQUOTE :: tail).
Proof.
  intros ->.
  rewrite store_set_byte by (rewrite len_app, !len_cons; lia).
  rewrite set_byte_app by reflexivity. cbn [bind].
  rewrite store_set_byte by (rewrite len_app, !len_cons; lia).
  change (chunk ++ LF :: x1 :: x2 :: tail)
    with (chunk ++ [LF] ++ x1 :: x2 :: tail).
  rewrite app_assoc.
  rewrite set_byte_app
    by (rewrite len_app; change (len [LF]) with 1; reflexivity).
  cbn [bind].
  rewrite store_set_byte
    by (rewrite !len_app, !len_cons; change (len [LF]) with 1; lia).
  change ((chunk ++ [LF]) ++ COMMA :: x2 :: tail)
    with ((chunk ++ [LF]) ++ [COMMA] ++ x2 :: tail).
  rewrite app_assoc.
  rewrite set_byte_app
    by (rewrite !len_app; change (len [LF]) with 1;
        change (len [COMMA]) with 1; lia).
  cbn [bind]. rewrite <- !app_assoc. reflexivity.
Qed.

(** The start of [split_csv]: the input buffer is allocated and the
    sentinels are put behind the window. *)
Lemma split_csv_start (C : N) (rlim_cur : option N)
  (can_create : string -> bool) (junk : N -> byte)
  (input : list ReadEvent) (name : string) :
  C + 10 < SIZE_MOD ->
  exists b,
    len b = C + 10 /\
    split_csv C rlim_cur can_create junk input name
    = read_loop C rlim_cur can_create junk (stream_fuel input)
        (should_use_heap rlim_cur (required_stack C)) name input
        {| input_buffer := b;
           NEWLINE_SENTINEL := C;
           COMMA_SENTINEL := C + 1;
           DQUOTE_SENTINEL := C + 2;
           next_newline := 0;
           column_infos := [];
           current_row := 0;
           current_column := 0;
           current_state := OnColumnInitial;
           heap_blocks :=
             if should_use_heap rlim_cur (required_stack C) then 1 else 0 |}.
Proof.
  intros HC. unfold split_csv.
  rewrite size_add_small by exact HC.
  pose proof (len_ALLOCATE_BUFFER junk (C + 10)) as H0.
  revert H0. generalize (ALLOCATE_BUFFER junk (C + 10)). intros b0 H0.
  rewrite store_in_bounds by lia. cbn [bind].
  pose proof (len_store b0 C LF ltac:(lia)) as H1. rewrite H0 in H1.
  revert H1. generalize (take C b0 ++ LF :: drop (C + 1) b0). intros b1 H1.
  rewrite store_in_bounds by lia. cbn [bind].
  pose proof (len_store b1 (C + 1) COMMA ltac:(lia)) as H2.
  rewrite H1 in H2.
  revert H2.
  generalize (take (C + 1) b1 ++ COMMA :: drop (C + 1 + 1) b1).
  intros b2 H2.
  rewrite store_in_bounds by lia. cbn [bind].
  pose proof (len_store b2 (C + 2) DQUOTE ltac:(lia)) as H3.
  rewrite H2 in H3.
  eexists. split; [exact H3|]. reflexivity.
Qed.

Lemma quote_field_roundtrip (value : list byte) :
  decode_field (quote_field value) = Some value.
Proof.
  unfold decode_field, quote_field.
  change (Byte.eqb DQUOTE DQUOTE) with true. cbv iota.
  induction value as [|b value IH].
  - reflexivity.
  - unfold escape in *. cbn [flat_map].
    destruct (Byte.eqb b DQUOTE) eqn:E.
    + apply Byte.byte_dec_bl in E. subst b.
      cbn [app unescape].
      change (Byte.eqb DQUOTE DQUOTE) with true. cbv iota.
      rewrite IH. reflexivity.
    + cbn [app unescape]. rewrite E, IH. reflexivity.
Qed.

Lemma lines_from_quoted (value line : list byte) :
  lines_from true line (escape value ++ [DQUOTE; LF])
  = [line ++ escape value ++ [DQUOTE]].
Proof.
  revert line. induction value as [|b value IH]; intros line.
  - reflexivity.
  - unfold escape in *. cbn [flat_map].
    destruct (Byte.eqb b DQUOTE) eqn:E.
    + apply Byte.byte_dec_bl in E. subst b.
      cbn [app lines_from].
      change (Byte.eqb DQUOTE DQUOTE) with true. cbv iota. cbn [negb].
      change (Byte.eqb DQUOTE DQUOTE) with true. cbv iota. cbn [negb].
      rewrite IH, <- !app_assoc. reflexivity.
    + cbn [app lines_from]. rewrite E, IH, <- !app_assoc. reflexivity.
Qed.

Lemma lines_quote_field (value : list byte) :
  lines (quote_field value ++ [LF]) = [quote_field value].
Proof.
  unfold lines, quote_field. cbn [app lines_from].
  change (Byte.eqb DQUOTE DQUOTE) with true. cbv iota. cbn [negb].
  rewrite <- app_assoc. cbn [app].
  apply (lines_from_quoted value [DQUOTE]).
Qed.

(** At the end of the chunk the inner loop hands over to [read]. *)
Lemma run_states_at_end (C : N) (rlim_cur : option N)
  (can_create : string -> bool) (junk : N -> byte) (fuel : nat)
  (name : string) (m : Machine) :
  run_states C rlim_cur can_create junk fuel name m (NEWLINE_SENTINEL m)
  = Ok m.
Proof.
  destruct fuel; cbn [run_states]; rewrite N.eqb_refl; reflexivity.
Qed.

Section QuotedRecordRun.

Variable C : N.
Variable rlim_cur : option N.
Variable can_create : string -> bool.
Variable junk : N -> byte.
Variable name : string.
Variable value : list byte.

Let record : list byte := quote_field value ++ [LF].

Lemma len_record : len record = 1 + len (escape value) + 2.
Proof.
  unfold record, quote_field. rewrite len_app, len_cons, len_app.
  change (len [DQUOTE]) with 1. change (len [LF]) with 1. lia.
Qed.

Hypothesis Hsize : C + 10 < SIZE_MOD.
Hypothesis Hwindow : len record < C.
Hypothesis Hcreate : can_create (column_path name 0) = true.

(** The first chunk, which holds the whole record, is worked off: one
    column exists, it has received the record as it stands, and the machine
    waits for the next chunk in [OnRowInitial]. *)
Lemma process_record_chunk (x0 x1 x2 : byte) (tail : list byte) (heap : N) :
  len (record ++ x0 :: x1 :: x2 :: tail) = C + 10 ->
  exists column buf nn heap',
    process_chunk C rlim_cur can_create junk name
      {| input_buffer := record ++ x0 :: x1 :: x2 :: tail;
         NEWLINE_SENTINEL := C;
         COMMA_SENTINEL := C + 1;
         DQUOTE_SENTINEL := C + 2;
         next_newline := 0;
         column_infos := [];
         current_row := 0;
         current_column := 0;
         current_state := OnColumnInitial;
         heap_blocks := heap |} (len record)
    = Ok (machine_at (len record) buf nn [column] 0 1 OnRowInitial heap') /\
    column_output column = record /\
    path (output_fd column) = column_path name 0.
Proof.
  intros Hlen.
  pose proof len_record as Hn.
  set (B := record_buffer value tail).
  assert (HlenB : len B = C + 10).
  { rewrite <- Hlen. unfold B, record_buffer. fold record.
    rewrite !len_app, !len_cons. reflexivity. }
  unfold process_chunk. fields.
  destruct (N.eqb_spec (len record) C) as [E|_]; [lia|]. fields.
  rewrite (store_sentinels record x0 x1 x2 tail (len record) _ eq_refl).
  fields.
  change (CSVState_eqb OnColumnInitial OnRowInitial) with false. fields.
  change (record ++ LF :: COMMA :: DQUOTE :: tail) with B.
  (* the first record separator of the chunk *)
  pose proof (record_separator_at value tail) as Hsep. cbv zeta in Hsep.
  fold B in Hsep.
  pose proof (newline_sentinel_at value tail) as Hsent. cbv zeta in Hsent.
  fold B in Hsent.
  pose proof (closing_quote_at value tail) as Hcq. cbv zeta in Hcq.
  fold B in Hcq.
  assert (Hopen : byte_at B 0 DQUOTE) by reflexivity.
  assert (Hquote_lf : DQUOTE <> LF) by discriminate.
  destruct (first_from_exists LF B 0 (1 + len (escape value) + 1)) as
    (nn & Hnn & Hnn_le); [lia | exact Hsep |].
  assert (Hnn_at : byte_at B nn LF) by (apply Hnn).
  assert (Hnn_pos : nn <> 0).
  { intros ->. apply Hquote_lf.
    exact (byte_at_unique _ _ _ _ Hopen Hnn_at). }
  change (set_sentinels _ _)
    with (machine_at (len record) B 0 [] 0 0 OnColumnInitial heap).
  rewrite (find_next_newline_at (len record) B 0 0 nn) by (assumption || lia).
  fields.
  (* two passes through the switch are enough *)
  assert (Hfuel : exists fuel,
             (S (2 * length (set_byte B nn COMMA)) = S (S fuel))%nat).
  { assert (len (set_byte B nn COMMA) = C + 10)
      by (rewrite len_set_byte; [exact HlenB | eapply byte_at_len; eauto]).
    unfold len in H.
    destruct (length (set_byte B nn COMMA)) as [|l]; [lia|].
    eexists. cbn [Nat.mul Nat.add]. reflexivity. }
  destruct Hfuel as (fuel & ->).
  cbn [run_states]. fields.
  destruct (N.eqb_spec 0 (len record)) as [E|_]; [lia|].
  (* [OnColumnInitial] on the opening quote *)
  unfold dispatch at 1. fields. unfold on_column_initial.
  rewrite (load_byte_at _ _ DQUOTE)
    by (apply byte_at_set_byte_other;
        [eapply byte_at_len; exact Hnn_at | congruence | exact Hopen]).
  fields. change (Byte.eqb DQUOTE DQUOTE) with true. cbv iota.
  unfold CHECK_AND_CREATE_COLUMN. fields.
  change (0 =? size []) with true. cbv iota.
  unfold CREATE_COLUMN_INFO.
  change (String.append name
            (String.append (sprintf_03zu (size_add (size []) 1)) ".csv"))
    with (column_path name 0).
  rewrite Hcreate. fields.
  set (column0 := {| output_fd := {| path := column_path name 0;
                                     written := [] |};
                     buffer := ALLOCATE_BUFFER junk C;
                     buffer_size := C;
                     buffer_position := 0;
                     on_heap := should_use_heap rlim_cur (required_stack C)
                  |}).
  assert (Hwf0 : column_wf column0).
  { unfold column_wf, column0.
    cbn [buffer buffer_size buffer_position].
    rewrite len_ALLOCATE_BUFFER.
    split; [reflexivity|]. split; [lia|]. split; lia. }
  destruct (add_chars_to_column_none column0 LF Hwf0) as
    (column1 & Hrun1 & Hout1 & Hwf1 & Hpath1 & Hsize1).
  rewrite Hrun1. fields. cbn [app].
  set (heap1 := heap + (if on_heap column0 then 1 else 0)).
  change (set_column_infos _ [column1])
    with (machine_at (len record) (set_byte B nn COMMA) nn [column1] 0 0
            OnColumnInitial heap1).
  destruct (add_char_at (len record) (set_byte B nn COMMA) nn column1 0
              OnColumnInitial heap1 DQUOTE Hwf1) as
    (column2 & Hrun2 & Hout2 & Hwf2 & Hpath2 & Hsize2).
  { rewrite Hsize1. unfold column0. cbn [buffer_size]. lia. }
  { rewrite Hsize1. unfold column0. cbn [buffer_size]. lia. }
  rewrite Hrun2. fields.
  change (0 + 1) with 1.
  destruct (N.eqb_spec 1 (len record)) as [E|_]; [lia|].
  (* [InQuotedStringColumn] up to the end of the record *)
  unfold dispatch. fields. unfold in_quoted_string_column. fields.
  destruct (in_quoted_loop_to_end value tail C ltac:(lia) Hsize
              (length value) value [] nn
              (S (length (set_byte B nn COMMA))) column2 0
              InQuotedStringColumn heap1) as
    (column3 & Hrun3 & Hout3 & Hwf3 & Hpath3 & Hsize3).
  { lia. }
  { assert (len (set_byte B nn COMMA) = C + 10)
      by (rewrite len_set_byte; [exact HlenB | eapply byte_at_len; eauto]).
    assert (len value <= len (escape value)).
    { clear. unfold escape, len.
      induction value as [|b v IH]; cbn [flat_map length]; [lia|].
      rewrite length_app. destruct (Byte.eqb b DQUOTE); cbn [length]; lia. }
    unfold len in *. lia. }
  { reflexivity. }
  { exact Hnn_at. }
  { lia. }
  { right. change (1 + len (escape [])) with 1.
    eapply first_from_later; [exact Hnn | lia | ].
    destruct Hnn as (Hge & _). lia. }
  { exact Hwf2. }
  { rewrite Hsize2, Hsize1. unfold column0. cbn [buffer_size]. lia. }
  { rewrite Hsize2, Hsize1. unfold column0. cbn [buffer_size]. lia. }
  change (1 + len (escape [])) with 1 in Hrun3.
  rewrite <- Hn in Hrun3. fold B in Hrun3.
  change (set_current_state _ InQuotedStringColumn)
    with (machine_at (len record) (set_byte B nn COMMA) nn [column2] 0 0
            InQuotedStringColumn heap1).
  rewrite Hrun3. fields.
  match goal with
  | |- context [run_states _ _ _ _ _ _ ?m _] =>
      change (len record) with (NEWLINE_SENTINEL m) at 1
  end.
  rewrite run_states_at_end.
  eexists. eexists. eexists. eexists.
  split; [reflexivity|]. split.
  - rewrite Hout3, Hout2, Hout1. unfold column_output, column0.
    cbn [written output_fd buffer buffer_position]. rewrite take_0.
    unfold record, quote_field. cbn [app]. rewrite <- app_assoc.
    reflexivity.
  - rewrite Hpath3, Hpath2, Hpath1. reflexivity.
Qed.

(** The run on a stream that is this record and nothing else. *)
Lemma split_quoted_record :
  outputs (split_csv C rlim_cur can_create junk [Data record] name)
  = Ok [(column_path name 0, record)].
Proof.
  pose proof len_record as Hn.
  destruct (split_csv_start C rlim_cur can_create junk [Data record] name
              Hsize) as (b & Hb & ->).
  cbn [stream_fuel fold_right]. rewrite Nat.add_1_r.
  cbn [read_loop read].
  destruct (N.leb_spec (len record) C); [|lia].
  destruct (N.eqb_spec (len record) 0) as [E|_]; [lia|].
  cbn [input_buffer].
  rewrite memcpy_fits by lia. cbn [bind].
  rewrite take_0, N.add_0_l, (take_all record) by lia. cbn [app].
  assert (Hrest : len (drop (len record) b) = C + 10 - len record)
    by (rewrite len_drop; lia).
  destruct (drop (len record) b) as [|x0 [|x1 [|x2 tail]]];
    try (rewrite ?len_cons, ?len_nil in Hrest; lia).
  destruct (process_record_chunk x0 x1 x2 tail
              (if should_use_heap rlim_cur (required_stack C) then 1 else 0))
    as (column & buf & nn & heap' & Hrun & Hout & Hpath).
  { rewrite len_app, Hrest. lia. }
  unfold set_input_buffer at 1. fields.
  rewrite Hrun. cbn [bind read_loop read].
  change (len [] =? 0) with true. cbv iota.
  unfold outputs, end_of_input. fields. cbn [map].
  unfold flush_buffer, write. cbn [path written output_fd].
  rewrite Hpath. fold (column_output column). rewrite Hout.
  reflexivity.
Qed.

End QuotedRecordRun.

(** X19: a quoted field that is a record of its own, in a stream that holds
    nothing else and is shorter than the window, reaches its column file
    as it stands in the input, with the embedded field separators, record
    separators and doubled quotes it holds.  For every value, when the
    record made of the quoted field is shorter than the window, comes in
    one piece, and its column file can be created, the run writes exactly
    the record to the first column file; the file has one line, and
    decoding that line by the doubled-quote rule gives the value back. *)
Theorem quoted_field_preserved :
  forall (C : N) (rlim_cur : option N) (can_create : string -> bool)
         (junk : N -> byte) (name : string) (value : list byte),
    C + 10 < SIZE_MOD ->
    len (quote_field value ++ [LF]) < C ->
    can_create (column_path name 0) = true ->
    outputs (split_csv C rlim_cur can_create junk
               [Data (quote_field value ++ [LF])] name)
    = Ok [(column_path name 0, quote_field value ++ [LF])] /\
    lines (quote_field value ++ [LF]) = [quote_field value] /\
    decode_field (quote_field value) = Some value.
Proof.
  intros C rlim_cur can_create junk name value Hsize Hwindow Hcreate.
  split; [|split].
  - apply split_quoted_record; assumption.
  - apply lines_quote_field.
  - apply quote_field_roundtrip.
Qed.

Lemma quoted_field_preserved_witness :
  BUFFER_SIZE + 10 < SIZE_MOD /\
  len (quote_field (bytes "a,b" ++ [DQUOTE] ++ bytes "c") ++ [LF])
  < BUFFER_SIZE /\
  any_path (column_path "" 0) = true /\
  outputs (split_csv BUFFER_SIZE None any_path no_junk
             [Data (quote_field (bytes "a,b" ++ [DQUOTE] ++ bytes "c")
                    ++ [LF])] "")
  = Ok [("001.csv"%string,
         [DQUOTE] ++ bytes "a,b" ++ [DQUOTE; DQUOTE] ++ bytes "c"
         ++ [DQUOTE; LF])] /\
  decode_field ([DQUOTE] ++ bytes "a,b" ++ [DQUOTE; DQUOTE] ++ bytes "c"
                ++ [DQUOTE])
  = Some (bytes "a,b" ++ [DQUOTE] ++ bytes "c").
Proof.
  split; [reflexivity|]. split; [reflexivity|]. split; [reflexivity|].
  destruct (quoted_field_preserved BUFFER_SIZE None any_path no_junk ""
              (bytes "a,b" ++ [DQUOTE] ++ bytes "c"))
    as (Hout & _ & Hdecode);
    [reflexivity | reflexivity | reflexivity |].
  split; [exact Hout | exact Hdecode].
Defined.

(* ================================================================= *)
(** ** What the sentinel branch of [InSimpleColumn] copies *)

Lemma nth_error_replaced {A : Type} (l : list A) (i : nat) (a a' : A) :
  nth_error l i = Some a ->
  nth_error (firstn i l ++ a' :: skipn (S i) l) i = Some a'.
Proof.
  intros H.
  assert (Hi : (i < length l)%nat) by (apply nth_error_Some; congruence).
  rewrite nth_error_app2 by (rewrite length_firstn; lia).
  rewrite length_firstn, Nat.min_l by lia.
  rewrite Nat.sub_diag. reflexivity.
Qed.

(** X18: when the scan for the field separator ends on the sentinel, the bytes
    from the cursor up to offset [C], the capacity of the window, go to the
    current column, wherever the valid bytes of the chunk end. *)
Lemma in_simple_column_copies_to_capacity (C : N) (m : Machine)
  (previous_ptr : N) (column : ColumnInfo) :
  nth_error (column_infos m) (N.to_nat (current_column m)) = Some column ->
  column_wf column ->
  rawmemchr (input_buffer m) previous_ptr COMMA = Ok (COMMA_SENTINEL m) ->
  previous_ptr <= C -> C <= len (input_buffer m) -> C < SIZE_MOD ->
  exists m' column',
    in_simple_column C m previous_ptr = Ok (m', read_chunk) /\
    current_state m' = InSimpleColumn /\
    nth_error (column_infos m') (N.to_nat (current_column m'))
    = Some column' /\
    column_output column'
    = column_output column
      ++ take (C - previous_ptr) (drop previous_ptr (input_buffer m)).
Proof.
  intros Hcol Hwf Hscan Hptr Hcap Hmax.
  unfold in_simple_column. rewrite Hscan. cbn [bind].
  rewrite N.eqb_refl.
  unfold distance. rewrite size_sub_small by lia.
  destruct (add_buffer_to_column_appends column
              (drop previous_ptr (input_buffer m)) (C - previous_ptr) Hwf)
    as (column' & Hrun & Hout & _).
  { rewrite len_drop. lia. }
  unfold copy_field, on_column. rewrite Hcol, Hrun. cbn [bind].
  eexists. exists column'. split; [reflexivity|].
  split; [reflexivity|]. split; [|exact Hout].
  cbn [column_infos current_column set_current_state set_column_infos].
  apply (nth_error_replaced _ _ column). exact Hcol.
Qed.

(* ================================================================= *)
(** ** Where [--help] is honoured *)

(** The option loop stops at the first [--help]. *)
Lemma process_arguments_help (args : list string) (prefix : string) :
  In "--help"%string args -> process_arguments args prefix = None.
Proof.
  revert prefix. induction args as [|arg args IH]; intros prefix Hin.
  - destruct Hin.
  - cbn [process_arguments].
    destruct (String.eqb_spec arg "--help") as [E|E]; [reflexivity|].
    destruct Hin as [Hin|Hin]; [congruence|].
    destruct (String.eqb (substring 0 9 arg) "--prefix="); apply IH; exact Hin.
Qed.

(** X16: with [--help] among the arguments before the last one, and an
    input that can be opened, the usage text is printed, [split_csv] is not
    called, and [main] returns 0.  The input has been opened by then. *)
Lemma help_among_options :
  forall (rlim_cur : option N) (can_create : string -> bool)
         (junk : N -> byte) (stdin : list ReadEvent)
         (open_input : string -> option (list ReadEvent))
         (argv : list string) (input_filename : string)
         (input : list ReadEvent),
    (1 < length argv)%nat ->
    nth_error argv (length argv - 1) = Some input_filename ->
    In "--help"%string (removelast (tl argv)) ->
    (if String.eqb input_filename "-" then Some stdin
     else open_input input_filename) = Some input ->
    main rlim_cur can_create junk stdin open_input argv
    = {| stdout := [help];
         opened := if String.eqb input_filename "-" then []
                   else [input_filename];
         split := None;
         status := Ok 0 |}.
Proof.
  intros rlim_cur can_create junk stdin open_input argv input_filename
         input Hargc Hlast Hhelp Hopen.
  unfold main.
  destruct (Nat.eqb_spec (length argv) 1) as [E|_]; [lia|].
  rewrite Hlast.
  destruct (String.eqb input_filename "-").
  - unfold run_split. rewrite (process_arguments_help _ _ Hhelp).
    reflexivity.
  - rewrite Hopen. unfold run_split.
    rewrite (process_arguments_help _ _ Hhelp). reflexivity.
Qed.

(** X17: with an input that cannot be opened the program leaves with status 1
    before it looks at the options, [--help] or not. *)
Lemma input_is_opened_before_options :
  forall (rlim_cur : option N) (can_create : string -> bool)
         (junk : N -> byte) (stdin : list ReadEvent)
         (open_input : string -> option (list ReadEvent))
         (argv : list string) (input_filename : string),
    (1 < length argv)%nat ->
    nth_error argv (length argv - 1) = Some input_filename ->
    String.eqb input_filename "-" = false ->
    open_input input_filename = None ->
    main rlim_cur can_create junk stdin open_input argv
    = {| stdout := []; opened := [input_filename]; split := None;
         status := Exit 1 |}.
Proof.
  intros rlim_cur can_create junk stdin open_input argv input_filename
         Hargc Hlast Hdash Hopen.
  unfold main.
  destruct (Nat.eqb_spec (length argv) 1) as [E|_]; [lia|].
  rewrite Hlast, Hdash, Hopen. reflexivity.
Qed.

(* ================================================================= *)
(** ** The column sink, as its callers may rely on it *)

Lemma small_column_wf : column_wf small_column.
Proof.
  unfold column_wf, small_column, SIZE_MOD.
  cbn [buffer buffer_size buffer_position].
  split; [reflexivity|]. split; [lia|]. split; [lia | reflexivity].
Qed.

(** X1: [add_buffer_to_column] comes back and appends exactly the first
    [copy_size] bytes of the source to the column, through as many flushes
    as it takes, whenever the source holds that many bytes.  Nothing is
    lost, repeated or reordered, and the column stays well formed. *)
Theorem add_buffer_to_column_exact :
  forall (column : ColumnInfo) (from_buffer : list byte) (copy_size : N),
    column_wf column ->
    copy_size <= len from_buffer ->
    exists column',
      add_buffer_to_column column from_buffer copy_size = Ok column' /\
      column_output column'
      = column_output column ++ take copy_size from_buffer /\
      column_wf column' /\
      path (output_fd column') = path (output_fd column).
Proof.
  intros column from_buffer copy_size Hwf Hsrc.
  destruct (add_buffer_to_column_appends column from_buffer copy_size
              Hwf Hsrc) as (column' & Hrun & Hout & Hwf' & Hpath & _).
  exists column'. split; [exact Hrun|]. split; [exact Hout|].
  split; [exact Hwf' | exact Hpath].
Qed.

Lemma add_buffer_to_column_exact_witness :
  exists column',
    add_buffer_to_column small_column (bytes "defghijklm") 9 = Ok column' /\
    column_output column'
    = column_output small_column ++ take 9 (bytes "defghijklm") /\
    column_wf column' /\
    path (output_fd column') = path (output_fd small_column).
Proof.
  apply (add_buffer_to_column_exact small_column (bytes "defghijklm") 9).
  - exact small_column_wf.
  - vm_compute. discriminate.
Defined.

(** X2: a fill that is shorter than the buffer is appended in full by
    [add_chars_to_column], wherever the position stands: behind the pending
    bytes when it fits there, at the start of the buffer after a flush
    when it does not. *)
Theorem add_chars_to_column_short_fill :
  forall (column : ColumnInfo) (chr : byte) (copy_size : N),
    column_wf column ->
    copy_size < buffer_size column ->
    buffer_position column + copy_size < SIZE_MOD ->
    exists column',
      add_chars_to_column column chr copy_size = Ok column' /\
      column_output column'
      = column_output column ++ repeat chr (N.to_nat copy_size) /\
      column_wf column' /\
      path (output_fd column') = path (output_fd column).
Proof.
  intros column chr copy_size Hwf Hshort Hsum.
  destruct (add_chars_to_column_keeps column chr copy_size Hwf Hsum)
    as (column' & Hrun & Hout & Hwf' & Hpath & _).
  exists column'. split; [exact Hrun|].
  split; [|split; assumption].
  rewrite Hout. unfold fill_kept.
  destruct (buffer_position column + copy_size <=? buffer_size column);
    [reflexivity|].
  destruct (N.leb_spec (buffer_size column) copy_size); [lia|reflexivity].
Qed.

Lemma add_chars_to_column_short_fill_witness :
  exists column',
    add_chars_to_column small_column LF 2 = Ok column' /\
    column_output column'
    = column_output small_column ++ repeat LF (N.to_nat 2) /\
    column_wf column' /\
    path (output_fd column') = path (output_fd small_column).
Proof.
  apply (add_chars_to_column_short_fill small_column LF 2).
  - exact small_column_wf.
  - reflexivity.
  - reflexivity.
Defined.

(** X3: a fill of at least one buffer that does not fit behind the pending
    bytes reaches the column only in part: [add_chars_to_column] comes back
    having appended [copy_size mod buffer_size] copies of the byte. *)
Theorem add_chars_to_column_long_fill :
  forall (column : ColumnInfo) (chr : byte) (copy_size : N),
    column_wf column ->
    buffer_size column <= copy_size ->
    buffer_size column < buffer_position column + copy_size ->
    buffer_position column + copy_size < SIZE_MOD ->
    exists column',
      add_chars_to_column column chr copy_size = Ok column' /\
      column_output column'
      = column_output column
        ++ repeat chr (N.to_nat (copy_size mod buffer_size column)) /\
      column_wf column'.
Proof.
  intros column chr copy_size Hwf Hlong Hbig Hsum.
  destruct (add_chars_to_column_keeps column chr copy_size Hwf Hsum)
    as (column' & Hrun & Hout & Hwf' & _).
  exists column'. split; [exact Hrun|]. split; [|exact Hwf'].
  rewrite Hout. unfold fill_kept.
  destruct (N.leb_spec (buffer_position column + copy_size)
                       (buffer_size column)); [lia|].
  destruct (N.leb_spec (buffer_size column) copy_size); [reflexivity|lia].
Qed.

Lemma add_chars_to_column_long_fill_witness :
  exists column',
    add_chars_to_column small_column LF 9 = Ok column' /\
    column_output column'
    = column_output small_column
      ++ repeat LF (N.to_nat (9 mod buffer_size small_column)) /\
    column_wf column'.
Proof.
  apply (add_chars_to_column_long_fill small_column LF 9).
  - exact small_column_wf.
  - vm_compute. discriminate.
  - reflexivity.
  - reflexivity.
Defined.

(* ================================================================= *)
(** ** The numbers in the file names *)

Lemma uint_of_string_zeros (k : nat) (s : string) (d : Decimal.uint) :
  DecimalString.NilEmpty.uint_of_string s = Some d ->
  exists d',
    DecimalString.NilEmpty.uint_of_string
      (String.append (string_of_list_ascii (repeat "0"%char k)) s)
    = Some d' /\
    N.of_uint d' = N.of_uint d.
Proof.
  intros H. induction k as [|k (d' & IH & Hd')].
  - exists d. split; [exact H | reflexivity].
  - exists (Decimal.D0 d').
    cbn [repeat string_of_list_ascii String.append
         DecimalString.NilEmpty.uint_of_string].
    rewrite IH. split; [reflexivity | exact Hd'].
Qed.

Lemma append_nonempty (s1 s2 : string) :
  s2 <> EmptyString -> String.append s1 s2 <> EmptyString.
Proof.
  destruct s1; cbn [String.append]; [auto | discriminate].
Qed.

Lemma string_of_uint_nonempty (d : Decimal.uint) :
  DecimalString.NilZero.string_of_uint d <> EmptyString.
Proof. destruct d; discriminate. Qed.

Lemma read_id_sprintf_03zu (id : N) : read_id (sprintf_03zu id) = Some id.
Proof.
  unfold read_id, sprintf_03zu.
  set (d := N.to_uint id).
  set (k := (3 - String.length (DecimalString.NilZero.string_of_uint d))%nat).
  assert (Hd : DecimalString.NilEmpty.uint_of_string
                 (DecimalString.NilZero.string_of_uint d) = Some d).
  { assert (Hnz : d <> Decimal.Nil).
    { subst d. destruct id as [|p]; [discriminate|].
      apply DecimalPos.Unsigned.to_uint_nonnil. }
    pose proof (DecimalString.NilZero.usu d Hnz) as H.
    unfold DecimalString.NilZero.uint_of_string in H.
    destruct (DecimalString.NilZero.string_of_uint d) eqn:E;
      [|exact H].
    exfalso. exact (string_of_uint_nonempty d E). }
  destruct (uint_of_string_zeros k _ _ Hd) as (d' & Hrun & Hval).
  unfold DecimalString.NilZero.uint_of_string.
  destruct (String.append (string_of_list_ascii (repeat "0"%char k))
              (DecimalString.NilZero.string_of_uint d)) eqn:E.
  - exfalso. revert E. apply append_nonempty, string_of_uint_nonempty.
  - rewrite Hrun. cbn [option_map]. rewrite Hval. subst d.
    rewrite DecimalN.Unsigned.of_to. reflexivity.
Qed.

(** X4: the number that [CREATE_COLUMN_INFO] prints with [%03zu] can be read
    back from its digits, whatever its size: above 999 no digit is cut off.
    The text is at least three characters long. *)
Theorem column_number_roundtrip :
  forall id : N,
    read_id (sprintf_03zu id) = Some id /\
    (3 <= String.length (sprintf_03zu id))%nat.
Proof.
  intros id. split; [apply read_id_sprintf_03zu | apply sprintf_03zu_length].
Qed.

Lemma append_cancel_l (s a b : string) :
  String.append s a = String.append s b -> a = b.
Proof.
  induction s as [|c s IH]; cbn [String.append]; intros H; [exact H|].
  injection H as H. exact (IH H).
Qed.

Lemma append_cancel_r (a b s : string) :
  String.append a s = String.append b s -> a = b.
Proof.
  revert b. induction a as [|x a IH]; intros [|y b] H;
    cbn [String.append] in H.
  - reflexivity.
  - exfalso. apply (f_equal String.length) in H.
    cbn [String.length] in H. rewrite length_append in H. lia.
  - exfalso. apply (f_equal String.length) in H.
    cbn [String.length] in H. rewrite length_append in H. lia.
  - injection H as -> H. rewrite (IH _ H). reflexivity.
Qed.

Lemma column_path_injective (name : string) (i j : nat) :
  N.of_nat i + 1 < SIZE_MOD -> N.of_nat j + 1 < SIZE_MOD ->
  column_path name i = column_path name j -> i = j.
Proof.
  unfold column_path. intros Hi Hj H.
  apply append_cancel_l, append_cancel_r in H.
  apply (f_equal read_id) in H.
  rewrite !read_id_sprintf_03zu in H. injection H as H.
  rewrite !size_add_small in H by assumption. lia.
Qed.

(** When [split_csv] comes back, every column has the path of its
    position. *)
Lemma split_csv_paths (C : N) (rlim_cur : option N)
  (can_create : string -> bool) (junk : N -> byte)
  (input : list ReadEvent) (name : string) (m : Machine) :
  split_csv C rlim_cur can_create junk input name = Ok m ->
  paths_ok name (column_infos m).
Proof.
  intros Hrun. unfold split_csv in Hrun. came_back.
  apply read_loop_paths with (name := name) in Hrun; [exact Hrun|].
  reflexivity.
Qed.

Lemma paths_ok_nth (name : string) (cs : list ColumnInfo) (i : nat)
  (column : ColumnInfo) :
  paths_ok name cs -> nth_error cs i = Some column ->
  path (output_fd column) = column_path name i.
Proof.
  unfold paths_ok, column_paths. intros H Hnth.
  apply (f_equal (fun l => nth_error l i)) in H.
  rewrite nth_error_map, Hnth in H. cbn [option_map] in H.
  rewrite nth_error_map in H.
  assert (Hi : (i < length cs)%nat) by (apply nth_error_Some; congruence).
  rewrite nth_error_seq in H.
  destruct (Nat.ltb_spec i (length cs)); [|lia].
  cbn [option_map Nat.add] in H. injection H as ->. reflexivity.
Qed.

(** X5: no two columns of a run write to the same file: when [split_csv]
    comes back, columns at different positions of the vector have different
    paths (the number of columns staying below the range of [size_t]). *)
Theorem column_files_are_distinct :
  forall (C : N) (rlim_cur : option N) (can_create : string -> bool)
         (junk : N -> byte) (input : list ReadEvent) (name : string)
         (m : Machine) (i j : nat) (ci cj : ColumnInfo),
    split_csv C rlim_cur can_create junk input name = Ok m ->
    size (column_infos m) < SIZE_MOD ->
    nth_error (column_infos m) i = Some ci ->
    nth_error (column_infos m) j = Some cj ->
    i <> j ->
    path (output_fd ci) <> path (output_fd cj).
Proof.
  intros C rlim_cur can_create junk input name m i j ci cj
         Hrun Hsize Hi Hj Hne Heq.
  pose proof (split_csv_paths _ _ _ _ _ _ _ Hrun) as Hpaths.
  rewrite (paths_ok_nth _ _ _ _ Hpaths Hi) in Heq.
  rewrite (paths_ok_nth _ _ _ _ Hpaths Hj) in Heq.
  assert (Hli : (i < length (column_infos m))%nat)
    by (apply nth_error_Some; congruence).
  assert (Hlj : (j < length (column_infos m))%nat)
    by (apply nth_error_Some; congruence).
  unfold size in Hsize.
  apply Hne, (column_path_injective name); [lia | lia | exact Heq].
Qed.

Lemma column_files_are_distinct_witness :
  match nth_error (column_infos ragged_machine) 0 with
  | Some first_column =>
      path (output_fd first_column) <> path (output_fd ragged_second_column)
  | None => False
  end.
Proof.
  destruct (nth_error (column_infos ragged_machine) 0)
    as [first_column|] eqn:E.
  - apply (column_files_are_distinct 8 None any_path no_junk
             [Data ragged_rows] "out_" ragged_machine 0 1 first_column
             ragged_second_column).
    + vm_compute. reflexivity.
    + reflexivity.
    + exact E.
    + reflexivity.
    + discriminate.
  - discriminate E.
Defined.

(* ================================================================= *)
(** ** The options of [main] *)

Lemma process_arguments_no_help (args : list string) (prefix : string) :
  ~ In "--help"%string args ->
  exists prefix', process_arguments args prefix = Some prefix'.
Proof.
  revert prefix. induction args as [|arg args IH]; intros prefix Hno.
  - exists prefix. reflexivity.
  - cbn [process_arguments].
    destruct (String.eqb_spec arg "--help") as [E|E].
    + exfalso. apply Hno. left. exact E.
    + assert (Hno' : ~ In "--help"%string args)
        by (intros H; apply Hno; right; exact H).
      destruct (String.eqb (substring 0 9 arg) "--prefix="); apply IH;
        exact Hno'.
Qed.

(** X6: the option loop of [main] gives up its prefix and asks for the usage
    text exactly when one of the options it is given is [--help], wherever
    it stands among them and whatever the others are. *)
Theorem help_is_found_among_the_options :
  forall (args : list string) (prefix : string),
    process_arguments args prefix = None <-> In "--help"%string args.
Proof.
  intros args prefix. split.
  - intros Hnone.
    destruct (in_dec string_dec "--help"%string args) as [Hin|Hno];
      [exact Hin|].
    destruct (process_arguments_no_help args prefix Hno) as (p & Hp).
    congruence.
  - apply process_arguments_help.
Qed.

Lemma process_arguments_app (args1 args2 : list string) (prefix : string) :
  process_arguments (args1 ++ args2) prefix
  = match process_arguments args1 prefix with
    | Some prefix' => process_arguments args2 prefix'
    | None => None
    end.
Proof.
  revert prefix. induction args1 as [|arg args1 IH]; intros prefix;
    cbn [app process_arguments]; [reflexivity|].
  destruct (String.eqb arg "--help"); [reflexivity|].
  destruct (String.eqb (substring 0 9 arg) "--prefix="); apply IH.
Qed.

Lemma substring_all (s : string) : substring 0 (String.length s) s = s.
Proof.
  induction s as [|c s IH]; cbn [String.length substring]; [reflexivity|].
  rewrite IH. reflexivity.
Qed.

Lemma process_arguments_prefix (value prefix : string) :
  process_arguments [String.append "--prefix=" value] prefix = Some value.
Proof.
  cbn [process_arguments String.append].
  replace (substring 0 9 _) with "--prefix="%string
    by (cbn [substring]; destruct value; reflexivity).
  cbn [String.eqb Ascii.eqb Bool.eqb String.length Nat.sub substring].
  rewrite Nat.sub_0_r, substring_all. reflexivity.
Qed.

(** X7: with no [--help] among the options, the text behind [--prefix=] in
    the last option before the input name is the name [split_csv] is called
    with, whatever prefixes the options before it give; nothing is printed,
    and the status is the one [split_csv] leaves. *)
Theorem last_prefix_option_names_the_columns :
  forall (rlim_cur : option N) (can_create : string -> bool)
         (junk : N -> byte) (stdin : list ReadEvent)
         (open_input : string -> option (list ReadEvent))
         (program : string) (options : list string)
         (prefix input_filename : string) (input : list ReadEvent),
    ~ In "--help"%string options ->
    (if String.eqb input_filename "-" then Some stdin
     else open_input input_filename) = Some input ->
    main rlim_cur can_create junk stdin open_input
      (program :: options
         ++ [String.append "--prefix=" prefix; input_filename])
    = {| stdout := [];
         opened := if String.eqb input_filename "-" then []
                   else [input_filename];
         split := Some (split_csv BUFFER_SIZE rlim_cur can_create junk
                          input prefix);
         status := after_split
                     (split_csv BUFFER_SIZE rlim_cur can_create junk
                        input prefix) |}.
Proof.
  intros rlim_cur can_create junk stdin open_input program options prefix
         input_filename input Hno Hopen.
  set (argv := program :: options
                 ++ [String.append "--prefix=" prefix; input_filename]).
  assert (Hargv : argv
                  = (program :: options ++ [String.append "--prefix=" prefix])
                    ++ [input_filename]).
  { subst argv. cbn [app]. rewrite <- app_assoc. reflexivity. }
  assert (Hlen : length argv = S (S (S (length options)))).
  { subst argv. cbn [length]. rewrite length_app. cbn [length]. lia. }
  assert (Hlast : nth_error argv (length argv - 1) = Some input_filename).
  { rewrite Hlen, Hargv.
    rewrite nth_error_app2
      by (cbn [length]; rewrite length_app; cbn [length]; lia).
    cbn [length]. rewrite length_app. cbn [length].
    replace (S (S (S (length options))) - 1 - S (length options + 1))%nat
      with 0%nat by lia.
    reflexivity. }
  assert (Hopts : process_arguments (removelast (tl argv)) ""
                  = Some prefix).
  { subst argv. cbn [tl].
    replace (options ++ [String.append "--prefix=" prefix; input_filename])
      with ((options ++ [String.append "--prefix=" prefix])
            ++ [input_filename])
      by (rewrite <- app_assoc; reflexivity).
    rewrite removelast_last, process_arguments_app.
    destruct (process_arguments_no_help options "" Hno) as (p & ->).
    apply process_arguments_prefix. }
  unfold main. rewrite Hlast, Hlen. cbn [Nat.eqb].
  destruct (String.eqb input_filename "-").
  - injection Hopen as ->. unfold run_split. rewrite Hopts. reflexivity.
  - rewrite Hopen. unfold run_split. rewrite Hopts. reflexivity.
Qed.

Lemma last_prefix_option_names_the_columns_witness :
  main None any_path no_junk [] (fun _ => None)
    ("split_csv" :: ["--prefix=a"; "--verbose"]
       ++ [String.append "--prefix=" "col"; "-"])%string
  = {| stdout := [];
       opened := [];
       split := Some (split_csv BUFFER_SIZE None any_path no_junk [] "col");
       status := after_split
                   (split_csv BUFFER_SIZE None any_path no_junk [] "col") |}.
Proof.
  apply (last_prefix_option_names_the_columns None any_path no_junk []
           (fun _ => None) "split_csv" ["--prefix=a"; "--verbose"]%string
           "col" "-" []).
  - intros [H|[H|[]]]; discriminate H.
  - reflexivity.
Defined.

(** X8: [main] returns 1 exactly when it is called without any argument
    (every other failure leaves through [exit], an assertion or not at all);
    it has then printed the usage text, opened nothing and split nothing. *)
Theorem main_returns_1_without_arguments :
  forall (rlim_cur : option N) (can_create : string -> bool)
         (junk : N -> byte) (stdin : list ReadEvent)
         (open_input : string -> option (list ReadEvent))
         (argv : list string),
    status (main rlim_cur can_create junk stdin open_input argv) = Ok 1
    <-> main rlim_cur can_create junk stdin open_input argv
        = {| stdout := [help]; opened := []; split := None;
             status := Ok 1 |} /\
        length argv = 1%nat.
Proof.
  intros rlim_cur can_create junk stdin open_input argv.
  assert (Hsplit : forall opened input,
            status (run_split rlim_cur can_create junk opened input argv)
            <> Ok 1).
  { intros opened input. unfold run_split.
    destruct (process_arguments (removelast (tl argv)) "");
      cbn [status]; [|discriminate].
    unfold after_split.
    destruct (split_csv BUFFER_SIZE rlim_cur can_create junk input s);
      cbn [bind]; discriminate. }
  split.
  - unfold main.
    destruct (Nat.eqb_spec (length argv) 1) as [E|E].
    + intros _. split; [reflexivity | exact E].
    + destruct (nth_error argv (length argv - 1)) as [input_filename|];
        [|discriminate].
      destruct (String.eqb input_filename "-").
      * intros H. exfalso. exact (Hsplit _ _ H).
      * destruct (open_input input_filename) as [input|];
          [|discriminate].
        intros H. exfalso. exact (Hsplit _ _ H).
  - intros (-> & _). reflexivity.
Qed.

Lemma help_among_options_witness :
  main None any_path no_junk [] (fun _ => None)
    ["split_csv"; "--prefix=col"; "--help"; "-"]%string
  = {| stdout := [help]; opened := []; split := None; status := Ok 0 |}.
Proof.
  apply (help_among_options None any_path no_junk [] (fun _ => None)
           ["split_csv"; "--prefix=col"; "--help"; "-"]%string "-" []).
  - cbn [length]. lia.
  - reflexivity.
  - right. left. reflexivity.
  - reflexivity.
Defined.

Lemma input_is_opened_before_options_witness :
  main None any_path no_junk [] (fun _ => None)
    ["split_csv"; "--help"; "missing.csv"]%string
  = {| stdout := []; opened := ["missing.csv"%string]; split := None;
       status := Exit 1 |}.
Proof.
  apply (input_is_opened_before_options None any_path no_junk []
           (fun _ => None) ["split_csv"; "--help"; "missing.csv"]%string
           "missing.csv").
  - cbn [length]. lia.
  - reflexivity.
  - reflexivity.
  - reflexivity.
Defined.

(* ================================================================= *)
(** ** What every run keeps *)

(** A property of the columns and of the count of heap blocks that every
    call of the sink and every creation of a column keep is kept by the
    whole run, up to the point where the end of the input is met. *)
Section RunInvariant.

Variable C : N.
Variable rlim_cur : option N.
Variable can_create : string -> bool.
Variable junk : N -> byte.
Variable name : string.

Variable P : list ColumnInfo -> N -> Prop.

Hypothesis P_sink :
  forall (cs : list ColumnInfo) (h : N) (i : nat) (c c' : ColumnInfo),
    nth_error cs i = Some c -> sink_step c c' -> P cs h ->
    P (firstn i cs ++ c' :: skipn (S i) cs) h.

Hypothesis P_create :
  forall (cs : list ColumnInfo) (h : N) (info info' : ColumnInfo) (row : N),
    CREATE_COLUMN_INFO C rlim_cur can_create junk name
      (size_add (size cs) 1) = Ok info ->
    add_chars_to_column info LF row = Ok info' ->
    P cs h ->
    P (cs ++ [info']) (h + (if on_heap info then 1 else 0)).

Let Inv (m : Machine) : Prop := P (column_infos m) (heap_blocks m).

Ltac setters :=
  unfold Inv in *;
  cbn [column_infos heap_blocks set_current_state set_current_row
       set_current_column set_input_buffer set_next_newline set_sentinels
       set_heap_blocks set_column_infos]
    in *.

Lemma on_column_kept (m m' : Machine) (i : N)
  (f : ColumnInfo -> Result ColumnInfo) :
  (forall c c', f c = Ok c' -> sink_step c c') ->
  on_column m i f = Ok m' -> Inv m -> Inv m'.
Proof.
  unfold on_column. intros Hf H I.
  destruct (nth_error (column_infos m) (N.to_nat i)) as [c|] eqn:Hnth;
    [|discriminate].
  came_back. setters.
  eapply P_sink; [exact Hnth | apply Hf; eassumption | exact I].
Qed.

Lemma add_chars_is_sink_step (chr : byte) (n : N) (c c' : ColumnInfo) :
  add_chars_to_column c chr n = Ok c' -> sink_step c c'.
Proof. intros H. left. exists chr, n. exact H. Qed.

Lemma add_buffer_is_sink_step (from_buffer : list byte) (n : N)
  (c c' : ColumnInfo) :
  add_buffer_to_column c from_buffer n = Ok c' -> sink_step c c'.
Proof. intros H. right. exists from_buffer, n. exact H. Qed.

Lemma on_column_incr_kept (m m' : Machine) (chr : byte) (n : N) :
  on_column_incr m (fun c => add_chars_to_column c chr n) = Ok m' ->
  Inv m -> Inv m'.
Proof.
  unfold on_column_incr. intros H I. came_back. setters.
  eapply on_column_kept in E; [exact E | | exact I].
  intros c c'. apply add_chars_is_sink_step.
Qed.

Lemma end_field_kept (m m' : Machine) :
  end_field m = Ok m' -> Inv m -> Inv m'.
Proof. apply on_column_incr_kept. Qed.

Lemma add_chars_on_column_kept (m m' : Machine) (chr : byte) (n : N) :
  on_column m (current_column m) (fun c => add_chars_to_column c chr n)
  = Ok m' ->
  Inv m -> Inv m'.
Proof.
  intros H I. eapply on_column_kept; [|exact H|exact I].
  intros c c'. apply add_chars_is_sink_step.
Qed.

Lemma copy_field_kept (m m' : Machine) (previous_ptr copy_size : N) :
  copy_field m previous_ptr copy_size = Ok m' -> Inv m -> Inv m'.
Proof.
  unfold copy_field. intros H I.
  eapply on_column_kept; [|exact H|exact I].
  intros c c'. apply add_buffer_is_sink_step.
Qed.

Lemma find_next_newline_kept (m m' : Machine) (from : N) :
  find_next_newline m from = Ok m' -> Inv m -> Inv m'.
Proof.
  unfold find_next_newline. intros H I. came_back; setters; exact I.
Qed.

Lemma CHECK_AND_CREATE_COLUMN_kept (m m' : Machine) :
  CHECK_AND_CREATE_COLUMN C rlim_cur can_create junk name m = Ok m' ->
  Inv m -> Inv m'.
Proof.
  unfold CHECK_AND_CREATE_COLUMN. intros H I. came_back; setters.
  - eapply P_create; eassumption.
  - exact I.
Qed.

Lemma pad_row_kept (fuel : nat) (m m' : Machine) :
  pad_row fuel m = Ok m' -> Inv m -> Inv m'.
Proof.
  revert m. induction fuel as [|fuel IH]; intros m H I;
    cbn [pad_row] in H.
  - came_back. exact I.
  - destruct (negb (current_column m =? size (column_infos m))).
    + came_back. eapply IH; [eassumption|].
      eapply on_column_incr_kept; eassumption.
    + came_back. exact I.
Qed.

(** One step back along the calls that brought the machine here. *)
Ltac kept_step :=
  setters;
  first
    [ eassumption
    | eapply end_field_kept; [eassumption|]
    | eapply add_chars_on_column_kept; [eassumption|]
    | eapply copy_field_kept; [eassumption|]
    | eapply find_next_newline_kept; [eassumption|]
    | eapply CHECK_AND_CREATE_COLUMN_kept; [eassumption|]
    | eapply pad_row_kept; [eassumption|] ].

Ltac kept := repeat kept_step.

Lemma on_column_initial_kept (m m' : Machine) (p : N) (j : Jump) :
  on_column_initial C rlim_cur can_create junk name m p = Ok (m', j) ->
  Inv m -> Inv m'.
Proof.
  unfold on_column_initial. intros H I. came_back; kept.
Qed.

Lemma on_row_initial_kept (m m' : Machine) (p : N) (j : Jump) :
  on_row_initial C rlim_cur can_create junk name m p = Ok (m', j) ->
  Inv m -> Inv m'.
Proof.
  unfold on_row_initial. intros H I. came_back.
  eapply on_column_initial_kept; [eassumption|]. kept.
Qed.

Lemma in_simple_column_kept (m m' : Machine) (p : N) (j : Jump) :
  in_simple_column C m p = Ok (m', j) -> Inv m -> Inv m'.
Proof.
  unfold in_simple_column. intros H I. came_back; kept.
Qed.

Lemma in_quoted_loop_kept (fuel : nat) (m m' : Machine)
  (p last_read : N) (j : Jump) :
  in_quoted_loop C fuel m p last_read = Ok (m', j) -> Inv m -> Inv m'.
Proof.
  revert m last_read. induction fuel as [|fuel IH];
    intros m last_read H I; cbn [in_quoted_loop] in H.
  - discriminate.
  - destruct (rawmemchr (input_buffer m) last_read DQUOTE)
      as [next_ptr| | | |]; cbn [bind] in H; try discriminate.
    match type of H with
    | bind ?e _ = _ => destruct e as [m1| | | |] eqn:E1;
                       cbn [bind] in H; try discriminate
    end.
    assert (I1 : Inv m1).
    { unfold scanned_past_newline in E1.
      destruct (next_newline m <? next_ptr); came_back; kept. }
    clear E1.
    destruct (next_ptr =? DQUOTE_SENTINEL m1).
    { came_back. kept. }
    destruct (next_ptr =? size_sub C 1).
    { came_back. kept. }
    destruct (load (input_buffer m1) (next_ptr + 1)) as [b| | | |];
      cbn [bind] in H; try discriminate.
    destruct (Byte.eqb b DQUOTE).
    { eapply IH; eassumption. }
    destruct (Byte.eqb b COMMA).
    { came_back; kept. }
    came_back. kept.
Qed.

Lemma dispatch_kept (m m' : Machine) (p : N) (j : Jump) :
  dispatch C rlim_cur can_create junk name m p = Ok (m', j) ->
  Inv m -> Inv m'.
Proof.
  unfold dispatch. intros H I. destruct (current_state m).
  - eapply on_row_initial_kept; eassumption.
  - eapply on_column_initial_kept; eassumption.
  - eapply in_simple_column_kept; eassumption.
  - eapply in_quoted_loop_kept; eassumption.
  - discriminate.
Qed.

Lemma run_states_kept (fuel : nat) (m m' : Machine) (p : N) :
  run_states C rlim_cur can_create junk fuel name m p = Ok m' ->
  Inv m -> Inv m'.
Proof.
  revert m p. induction fuel as [|fuel IH]; intros m p H I;
    cbn [run_states] in H.
  - came_back. exact I.
  - destruct (p =? NEWLINE_SENTINEL m); [came_back; exact I|].
    destruct (dispatch C rlim_cur can_create junk name m p)
      as [[m1 j]| | | |] eqn:E; cbn [bind] in H; try discriminate.
    apply dispatch_kept in E; [|exact I].
    destruct j.
    + eapply IH; eassumption.
    + came_back. exact E.
Qed.

Lemma process_chunk_kept (m m' : Machine) (bytes_total : N) :
  process_chunk C rlim_cur can_create junk name m bytes_total = Ok m' ->
  Inv m -> Inv m'.
Proof.
  unfold process_chunk. intros H I.
  match type of H with
  | bind ?e _ = _ => destruct e as [m1| | | |] eqn:E1;
                     cbn [bind] in H; try discriminate
  end.
  assert (I1 : Inv m1).
  { destruct (negb (bytes_total =? C)); came_back; kept. }
  match type of H with
  | bind ?e _ = _ => destruct e as [m2| | | |] eqn:E2;
                     cbn [bind] in H; try discriminate
  end.
  assert (I2 : Inv m2).
  { destruct (negb (CSVState_eqb (current_state m1) OnRowInitial));
      came_back; kept. }
  eapply run_states_kept; eassumption.
Qed.

(** A run of the outer loop that comes back has met the end of the input
    with a machine that has the property. *)
Lemma read_loop_kept (fuel : nat) (input_buffer_on_heap : bool)
  (input : list ReadEvent) (m m' : Machine) :
  read_loop C rlim_cur can_create junk fuel input_buffer_on_heap name
    input m = Ok m' ->
  Inv m ->
  exists m0, Inv m0 /\ m' = end_of_input input_buffer_on_heap m0.
Proof.
  revert input m. induction fuel as [|fuel IH]; intros input m H I;
    cbn [read_loop] in H; [discriminate|].
  destruct (read input C) as [[chunk input']|]; [|discriminate].
  destruct (len chunk =? 0).
  - came_back. exists m. split; [exact I | reflexivity].
  - came_back. eapply IH; [eassumption|].
    eapply process_chunk_kept; [eassumption|]. kept.
Qed.


End RunInvariant.

(* ================================================================= *)
(** ** The end of a run: buffers and heap *)









Lemma Forall_replaced {A : Type} (Q : A -> Prop) (l : list A) (i : nat)
  (a' : A) :
  Forall Q l -> Q a' -> Forall Q (firstn i l ++ a' :: skipn (S i) l).
Proof.
  intros Hl Ha.
  pose proof Hl as H1. rewrite <- (firstn_skipn i l) in H1.
  apply Forall_app in H1.
  pose proof Hl as H2. rewrite <- (firstn_skipn (S i) l) in H2.
  apply Forall_app in H2.
  apply Forall_app. split; [exact (proj1 H1)|].
  constructor; [exact Ha | exact (proj2 H2)].
Qed.




(* ================================================================= *)
(** ** Errors of [read] and [open] *)

Lemma len_pos_nonempty (l : list byte) : l <> [] -> 0 < len l.
Proof. destruct l; [congruence|]. intros _. rewrite len_cons. lia. Qed.

Lemma read_loop_read_error (C : N) (rlim_cur : option N)
  (can_create : string -> bool) (junk : N -> byte)
  (input_buffer_on_heap : bool) (name : string)
  (rest : list ReadEvent) (fuel : nat) :
  0 < C ->
  forall (chunks : list (list byte)) (m m' : Machine),
    Forall (fun chunk => chunk <> []) chunks ->
    read_loop C rlim_cur can_create junk fuel input_buffer_on_heap name
      (map Data chunks ++ ReadError :: rest) m
    <> Ok m'.
Proof.
  intros HC. induction fuel as [|fuel IH]; intros chunks m m' Hchunks;
    cbn [read_loop]; [discriminate|].
  destruct chunks as [|chunk chunks]; cbn [map app read]; [discriminate|].
  inversion Hchunks as [|? ? Hchunk Hrest]; subst.
  apply len_pos_nonempty in Hchunk.
  destruct (N.leb_spec (len chunk) C) as [Hle|Hgt].
  - destruct (N.eqb_spec (len chunk) 0) as [E|_]; [lia|].
    destruct (memcpy (input_buffer m) 0 chunk (len chunk));
      cbn [bind]; try discriminate.
    destruct (process_chunk C rlim_cur can_create junk name _ _);
      cbn [bind]; try discriminate.
    apply IH. exact Hrest.
  - rewrite len_take by lia.
    destruct (N.eqb_spec C 0) as [E|_]; [lia|].
    destruct (memcpy (input_buffer m) 0 (take C chunk) C);
      cbn [bind]; try discriminate.
    destruct (process_chunk C rlim_cur can_create junk name _ _);
      cbn [bind]; try discriminate.
    apply (IH (drop C chunk :: chunks)).
    constructor; [|exact Hrest].
    intros E. apply (f_equal len) in E. rewrite len_drop in E.
    change (len []) with 0 in E. lia.
Qed.

(** The first read fails: the run leaves through [exit(1)]. *)
Lemma first_read_fails (C : N) (rlim_cur : option N)
  (can_create : string -> bool) (junk : N -> byte)
  (rest : list ReadEvent) (name : string) :
  C + 10 < SIZE_MOD ->
  split_csv C rlim_cur can_create junk (ReadError :: rest) name = Exit 1.
Proof.
  intros HC.
  destruct (split_csv_start C rlim_cur can_create junk (ReadError :: rest)
              name HC) as (b & _ & ->).
  reflexivity.
Qed.

(** X11: an error of [read] never ends in a normal return.  When the first
    [read] fails, [split_csv] leaves through [exit(1)]; when the stream
    delivers some chunks first, none of them empty, and then fails,
    [split_csv] does not come back, however the chunks are cut into
    windows, so the status of the program is not 0. *)
Theorem read_error_is_no_success :
  forall (C : N) (rlim_cur : option N) (can_create : string -> bool)
         (junk : N -> byte) (chunks : list (list byte))
         (rest : list ReadEvent) (name : string),
    0 < C -> C + 10 < SIZE_MOD ->
    Forall (fun chunk => chunk <> []) chunks ->
    split_csv C rlim_cur can_create junk (ReadError :: rest) name = Exit 1 /\
    after_split
      (split_csv C rlim_cur can_create junk
         (map Data chunks ++ ReadError :: rest) name)
    <> Ok 0.
Proof.
  intros C rlim_cur can_create junk chunks rest name HC Hmax Hchunks.
  split; [apply first_read_fails; exact Hmax|].
  unfold after_split.
  destruct (split_csv C rlim_cur can_create junk
              (map Data chunks ++ ReadError :: rest) name) as [m| | | |] eqn:E;
    cbn [bind]; try discriminate.
  exfalso. revert E. unfold split_csv.
  destruct (store _ C LF); cbn [bind]; try discriminate.
  destruct (store _ (C + 1) COMMA); cbn [bind]; try discriminate.
  destruct (store _ (C + 2) DQUOTE); cbn [bind]; try discriminate.
  apply read_loop_read_error; assumption.
Qed.

Lemma read_error_is_no_success_witness :
  split_csv 8 None any_path no_junk (ReadError :: [Data (bytes "c")]) ""
  = Exit 1 /\
  after_split
    (split_csv 8 None any_path no_junk
       (map Data [bytes "a,b"; [LF]] ++ ReadError :: [Data (bytes "c")]) "")
  <> Ok 0.
Proof.
  apply (read_error_is_no_success 8 None any_path no_junk
           [bytes "a,b"; [LF]] [Data (bytes "c")] "").
  - reflexivity.
  - reflexivity.
  - repeat constructor; discriminate.
Defined.

(* ================================================================= *)
(** ** The first chunk of a run *)

Lemma bind_assoc {A B D : Type} (e : Result A) (f : A -> Result B)
  (g : B -> Result D) :
  bind (bind e f) g = bind e (fun a => bind (f a) g).
Proof. destruct e; reflexivity. Qed.

Lemma read_chunk_len (input input' : list ReadEvent) (C : N)
  (chunk : list byte) :
  read input C = Some (chunk, input') -> len chunk <= C.
Proof.
  destruct input as [|[d|] input]; cbn [read]; intros H.
  - injection H as <- _. rewrite len_nil. lia.
  - destruct (N.leb_spec (len d) C) as [Hle|Hgt]; injection H as <- _.
    + exact Hle.
    + rewrite len_take by lia. lia.
  - discriminate.
Qed.

Lemma drop_sentinels (b : list byte) (C : N) :
  len b = C + 10 ->
  byte_at b C LF -> byte_at b (C + 1) COMMA -> byte_at b (C + 2) DQUOTE ->
  exists tail, drop C b = LF :: COMMA :: DQUOTE :: tail.
Proof.
  intros Hlen H0 H1 H2.
  assert (Hrest : len (drop C b) = 10) by (rewrite len_drop; lia).
  rewrite <- (N.add_0_r C) in H0.
  apply (proj2 (byte_at_drop b C 0 LF)) in H0.
  apply (proj2 (byte_at_drop b C 1 COMMA)) in H1.
  apply (proj2 (byte_at_drop b C 2 DQUOTE)) in H2.
  destruct (drop C b) as [|x0 [|x1 [|x2 tail]]];
    try (rewrite ?len_cons, ?len_nil in Hrest; lia).
  unfold byte_at in H0, H1, H2. cbn in H0, H1, H2.
  injection H0 as ->. injection H1 as ->. injection H2 as ->.
  exists tail. reflexivity.
Qed.

(** The start of [split_csv] once more, with the sentinels it puts behind
    the window. *)
Lemma split_csv_start_sentinels (C : N) (rlim_cur : option N)
  (can_create : string -> bool) (junk : N -> byte)
  (input : list ReadEvent) (name : string) :
  C + 10 < SIZE_MOD ->
  exists b,
    len b = C + 10 /\
    byte_at b C LF /\ byte_at b (C + 1) COMMA /\ byte_at b (C + 2) DQUOTE /\
    split_csv C rlim_cur can_create junk input name
    = read_loop C rlim_cur can_create junk (stream_fuel input)
        (should_use_heap rlim_cur (required_stack C)) name input
        (machine_at C b 0 [] 0 0 OnColumnInitial
           (if should_use_heap rlim_cur (required_stack C) then 1 else 0)).
Proof.
  intros HC. unfold split_csv.
  rewrite size_add_small by exact HC.
  pose proof (len_ALLOCATE_BUFFER junk (C + 10)) as H0.
  revert H0. generalize (ALLOCATE_BUFFER junk (C + 10)). intros b0 H0.
  rewrite store_set_byte by lia. cbn [bind].
  assert (H1 : len (set_byte b0 C LF) = C + 10)
    by (rewrite len_set_byte; lia).
  rewrite store_set_byte by lia. cbn [bind].
  assert (H2 : len (set_byte (set_byte b0 C LF) (C + 1) COMMA) = C + 10)
    by (rewrite len_set_byte; lia).
  rewrite store_set_byte by lia. cbn [bind].
  eexists. split; [|split; [|split; [|split; [|reflexivity]]]].
  - rewrite len_set_byte; lia.
  - apply byte_at_set_byte_other; [lia | lia |].
    apply byte_at_set_byte_other; [lia | lia |].
    apply byte_at_set_byte_same. lia.
  - apply byte_at_set_byte_other; [lia | lia |].
    apply byte_at_set_byte_same. lia.
  - apply byte_at_set_byte_same. lia.
Qed.

(** The first chunk is read and the sentinels stand behind it: what is left
    to do is the search for the first record separator and the walk through
    the states. *)
Lemma split_csv_first_chunk (C : N) (rlim_cur : option N)
  (can_create : string -> bool) (junk : N -> byte)
  (input input' : list ReadEvent) (name : string) (chunk : list byte) :
  C + 10 < SIZE_MOD ->
  read input C = Some (chunk, input') ->
  chunk <> [] ->
  exists tail fuel,
    len tail = C + 7 - len chunk /\
    split_csv C rlim_cur can_create junk input name
    = (m1 <- find_next_newline
               (machine_at (len chunk)
                  (chunk ++ LF :: COMMA :: DQUOTE :: tail) 0 [] 0 0
                  OnColumnInitial
                  (if should_use_heap rlim_cur (required_stack C)
                   then 1 else 0)) 0 ;;
       m2 <- run_states C rlim_cur can_create junk
               (S (2 * length (input_buffer m1))) name m1 0 ;;
       read_loop C rlim_cur can_create junk fuel
         (should_use_heap rlim_cur (required_stack C)) name input' m2) /\
    S fuel = stream_fuel input.
Proof.
  intros HC Hread Hchunk.
  pose proof (read_chunk_len _ _ _ _ Hread) as Hle.
  pose proof (len_pos_nonempty _ Hchunk) as Hpos.
  destruct (split_csv_start_sentinels C rlim_cur can_create junk input name
              HC) as (b & Hb & B0 & B1 & B2 & ->).
  destruct (stream_fuel_pos input) as (fuel & Hfuel). rewrite Hfuel.
  cbn [read_loop]. rewrite Hread.
  destruct (N.eqb_spec (len chunk) 0) as [E|_]; [lia|].
  cbn [machine_at input_buffer].
  rewrite memcpy_fits by lia. cbn [bind].
  rewrite take_0, N.add_0_l, (take_all chunk) by lia. cbn [app].
  unfold process_chunk.
  destruct (N.eqb_spec (len chunk) C) as [Efull|Eshort]; cbn [negb].
  - (* a full window: the sentinels behind it are the ones put there at
       the start *)
    destruct (drop_sentinels b C Hb B0 B1 B2) as (tail & Htail).
    rewrite Efull, Htail.
    exists tail, fuel. split.
    { apply (f_equal len) in Htail. rewrite len_drop, !len_cons in Htail.
      lia. }
    split; [|reflexivity].
    cbn [bind set_input_buffer machine_at current_state CSVState_eqb negb].
    rewrite bind_assoc. reflexivity.
  - assert (Hrest : len (drop (len chunk) b) = C + 10 - len chunk)
      by (rewrite len_drop; lia).
    destruct (drop (len chunk) b) as [|x0 [|x1 [|x2 tail]]];
      try (rewrite ?len_cons, ?len_nil in Hrest; lia).
    exists tail, fuel. split.
    { rewrite !len_cons in Hrest. lia. }
    split; [|reflexivity].
    cbn [set_input_buffer machine_at input_buffer].
    rewrite (store_sentinels chunk x0 x1 x2 tail (len chunk)) by reflexivity.
    cbn [bind set_input_buffer set_sentinels machine_at current_state
         CSVState_eqb negb input_buffer NEWLINE_SENTINEL COMMA_SENTINEL
         DQUOTE_SENTINEL next_newline column_infos current_row
         current_column heap_blocks].
    rewrite bind_assoc. reflexivity.
Qed.

Lemma sentinel_newline_at (chunk tail : list byte) :
  byte_at (chunk ++ LF :: COMMA :: DQUOTE :: tail) (len chunk) LF.
Proof.
  rewrite <- (N.add_0_r (len chunk)). apply byte_at_app_r.
  apply byte_at_head. reflexivity.
Qed.

(** The search for the first record separator of a chunk comes back, and
    the byte at the start of the window is then not a record separator. *)
Lemma first_newline_found (chunk tail : list byte) :
  chunk <> [] ->
  exists nn B' b0,
    (forall cols row col st heap,
        find_next_newline
          (machine_at (len chunk) (chunk ++ LF :: COMMA :: DQUOTE :: tail)
             0 cols row col st heap) 0
        = Ok (machine_at (len chunk) B' nn cols row col st heap)) /\
    byte_at B' 0 b0 /\ b0 <> LF.
Proof.
  intros Hchunk.
  set (B := chunk ++ LF :: COMMA :: DQUOTE :: tail).
  pose proof (len_pos_nonempty _ Hchunk) as Hpos.
  pose proof (sentinel_newline_at chunk tail) as Hsent. fold B in Hsent.
  destruct (first_from_exists LF B 0 (len chunk) ltac:(lia) Hsent)
    as (q & Hq & Hle).
  assert (H0 : exists x, byte_at B 0 x).
  { destruct chunk as [|x chunk]; [congruence|].
    exists x. apply byte_at_head. reflexivity. }
  destruct H0 as (x & Hx).
  destruct (N.eq_dec q (len chunk)) as [E|E].
  - subst q. exists (len chunk), B, x. split; [|split].
    + intros. apply find_next_newline_sentinel. exact Hq.
    + exact Hx.
    + intros ->. destruct Hq as (_ & _ & Hfirst).
      apply (Hfirst 0); [lia | lia | exact Hx].
  - destruct (N.eq_dec q 0) as [E0|E0].
    + subst q. exists 0, (set_byte B 0 COMMA), COMMA. split; [|split].
      * intros. apply find_next_newline_at; assumption.
      * apply byte_at_set_byte_same. apply (byte_at_len _ _ _ Hx).
      * discriminate.
    + exists q, (set_byte B q COMMA), x. split; [|split].
      * intros. apply find_next_newline_at; assumption.
      * apply byte_at_set_byte_other; [|lia|exact Hx].
        destruct Hq as (_ & Hat & _). exact (byte_at_len _ _ _ Hat).
      * intros ->. destruct Hq as (_ & _ & Hfirst).
        apply (Hfirst 0); [lia | lia | exact Hx].
Qed.

(** X12: when the file of the first column cannot be created, as with a
    prefix that points into a directory that does not exist, [split_csv]
    leaves through [exit(1)] as soon as the stream has delivered a byte,
    whatever the input is. *)
Theorem unwritable_prefix_exits_1 :
  forall (C : N) (rlim_cur : option N) (can_create : string -> bool)
         (junk : N -> byte) (data : list byte) (rest : list ReadEvent)
         (name : string),
    0 < C -> C + 10 < SIZE_MOD ->
    data <> [] ->
    can_create (column_path name 0) = false ->
    split_csv C rlim_cur can_create junk (Data data :: rest) name = Exit 1.
Proof.
  intros C rlim_cur can_create junk data rest name HC Hmax Hdata Hcreate.
  pose proof (len_pos_nonempty _ Hdata) as Hpos.
  assert (Hread : exists chunk input',
             read (Data data :: rest) C = Some (chunk, input') /\
             chunk <> []).
  { cbn [read]. destruct (N.leb_spec (len data) C) as [Hle|Hgt].
    - exists data, rest. split; [reflexivity | exact Hdata].
    - exists (take C data), (Data (drop C data) :: rest).
      split; [reflexivity|].
      intros E. apply (f_equal len) in E. rewrite len_take in E by lia.
      rewrite len_nil in E. lia. }
  destruct Hread as (chunk & input' & Hread & Hchunk).
  destruct (split_csv_first_chunk C rlim_cur can_create junk _ _ name chunk
              Hmax Hread Hchunk) as (tail & fuel & _ & -> & _).
  destruct (first_newline_found chunk tail Hchunk)
    as (nn & B' & b0 & Hfind & Hat & Hne).
  rewrite Hfind. cbn [bind run_states].
  pose proof (len_pos_nonempty _ Hchunk) as Hn.
  fields.
  destruct (N.eqb_spec 0 (len chunk)) as [E|_]; [lia|].
  unfold dispatch. fields. unfold on_column_initial. fields.
  rewrite (load_byte_at _ _ _ Hat). fields.
  assert (Hcheck : forall st,
            CHECK_AND_CREATE_COLUMN C rlim_cur can_create junk name
              (machine_at (len chunk) B' nn [] 0 0 st
                 (if should_use_heap rlim_cur (required_stack C)
                  then 1 else 0))
            = Exit 1).
  { intros st. unfold CHECK_AND_CREATE_COLUMN. fields.
    change (0 =? size []) with true. cbv iota.
    unfold CREATE_COLUMN_INFO.
    change (String.append name
              (String.append (sprintf_03zu (size_add (size []) 1)) ".csv"))
      with (column_path name 0).
    rewrite Hcreate. reflexivity. }
  destruct (Byte.eqb b0 DQUOTE); [rewrite Hcheck; reflexivity|].
  destruct (Byte.eqb b0 COMMA); [rewrite Hcheck; reflexivity|].
  destruct (Byte.eqb b0 LF) eqn:E.
  { apply Byte.byte_dec_bl in E. contradiction. }
  rewrite Hcheck. reflexivity.
Qed.

Lemma unwritable_prefix_exits_1_witness :
  split_csv 8 None (fun _ => false) no_junk [Data ragged_rows] "missing/col"
  = Exit 1.
Proof.
  apply (unwritable_prefix_exits_1 8 None (fun _ => false) no_junk
           ragged_rows [] "missing/col").
  - reflexivity.
  - reflexivity.
  - discriminate.
  - reflexivity.
Defined.

(* ================================================================= *)
(** ** Steps of the machine on many columns *)

Lemma nth_error_replaced_other {A : Type} (l : list A) (i k : nat) (a' : A) :
  (i < length l)%nat -> k <> i ->
  nth_error (firstn i l ++ a' :: skipn (S i) l) k = nth_error l k.
Proof.
  intros Hi Hk.
  destruct (Nat.lt_ge_cases k i) as [Hlt|Hge].
  - rewrite nth_error_app1 by (rewrite length_firstn; lia).
    rewrite nth_error_firstn.
    destruct (Nat.ltb_spec k i); [reflexivity | lia].
  - rewrite nth_error_app2 by (rewrite length_firstn; lia).
    rewrite length_firstn, Nat.min_l by lia.
    destruct (k - i)%nat as [|d] eqn:E; [lia|].
    cbn [nth_error]. rewrite nth_error_skipn. f_equal. lia.
Qed.












Lemma eqb_false (x y : byte) : x <> y -> Byte.eqb x y = false.
Proof.
  intros H. destruct (Byte.eqb x y) eqn:E; [|reflexivity].
  apply Byte.byte_dec_bl in E. contradiction.
Qed.





(* ================================================================= *)
(** ** What has gone to a column stays *)

(** A call of [add_chars_to_column] that comes back has put bytes behind
    the ones the column had, whatever the count is. *)
Lemma add_chars_to_column_grows (column column' : ColumnInfo) (chr : byte)
  (copy_size : N) :
  column_wf column ->
  add_chars_to_column column chr copy_size = Ok column' ->
  column_wf column' /\
  path (output_fd column') = path (output_fd column) /\
  exists later, column_output column' = column_output column ++ later.
Proof.
  intros Hwf H.
  destruct (N.lt_ge_cases (buffer_position column + copy_size) SIZE_MOD)
    as [Hsum|Hwrap].
  - destruct (add_chars_to_column_keeps column chr copy_size Hwf Hsum)
      as (c & Hrun & Hout & Hwf' & Hpath & _).
    rewrite Hrun in H. injection H as <-.
    split; [exact Hwf'|]. split; [exact Hpath|]. eexists. exact Hout.
  - destruct Hwf as (Hlen & Hpos & Hsize & Hmax).
    unfold add_chars_to_column in H.
    destruct (size_add (buffer_position column) copy_size
              <=? buffer_size column).
    { unfold memset in H.
      destruct (N.leb_spec (buffer_position column + copy_size)
                  (len (buffer column))); [lia | discriminate]. }
    set (column1 := if negb (buffer_position column =? 0)
                    then flush_buffer column else column) in *.
    assert (H1 : buffer_position column1 = 0 /\
                 buffer column1 = buffer column /\
                 buffer_size column1 = buffer_size column /\
                 path (output_fd column1) = path (output_fd column) /\
                 written (output_fd column1) = column_output column).
    { subst column1.
      destruct (N.eqb_spec (buffer_position column) 0) as [E|_];
        cbn [negb].
      - unfold column_output. rewrite E, take_0, app_nil_r.
        repeat split; reflexivity || exact E.
      - repeat split; reflexivity. }
    destruct H1 as (P1 & P2 & P3 & P4 & P5). clearbody column1.
    rewrite P2, P3 in H.
    destruct (N.leb_spec (buffer_size column) copy_size) as [Hbig|Hsmall].
    + rewrite memset_fits in H by lia. cbn [bind] in H.
      rewrite add_chars_loop_at_0 in H.
      * cbn [bind] in H. injection H as <-.
        cbn [set_buffer set_position buffer_size] in *. rewrite P3.
        assert (Hm : copy_size mod buffer_size column < buffer_size column)
          by (apply N.mod_lt; lia).
        split; [|split].
        -- unfold column_wf.
           cbn [set_buffer set_position buffer buffer_size buffer_position].
           rewrite ?P3, ?len_app, ?len_take, ?len_repeat, ?len_drop by lia.
           repeat split; lia.
        -- exact P4.
        -- eexists. unfold column_output at 1.
           cbn [set_buffer set_position buffer buffer_position output_fd].
           rewrite P5. reflexivity.
      * exact P1.
      * cbn [set_buffer buffer_size]. lia.
      * cbn [set_buffer buffer_size]. rewrite P3. lia.
    + rewrite memset_fits in H by lia. cbn [bind] in H.
      injection H as <-.
      split; [|split].
      * unfold column_wf.
        cbn [set_buffer set_position buffer buffer_size buffer_position].
        rewrite ?P3, ?len_app, ?len_take, ?len_repeat, ?len_drop by lia.
        repeat split; lia.
      * exact P4.
      * eexists. unfold column_output at 1.
        cbn [set_buffer set_position buffer buffer_position output_fd].
        rewrite P5. reflexivity.
Qed.

(** The loop of [add_buffer_to_column] takes its bytes from the front of
    the source. *)
Lemma add_buffer_loop_source (fuel : nat) :
  forall (column column' : ColumnInfo) (from_buffer from_buffer' : list byte)
         (copy_size copy_size' remaining_buffer : N),
    add_buffer_loop fuel column from_buffer copy_size remaining_buffer
    = Ok (column', from_buffer', copy_size') ->
    exists k,
      k <= len from_buffer /\ from_buffer' = drop k from_buffer /\
      copy_size = copy_size' + k.
Proof.
  induction fuel as [|fuel IH];
    intros column column' from_buffer from_buffer' copy_size copy_size'
           remaining_buffer H;
    cbn [add_buffer_loop] in H.
  - destruct (remaining_buffer <=? copy_size); [discriminate|].
    injection H as _ <- <-. exists 0.
    split; [lia|]. split; [reflexivity | lia].
  - destruct (N.leb_spec remaining_buffer copy_size) as [Hle|Hgt].
    + unfold memcpy in H.
      destruct (N.leb_spec remaining_buffer (len from_buffer)) as [Hsrc|];
        [|discriminate].
      destruct (buffer_position column + remaining_buffer
                <=? len (buffer column)); [|discriminate].
      cbn [andb bind] in H.
      apply IH in H. destruct H as (k & Hk & -> & Hc).
      rewrite len_drop in Hk.
      exists (remaining_buffer + k).
      split; [lia|]. split; [apply eq_sym, drop_add | lia].
    + injection H as _ <- <-. exists 0.
      split; [lia|]. split; [reflexivity | lia].
Qed.

(** A call of [add_buffer_to_column] that comes back was given a source
    that holds the bytes it was asked to copy. *)
Lemma add_buffer_to_column_source (column column' : ColumnInfo)
  (from_buffer : list byte) (copy_size : N) :
  add_buffer_to_column column from_buffer copy_size = Ok column' ->
  copy_size <= len from_buffer.
Proof.
  unfold add_buffer_to_column. intros H.
  destruct (add_buffer_loop _ _ _ _ _) as [[[c1 src1] n1]| | | |] eqn:E;
    cbn [bind] in H; try discriminate.
  apply add_buffer_loop_source in E. destruct E as (k & Hk & -> & ->).
  destruct (N.eqb_spec n1 0) as [->|_]; cbn [negb] in H; [lia|].
  unfold memcpy in H.
  destruct (N.leb_spec n1 (len (drop k from_buffer))) as [Hsrc|];
    [|discriminate].
  rewrite len_drop in Hsrc. lia.
Qed.

Lemma sink_step_grows (column column' : ColumnInfo) :
  column_wf column -> sink_step column column' ->
  column_wf column' /\
  path (output_fd column') = path (output_fd column) /\
  exists later, column_output column' = column_output column ++ later.
Proof.
  intros Hwf [(chr & n & H)|(src & n & H)].
  - exact (add_chars_to_column_grows _ _ _ _ Hwf H).
  - pose proof (add_buffer_to_column_source _ _ _ _ H) as Hsrc.
    destruct (add_buffer_to_column_appends column src n Hwf Hsrc)
      as (c & Hrun & Hout & Hwf' & Hpath & _).
    rewrite Hrun in H. injection H as <-.
    split; [exact Hwf'|]. split; [exact Hpath|]. eexists. exact Hout.
Qed.

Lemma grown_refl (cs : list ColumnInfo) : Forall column_wf cs -> grown cs cs.
Proof.
  intros Hwf. split; [exact Hwf|]. intros i c Hi.
  exists c, []. split; [exact Hi|]. split; [reflexivity|].
  apply eq_sym, app_nil_r.
Qed.

Lemma grown_sink (before cs : list ColumnInfo) (i : nat)
  (c c' : ColumnInfo) :
  nth_error cs i = Some c -> sink_step c c' -> grown before cs ->
  grown before (firstn i cs ++ c' :: skipn (S i) cs).
Proof.
  intros Hnth Hstep (Hwf & Hall).
  assert (Hc : column_wf c).
  { apply (proj1 (Forall_forall _ _) Hwf). eapply nth_error_In. exact Hnth. }
  destruct (sink_step_grows c c' Hc Hstep) as (Hwf' & Hpath & more & Hout).
  split.
  - apply Forall_replaced; assumption.
  - intros k c0 Hk. destruct (Hall k c0 Hk) as (ck & later & H1 & H2 & H3).
    destruct (Nat.eq_dec k i) as [->|Hne].
    + rewrite Hnth in H1. injection H1 as <-.
      exists c', (later ++ more).
      split; [apply (nth_error_replaced _ _ c c' Hnth)|].
      split; [congruence|]. rewrite Hout, H3. apply eq_sym, app_assoc.
    + exists ck, later.
      rewrite nth_error_replaced_other
        by (exact Hne || (apply nth_error_Some; congruence)).
      split; [exact H1|]. split; assumption.
Qed.


Lemma grown_create (C : N) (rlim_cur : option N)
  (can_create : string -> bool) (junk : N -> byte) (name : string)
  (before cs : list ColumnInfo) (info info' : ColumnInfo) (id row : N) :
  0 < C -> C < SIZE_MOD ->
  CREATE_COLUMN_INFO C rlim_cur can_create junk name id = Ok info ->
  add_chars_to_column info LF row = Ok info' ->
  grown before cs -> grown before (cs ++ [info']).
Proof.
  intros HC Hmax Hinfo Hfill (Hwf & Hall).
  assert (Hfresh : column_wf info).
  { unfold CREATE_COLUMN_INFO in Hinfo.
    destruct (can_create _); [|discriminate]. injection Hinfo as <-.
    unfold column_wf. cbn [buffer buffer_size buffer_position].
    rewrite len_ALLOCATE_BUFFER. repeat split; lia. }
  destruct (add_chars_to_column_grows _ _ _ _ Hfresh Hfill) as (Hwf' & _).
  split.
  - apply Forall_app. split; [exact Hwf|]. constructor; [exact Hwf'|].
    constructor.
  - intros i c Hi. destruct (Hall i c Hi) as (c' & later & H1 & H2 & H3).
    exists c', later. split; [|split; assumption].
    rewrite nth_error_app1; [exact H1|].
    apply nth_error_Some. congruence.
Qed.

(** X10: what has gone to a column stays in it, and is in its file when
    the run comes back.  Take the machine as it stands between two calls of
    [read], in whatever state, with whatever columns (well formed), and
    whatever input is still to come: when the loop comes back, every column
    the machine had is still at its position and under its path, and its
    file holds everything that had gone to the column by then (what was in
    the file and what was waiting in the buffer), followed by what has gone
    to it since, which is nothing when the input was at its end; and no
    buffer has a byte waiting. *)
Theorem nothing_sent_to_a_column_is_lost :
  forall (C : N) (rlim_cur : option N) (can_create : string -> bool)
         (junk : N -> byte) (name : string) (fuel : nat)
         (input_buffer_on_heap : bool) (input : list ReadEvent)
         (m m' : Machine),
    0 < C -> C < SIZE_MOD ->
    Forall column_wf (column_infos m) ->
    read_loop C rlim_cur can_create junk fuel input_buffer_on_heap name
      input m = Ok m' ->
    Forall (fun c' => buffer_position c' = 0) (column_infos m') /\
    forall (i : nat) (c : ColumnInfo),
      nth_error (column_infos m) i = Some c ->
      exists c' later,
        nth_error (column_infos m') i = Some c' /\
        path (output_fd c') = path (output_fd c) /\
        written (output_fd c') = column_output c ++ later /\
        (input = [] -> later = []).
Proof.
  intros C rlim_cur can_create junk name fuel input_buffer_on_heap input
         m m' HC Hmax Hwf Hrun.
  assert (Hflushed : forall m0,
             Forall (fun c' => buffer_position c' = 0)
               (column_infos (end_of_input input_buffer_on_heap m0))).
  { intros m0. unfold end_of_input.
    cbn [column_infos set_heap_blocks set_column_infos].
    apply Forall_forall. intros c Hc.
    apply in_map_iff in Hc. destruct Hc as (c0 & <- & _). reflexivity. }
  assert (Hfile : forall c0,
             written (output_fd (flush_buffer c0)) = column_output c0)
    by reflexivity.
  destruct input as [|e input].
  - (* the input is at its end *)
    destruct fuel as [|fuel]; [discriminate|].
    cbn [read_loop read] in Hrun. rewrite len_nil in Hrun.
    cbn [N.eqb] in Hrun. injection Hrun as <-.
    split; [apply Hflushed|].
    intros i c Hi. exists (flush_buffer c), [].
    unfold end_of_input.
    cbn [column_infos set_heap_blocks set_column_infos].
    split; [apply map_nth_error; exact Hi|].
    split; [reflexivity|]. split; [|reflexivity].
    rewrite Hfile. apply eq_sym, app_nil_r.
  - destruct (read_loop_kept C rlim_cur can_create junk name
                (fun cs _ => grown (column_infos m) cs)) with
        (fuel := fuel) (input_buffer_on_heap := input_buffer_on_heap)
        (input := e :: input) (m := m) (m' := m')
      as (m0 & (_ & Hall) & ->).
    + intros cs h i c c' Hnth Hstep Hg.
      exact (grown_sink _ _ _ _ _ Hnth Hstep Hg).
    + intros cs h info info' row Hinfo Hfill Hg.
      exact (grown_create C rlim_cur can_create junk name _ _ _ _ _ _
               HC Hmax Hinfo Hfill Hg).
    + exact Hrun.
    + apply grown_refl. exact Hwf.
    + split; [apply Hflushed|].
      intros i c Hi. destruct (Hall i c Hi) as (c0 & later & H1 & H2 & H3).
      exists (flush_buffer c0), later.
      unfold end_of_input.
      cbn [column_infos set_heap_blocks set_column_infos].
      split; [apply map_nth_error; exact H1|].
      split; [exact H2|]. split; [|discriminate].
      rewrite Hfile. exact H3.
Qed.

Lemma nothing_sent_to_a_column_is_lost_witness :
  Forall (fun c' => buffer_position c' = 0)
    (column_infos pending_machine_end) /\
  forall (i : nat) (c : ColumnInfo),
    nth_error (column_infos pending_machine) i = Some c ->
    exists c' later,
      nth_error (column_infos pending_machine_end) i = Some c' /\
      path (output_fd c') = path (output_fd c) /\
      written (output_fd c') = column_output c ++ later /\
      ([Data (bytes "de" ++ [LF])] = [] -> later = []).
Proof.
  apply (nothing_sent_to_a_column_is_lost 4 None any_path no_junk "" 3
           false [Data (bytes "de" ++ [LF])] pending_machine
           pending_machine_end).
  - reflexivity.
  - reflexivity.
  - constructor; [exact small_column_wf | constructor].
  - vm_compute. reflexivity.
Defined.




(* ================================================================= *)
(** ** The bytes of a window *)
















(* ================================================================= *)
(** ** The steps of the machine on plain bytes *)

(** The columns of the machine are followed through the steps as the bytes
    each of them has received ([cols_ok]); the window may have any size
    above 1. *)
Section Columns.

Variable C : N.
Variable rlim_cur : option N.
Variable can_create : string -> bool.
Variable junk : N -> byte.
Variable name : string.

Hypothesis Hsize : C + 10 < SIZE_MOD.
Hypothesis Hbig : 1 < C.

















(** *** The walk through one window *)

(** The window holds [n] bytes, with the three sentinels and [tail] behind
    them.  [done] are the bytes of the window the walk has behind it, and
    [u] the ones before it, of which the first record separator has been
    turned into a field separator in all states but [OnRowInitial]. *)
Section Window.

Variable n : N.
Variable tail : list byte.
Hypothesis Hn : n <= C.






















End Window.


(** *** Window after window *)







End Columns.

(* ================================================================= *)
(** ** The tally of a stream of plain records *)




(* ================================================================= *)
(** ** What the columns of a stream of plain records hold *)

























(* ================================================================= *)
(** ** Streams of plain records of any length *)













(* ================================================================= *)
(** ** The sentinel branch of [InSimpleColumn], on an example *)

Lemma in_simple_column_copies_to_capacity_witness :
  exists m' column',
    in_simple_column 4
      (machine_at 2 (bytes "ab" ++ [LF; COMMA; DQUOTE] ++ repeat x00 9) 2
         [small_column] 0 0 InSimpleColumn 0) 0
    = Ok (m', read_chunk) /\
    current_state m' = InSimpleColumn /\
    nth_error (column_infos m') (N.to_nat (current_column m'))
    = Some column' /\
    column_output column'
    = column_output small_column
      ++ take (4 - 0)
           (drop 0 (bytes "ab" ++ [LF; COMMA; DQUOTE] ++ repeat x00 9)).
Proof.
  apply (in_simple_column_copies_to_capacity 4
           (machine_at 2 (bytes "ab" ++ [LF; COMMA; DQUOTE] ++ repeat x00 9)
              2 [small_column] 0 0 InSimpleColumn 0) 0 small_column).
  - reflexivity.
  - exact small_column_wf.
  - reflexivity.
  - discriminate.
  - vm_compute. discriminate.
  - reflexivity.
Defined.
